(** * Legacy fake timers (jest-fake-timers, [FakeTimers<TimerRef>])

    A shallow embedding of the virtual-time scheduler of
    [src/unnamed/part_001] and the properties of its drains.

    Conventions of the embedding.
    - JavaScript numbers that hold clock readings, expiries, loop bounds and
      ids are integers ([Z]); the only place where the source coerces an
      arbitrary number is the [delay] of [_fakeSetTimeout], which is modelled
      with [JsValue] and [ToInt32].
    - A [TimerID] is [String(uuid)] for an integer [uuid]; [String] is
      injective on integers, so the maps are keyed by the integer itself.
    - [_timers] is a JavaScript [Map]: iteration follows insertion order and
      [set] on a present key keeps its position.  It is an association list.
    - User callbacks are named by natural numbers; the section variable
      [body] gives, for each name, the calls the function makes to the fake
      primitives (and whether it throws).  A callback is run synchronously
      by the drain that fires it.
    - The backup scheduling of ticks and immediates on the real event loop
      ([this._timerAPIs.nextTick(...)], [this._timerAPIs.setImmediate(...)])
      happens after the synchronous code returns and is not part of the
      model.
    - Three fields of the state are not fields of the source class:
      [_trace] is an observation log of callback invocations (a timer is
      logged with the expiry it had when it was picked), [_warnings] counts
      the calls to [console.warn], and [_mockGeneration] numbers the calls
      to [_createMocks], so that the mock functions of different calls are
      different objects.
    - A drain called from inside a callback is outside the model: a user
      function calls the fake primitives only. *)

From Stdlib Require Import ZArith List String Bool Lia QArith Sorting.Sorted Permutation.
Import ListNotations.
Local Open Scope string_scope.
Local Open Scope list_scope.
Local Open Scope Z_scope.

Set Implicit Arguments.

(** ** JavaScript values reaching [delay] *)

(** [delay?: number]: [undefined] or a number.  A finite double is a dyadic
    rational; the model admits every rational. *)
Inductive JsNumber :=
| JsNaN
| JsInfinity (negative : bool)
| JsFinite (q : Q).

Inductive JsValue :=
| JsUndefined
| JsNum (n : JsNumber).

(** [Number(v)] *)
Definition Number (v : JsValue) : JsNumber :=
  match v with
  | JsUndefined => JsNaN
  | JsNum n => n
  end.

(** Truncation toward zero of a finite number. *)
Definition truncate (q : Q) : Z := Z.quot (Qnum q) (Zpos (Qden q)).

(** Reduction modulo 2^32 into the signed range. *)
Definition wrap32 (z : Z) : Z :=
  let m := z mod 2 ^ 32 in
  if 2 ^ 31 <=? m then m - 2 ^ 32 else m.

(** The abstract operation ToInt32 applied by the bitwise operators. *)
Definition ToInt32 (n : JsNumber) : Z :=
  match n with
  | JsNaN => 0
  | JsInfinity _ => 0
  | JsFinite q => wrap32 (truncate q)
  end.

(** [a | b] *)
Definition bitor (a b : JsNumber) : Z := wrap32 (Z.lor (ToInt32 a) (ToInt32 b)).

(** [x || 0] for [x : number | undefined] restricted to integers. *)
Definition or_zero (x : option Z) : Z :=
  match x with
  | Some z => if z =? 0 then 0 else z
  | None => 0
  end.

(** ** Data model *)

Definition TimerID := Z.

Definition MS_IN_A_YEAR : Z := 31536000000.

(** A function value handed to a primitive: a user function, or the wrapper
    [() => callback(this._now)] built by [_fakeRequestAnimationFrame]. *)
Inductive Callback :=
| UserFn (name : nat)
| FrameFn (name : nat).

Record Tick := mkTick {
  uuid : TimerID;
  tick_callback : Callback
}.

Record Timer := mkTimer {
  type : string;
  callback : Callback;
  expiry : Z;
  interval : option Z
}.

(** Identity of a function object installed in the host globals. *)
Inductive Fn :=
| HostFn (n : nat)
| MockFn (generation : nat) (slot : string).

Definition Fn_eqb (f g : Fn) : bool :=
  match f, g with
  | HostFn n, HostFn m => Nat.eqb n m
  | MockFn n a, MockFn m b => Nat.eqb n m && String.eqb a b
  | _, _ => false
  end.

(** [a === b] on [Fn | undefined] *)
Definition same_fn (a b : option Fn) : bool :=
  match a, b with
  | None, None => true
  | Some f, Some g => Fn_eqb f g
  | _, _ => false
  end.

(** The nine primitives; [None] is [undefined].  The same record serves for
    the host globals ([nextTick] standing for [global.process.nextTick]). *)
Record TimerAPI := mkTimerAPI {
  cancelAnimationFrame : option Fn;
  clearImmediate : option Fn;
  clearInterval : option Fn;
  clearTimeout : option Fn;
  nextTick : option Fn;
  requestAnimationFrame : option Fn;
  setImmediate : option Fn;
  setInterval : option Fn;
  setTimeout : option Fn
}.

(** Where an invocation comes from; a timer is recorded with the expiry it
    had when it was picked. *)
Inductive Source :=
| FromTick
| FromImmediate
| FromTimer (expiry_when_fired : Z).

(** One invocation of a user function. *)
Record Event := mkEvent {
  ev_source : Source;
  ev_uuid : TimerID;
  ev_name : nat;
  ev_arg : option Z;
  ev_now : Z
}.

Inductive Exn :=
| RanTooMany (maxLoops : Z) (what : string)
| UnexpectedTimerType (ty : string)
| Thrown (e : nat).

Record FakeTimers := mkFakeTimers {
  _cancelledTicks : list TimerID;
  _disposed : bool;
  _fakeTimerAPIs : option TimerAPI;
  _global : TimerAPI;
  _immediates : list Tick;
  _maxLoops : Z;
  _now : Z;
  _ticks : list Tick;
  _timerAPIs : TimerAPI;
  _timers : list (TimerID * Timer);
  _uuidCounter : Z;
  _mockGeneration : nat;
  _warnings : nat;
  _trace : list Event
}.

Definition set_cancelledTicks (s : FakeTimers) v :=
  mkFakeTimers v (_disposed s) (_fakeTimerAPIs s) (_global s) (_immediates s)
    (_maxLoops s) (_now s) (_ticks s) (_timerAPIs s) (_timers s)
    (_uuidCounter s) (_mockGeneration s) (_warnings s) (_trace s).
Definition set_disposed (s : FakeTimers) v :=
  mkFakeTimers (_cancelledTicks s) v (_fakeTimerAPIs s) (_global s) (_immediates s)
    (_maxLoops s) (_now s) (_ticks s) (_timerAPIs s) (_timers s)
    (_uuidCounter s) (_mockGeneration s) (_warnings s) (_trace s).
Definition set_fakeTimerAPIs (s : FakeTimers) v :=
  mkFakeTimers (_cancelledTicks s) (_disposed s) v (_global s) (_immediates s)
    (_maxLoops s) (_now s) (_ticks s) (_timerAPIs s) (_timers s)
    (_uuidCounter s) (_mockGeneration s) (_warnings s) (_trace s).
Definition set_global (s : FakeTimers) v :=
  mkFakeTimers (_cancelledTicks s) (_disposed s) (_fakeTimerAPIs s) v (_immediates s)
    (_maxLoops s) (_now s) (_ticks s) (_timerAPIs s) (_timers s)
    (_uuidCounter s) (_mockGeneration s) (_warnings s) (_trace s).
Definition set_immediates (s : FakeTimers) v :=
  mkFakeTimers (_cancelledTicks s) (_disposed s) (_fakeTimerAPIs s) (_global s) v
    (_maxLoops s) (_now s) (_ticks s) (_timerAPIs s) (_timers s)
    (_uuidCounter s) (_mockGeneration s) (_warnings s) (_trace s).
Definition set_now (s : FakeTimers) v :=
  mkFakeTimers (_cancelledTicks s) (_disposed s) (_fakeTimerAPIs s) (_global s) (_immediates s)
    (_maxLoops s) v (_ticks s) (_timerAPIs s) (_timers s)
    (_uuidCounter s) (_mockGeneration s) (_warnings s) (_trace s).
Definition set_ticks (s : FakeTimers) v :=
  mkFakeTimers (_cancelledTicks s) (_disposed s) (_fakeTimerAPIs s) (_global s) (_immediates s)
    (_maxLoops s) (_now s) v (_timerAPIs s) (_timers s)
    (_uuidCounter s) (_mockGeneration s) (_warnings s) (_trace s).
Definition set_timers (s : FakeTimers) v :=
  mkFakeTimers (_cancelledTicks s) (_disposed s) (_fakeTimerAPIs s) (_global s) (_immediates s)
    (_maxLoops s) (_now s) (_ticks s) (_timerAPIs s) v
    (_uuidCounter s) (_mockGeneration s) (_warnings s) (_trace s).
Definition set_uuidCounter (s : FakeTimers) v :=
  mkFakeTimers (_cancelledTicks s) (_disposed s) (_fakeTimerAPIs s) (_global s) (_immediates s)
    (_maxLoops s) (_now s) (_ticks s) (_timerAPIs s) (_timers s)
    v (_mockGeneration s) (_warnings s) (_trace s).
Definition set_mockGeneration (s : FakeTimers) v :=
  mkFakeTimers (_cancelledTicks s) (_disposed s) (_fakeTimerAPIs s) (_global s) (_immediates s)
    (_maxLoops s) (_now s) (_ticks s) (_timerAPIs s) (_timers s)
    (_uuidCounter s) v (_warnings s) (_trace s).
Definition set_warnings (s : FakeTimers) v :=
  mkFakeTimers (_cancelledTicks s) (_disposed s) (_fakeTimerAPIs s) (_global s) (_immediates s)
    (_maxLoops s) (_now s) (_ticks s) (_timerAPIs s) (_timers s)
    (_uuidCounter s) (_mockGeneration s) v (_trace s).
Definition set_trace (s : FakeTimers) v :=
  mkFakeTimers (_cancelledTicks s) (_disposed s) (_fakeTimerAPIs s) (_global s) (_immediates s)
    (_maxLoops s) (_now s) (_ticks s) (_timerAPIs s) (_timers s)
    (_uuidCounter s) (_mockGeneration s) (_warnings s) v.

(** ** The [Map<string, Timer>] operations *)

Fixpoint Map_get (m : list (TimerID * Timer)) (k : TimerID) : option Timer :=
  match m with
  | [] => None
  | (k', v) :: m' => if k' =? k then Some v else Map_get m' k
  end.

(** [set] replaces in place when the key is present and appends otherwise. *)
Fixpoint Map_set (m : list (TimerID * Timer)) (k : TimerID) (v : Timer) :=
  match m with
  | [] => [(k, v)]
  | (k', v') :: m' => if k' =? k then (k', v) :: m' else (k', v') :: Map_set m' k v
  end.

Definition Map_delete (m : list (TimerID * Timer)) (k : TimerID) :=
  filter (fun e => negb (fst e =? k)) m.

Definition Map_size (m : list (TimerID * Timer)) : Z := Z.of_nat (List.length m).

(** ** State and exceptions

    A thrown exception keeps every mutation made before it, so a computation
    returns its outcome together with the state it leaves. *)

Definition M (A : Type) := FakeTimers -> (Exn + A) * FakeTimers.

Definition ret {A} (a : A) : M A := fun s => (inr a, s).

Definition bind {A B} (m : M A) (k : A -> M B) : M B :=
  fun s =>
    match m s with
    | (inl e, s') => (inl e, s')
    | (inr a, s') => k a s'
    end.

Definition throw {A} (e : Exn) : M A := fun s => (inl e, s).

Definition gets {A} (f : FakeTimers -> A) : M A := fun s => (inr (f s), s).

Definition modify (f : FakeTimers -> FakeTimers) : M unit := fun s => (inr tt, f s).

(** [try { m } finally { cleanup }] with a cleanup that cannot throw. *)
Definition try_finally {A} (m : M A) (cleanup : FakeTimers -> FakeTimers) : M A :=
  fun s => let (r, s') := m s in (r, cleanup s').

Declare Scope fake_scope.
Delimit Scope fake_scope with fake.
Notation "x <- m ;; k" := (bind m (fun x => k))
  (at level 61, m at next level, right associativity) : fake_scope.
Notation "m ;; k" := (bind m (fun _ => k))
  (at level 61, right associativity) : fake_scope.
Local Open Scope fake_scope.

Inductive LoopCtl := Break | Continue.

(** [for (i = i0; i < bound; i++) step], where [fuel] is the number of
    iterations the condition allows; the result is the final [i]. *)
Fixpoint for_loop (fuel : nat) (i : Z) (step : M LoopCtl) : M Z :=
  match fuel with
  | O => ret i
  | S fuel' =>
      ctl <- step ;;
      match ctl with
      | Break => ret i
      | Continue => for_loop fuel' (i + 1) step
      end
  end.

(** [this._maxLoops] is assigned by the constructor only, so the bound of a
    loop is read once. *)
Definition bounded_loop (what : string) (step : M LoopCtl) : M unit :=
  maxLoops <- gets _maxLoops ;;
  i <- for_loop (Z.to_nat maxLoops) 0 step ;;
  if i =? maxLoops then throw (RanTooMany maxLoops what) else ret tt.

(** ** Lifecycle and introspection *)

Definition clearAllTimers (s : FakeTimers) : FakeTimers :=
  set_timers (set_immediates s []) [].

Definition dispose (s : FakeTimers) : FakeTimers :=
  clearAllTimers (set_disposed s true).

Definition reset (s : FakeTimers) : FakeTimers :=
  set_timers (set_immediates (set_ticks (set_now (set_cancelledTicks s []) 0) []) []) [].

Definition _checkFakeTimers (s : FakeTimers) : FakeTimers :=
  let fake :=
    match _fakeTimerAPIs s with
    | Some api => setTimeout api
    | None => None
    end in
  if same_fn (setTimeout (_global s)) fake then s
  else set_warnings s (S (_warnings s)).

Definition getTimerCount : M Z :=
  modify _checkFakeTimers ;;
  s <- gets (fun s => s) ;;
  ret (Map_size (_timers s) + Z.of_nat (List.length (_immediates s))
       + Z.of_nat (List.length (_ticks s))).

(** ** Installer *)

Definition is_function (f : option Fn) : bool :=
  match f with
  | Some _ => true
  | None => false
  end.

(** Every call builds nine fresh mock functions. *)
Definition _createMocks (s : FakeTimers) : FakeTimers :=
  let g := _mockGeneration s in
  set_fakeTimerAPIs (set_mockGeneration s (S g))
    (Some {| cancelAnimationFrame := Some (MockFn g "cancelAnimationFrame");
             clearImmediate := Some (MockFn g "clearImmediate");
             clearInterval := Some (MockFn g "clearInterval");
             clearTimeout := Some (MockFn g "clearTimeout");
             nextTick := Some (MockFn g "nextTick");
             requestAnimationFrame := Some (MockFn g "requestAnimationFrame");
             setImmediate := Some (MockFn g "setImmediate");
             setInterval := Some (MockFn g "setInterval");
             setTimeout := Some (MockFn g "setTimeout") |}).

(** Modelled from the spec: [setGlobal] of jest-util is not among the
    sources; the installer "writes the fake into the host globals", so the
    sequence of [setGlobal] calls and the assignment to
    [global.process.nextTick] are the assignments below. *)
Definition install (api g : TimerAPI) : TimerAPI :=
  {| cancelAnimationFrame :=
       if is_function (cancelAnimationFrame g) then cancelAnimationFrame api
       else cancelAnimationFrame g;
     clearImmediate :=
       if is_function (clearImmediate g) then clearImmediate api
       else clearImmediate g;
     clearInterval := clearInterval api;
     clearTimeout := clearTimeout api;
     nextTick := nextTick api;
     requestAnimationFrame :=
       if is_function (requestAnimationFrame g) then requestAnimationFrame api
       else requestAnimationFrame g;
     setImmediate :=
       if is_function (setImmediate g) then setImmediate api
       else setImmediate g;
     setInterval := setInterval api;
     setTimeout := setTimeout api |}.

Definition useRealTimers (s : FakeTimers) : FakeTimers :=
  set_global s (install (_timerAPIs s) (_global s)).

Definition useFakeTimers (s : FakeTimers) : FakeTimers :=
  let s := _createMocks s in
  match _fakeTimerAPIs s with
  | Some fake => set_global s (install fake (_global s))
  | None => s
  end.

(** The seven assignments that follow the [try]/[catch]. *)
Definition restore (prev g : TimerAPI) : TimerAPI :=
  {| cancelAnimationFrame := cancelAnimationFrame g;
     clearImmediate := clearImmediate prev;
     clearInterval := clearInterval prev;
     clearTimeout := clearTimeout prev;
     nextTick := nextTick prev;
     requestAnimationFrame := requestAnimationFrame g;
     setImmediate := setImmediate prev;
     setInterval := setInterval prev;
     setTimeout := setTimeout prev |}.

(** [cb] is any host function: it may act on the scheduler and on the
    globals in any way, and may throw. *)
Definition runWithRealTimers (cb : M unit) : M unit :=
  prev <- gets _global ;;
  modify useRealTimers ;;
  fun s =>
    let (r, s') := cb s in
    let s'' := set_global s' (restore prev (_global s')) in
    match r with
    | inl cbErr => (inl cbErr, s'')
    | inr _ => (inr tt, s'')
    end.

(** The record of the invocation of [f] as entry [id] at clock [now]. *)
Definition event_of (src : Source) (id : TimerID) (f : Callback) (now : Z) : Event :=
  match f with
  | UserFn n => mkEvent src id n None now
  | FrameFn n => mkEvent src id n (Some now) now
  end.

(** ** Fake primitives and drains *)

Section Scheduler.

(** The ref/id bridge [_timerConfig]. [refToId] returns [number | void]. *)
Variable TimerRef : Type.
Variable idToRef : Z -> TimerRef.
Variable refToId : TimerRef -> option Z.

(** What a user function does when it is invoked: calls to the installed
    fakes, in order, possibly ending in a [throw].  A user function that
    calls a method of the scheduler itself ([reset], [advanceTimersByTime],
    a drain, ...) is not expressible: the properties below speak of
    callbacks that use the fakes only. *)
Inductive Cmd :=
| SetTimeout (cb : nat) (delay : JsValue)
| SetInterval (cb : nat) (intervalDelay : option Z)
| SetImmediate (cb : nat)
| NextTick (cb : nat)
| RequestAnimationFrame (cb : nat)
| ClearTimer (timerRef : TimerRef)
| ClearImmediate (id : TimerID)
| Throw (e : nat).

Variable body : nat -> list Cmd.

Definition _fakeClearTimer (timerRef : TimerRef) (s : FakeTimers) : FakeTimers :=
  match refToId timerRef with
  | Some id => if id =? 0 then s else set_timers s (Map_delete (_timers s) id)
  | None => s
  end.

Definition _fakeClearImmediate (id : TimerID) (s : FakeTimers) : FakeTimers :=
  set_immediates s (filter (fun immediate => negb (uuid immediate =? id)) (_immediates s)).

(** Returns [undefined] in both branches.  The source then hands a backup
    closure to the real [process.nextTick] ([this._timerAPIs.nextTick]); the
    host runs it in a later turn of its event loop, where it marks the tick
    in [_cancelledTicks] and calls the callback unless the tick is marked
    already.  The model covers the synchronous behaviour of the class and
    leaves that later turn out, so nothing here says that a queued tick is
    never marked. *)
Definition _fakeNextTick (cb : Callback) (s : FakeTimers) : FakeTimers :=
  if _disposed s then s
  else
    let id := _uuidCounter s in
    let s := set_uuidCounter s (id + 1) in
    set_ticks s (_ticks s ++ [mkTick id cb]).

(** The backup closure handed to the real [setImmediate], which the host
    runs in a later turn if the immediate is still queued, is left out as
    for [_fakeNextTick]. *)
Definition _fakeSetImmediate (cb : Callback) (s : FakeTimers)
  : option TimerID * FakeTimers :=
  if _disposed s then (None, s)
  else
    let id := _uuidCounter s in
    let s := set_uuidCounter s (id + 1) in
    (Some id, set_immediates s (_immediates s ++ [mkTick id cb])).

Definition _fakeSetInterval (cb : Callback) (intervalDelay : option Z)
    (s : FakeTimers) : option TimerRef * FakeTimers :=
  if _disposed s then (None, s)
  else
    let intervalDelay :=
      match intervalDelay with
      | None => 0
      | Some d => d
      end in
    let id := _uuidCounter s in
    let s := set_uuidCounter s (id + 1) in
    (Some (idToRef id),
     set_timers s
       (Map_set (_timers s) id
          {| type := "interval"; callback := cb;
             expiry := _now s + intervalDelay;
             interval := Some intervalDelay |})).

Definition _fakeSetTimeout (cb : Callback) (delay : JsValue) (s : FakeTimers)
  : option TimerRef * FakeTimers :=
  if _disposed s then (None, s)
  else
    let delay := bitor (Number delay) (JsFinite 0) in
    let id := _uuidCounter s in
    let s := set_uuidCounter s (id + 1) in
    (Some (idToRef id),
     set_timers s
       (Map_set (_timers s) id
          {| type := "timeout"; callback := cb;
             expiry := _now s + delay;
             interval := None |})).

Definition _fakeRequestAnimationFrame (cb : nat) (s : FakeTimers)
  : option TimerRef * FakeTimers :=
  _fakeSetTimeout (FrameFn cb) (JsNum (JsFinite (1000 # 60))) s.

Definition exec_cmd (c : Cmd) : M unit :=
  match c with
  | SetTimeout cb delay => modify (fun s => snd (_fakeSetTimeout (UserFn cb) delay s))
  | SetInterval cb d => modify (fun s => snd (_fakeSetInterval (UserFn cb) d s))
  | SetImmediate cb => modify (fun s => snd (_fakeSetImmediate (UserFn cb) s))
  | NextTick cb => modify (_fakeNextTick (UserFn cb))
  | RequestAnimationFrame cb => modify (fun s => snd (_fakeRequestAnimationFrame cb s))
  | ClearTimer r => modify (_fakeClearTimer r)
  | ClearImmediate id => modify (_fakeClearImmediate id)
  | Throw e => throw (Thrown e)
  end.

Fixpoint exec (cmds : list Cmd) : M unit :=
  match cmds with
  | [] => ret tt
  | c :: rest => exec_cmd c ;; exec rest
  end.

(** Invocation of the stored thunk of entry [id]; [FrameFn] passes the
    clock reading at the time of the call. *)
Definition call (src : Source) (id : TimerID) (f : Callback) : M unit :=
  fun s =>
    let ev := event_of src id f (_now s) in
    exec (body (ev_name ev)) (set_trace s (_trace s ++ [ev])).

(** [this._ticks.shift()] *)
Definition shift_ticks : M (option Tick) :=
  fun s =>
    match _ticks s with
    | [] => (inr None, s)
    | t :: rest => (inr (Some t), set_ticks s rest)
    end.

(** [this._immediates.shift()] *)
Definition shift_immediates : M (option Tick) :=
  fun s =>
    match _immediates s with
    | [] => (inr None, s)
    | t :: rest => (inr (Some t), set_immediates s rest)
    end.

Definition hasOwnProperty (cancelled : list TimerID) (id : TimerID) : bool :=
  existsb (Z.eqb id) cancelled.

(** One iteration of the loop of [runAllTicks]. *)
Definition ticks_iteration : M LoopCtl :=
  tick <- shift_ticks ;;
  match tick with
  | None => ret Break
  | Some tick =>
      cancelled <- gets _cancelledTicks ;;
      (if negb (hasOwnProperty cancelled (uuid tick)) then
         modify (fun s => set_cancelledTicks s (uuid tick :: _cancelledTicks s)) ;;
         call FromTick (uuid tick) (tick_callback tick)
       else ret tt) ;;
      ret Continue
  end.

Definition runAllTicks : M unit :=
  modify _checkFakeTimers ;;
  bounded_loop " ticks" ticks_iteration.

Definition _runImmediate (immediate : Tick) : M unit :=
  try_finally (call FromImmediate (uuid immediate) (tick_callback immediate))
    (_fakeClearImmediate (uuid immediate)).

(** One iteration of the loop of [runAllImmediates]. *)
Definition immediates_iteration : M LoopCtl :=
  immediate <- shift_immediates ;;
  match immediate with
  | None => ret Break
  | Some immediate => _runImmediate immediate ;; ret Continue
  end.

Definition runAllImmediates : M unit :=
  modify _checkFakeTimers ;;
  bounded_loop " immediates" immediates_iteration.

(** The body of the [forEach] of [_getNextTimerHandle], on the pair of
    locals [(nextTimerHandle, soonestTime)]. *)
Definition next_step (acc : option TimerID * Z) (e : TimerID * Timer) :=
  let (nextTimerHandle, soonestTime) := acc in
  if expiry (snd e) <? soonestTime then (Some (fst e), expiry (snd e))
  else (nextTimerHandle, soonestTime).

Definition _getNextTimerHandle (s : FakeTimers) : option TimerID :=
  fst (fold_left next_step (_timers s) (None, MS_IN_A_YEAR)).

Definition _runTimerHandle (timerHandle : TimerID) : M unit :=
  timer <- gets (fun s => Map_get (_timers s) timerHandle) ;;
  match timer with
  | None => ret tt
  | Some timer =>
      if String.eqb (type timer) "timeout" then
        modify (fun s => set_timers s (Map_delete (_timers s) timerHandle)) ;;
        call (FromTimer (expiry timer)) timerHandle (callback timer)
      else if String.eqb (type timer) "interval" then
        modify (fun s =>
                  set_timers s
                    (Map_set (_timers s) timerHandle
                       (mkTimer (type timer) (callback timer)
                          (_now s + or_zero (interval timer)) (interval timer)))) ;;
        call (FromTimer (expiry timer)) timerHandle (callback timer)
      else throw (UnexpectedTimerType (type timer))
  end.

(** One iteration of the main loop of [runAllTimers]. *)
Definition timers_iteration : M LoopCtl :=
  nextTimerHandle <- gets _getNextTimerHandle ;;
  match nextTimerHandle with
  | None => ret Break
  | Some nextTimerHandle =>
      _runTimerHandle nextTimerHandle ;;
      immediates <- gets _immediates ;;
      (if negb (Nat.eqb (List.length immediates) 0) then runAllImmediates else ret tt) ;;
      ticks <- gets _ticks ;;
      (if negb (Nat.eqb (List.length ticks) 0) then runAllTicks else ret tt) ;;
      ret Continue
  end.

Definition runAllTimers : M unit :=
  modify _checkFakeTimers ;;
  runAllTicks ;;
  runAllImmediates ;;
  bounded_loop " timers" timers_iteration.

(** [msToRun] is a local of the call, updated by the loop; it is carried
    next to the state. *)
Fixpoint advance_loop (fuel : nat) (i : Z) (msToRun : Z) : M Z :=
  match fuel with
  | O => ret i
  | S fuel' =>
      timerHandle <- gets _getNextTimerHandle ;;
      match timerHandle with
      | None => ret i
      | Some timerHandle =>
          timerValue <- gets (fun s => Map_get (_timers s) timerHandle) ;;
          match timerValue with
          | None => ret i
          | Some timerValue =>
              let nextTimerExpiry := expiry timerValue in
              now <- gets _now ;;
              if now + msToRun <? nextTimerExpiry then
                modify (fun s => set_now s (_now s + msToRun)) ;;
                ret i
              else
                modify (fun s => set_now s nextTimerExpiry) ;;
                _runTimerHandle timerHandle ;;
                advance_loop fuel' (i + 1) (msToRun - (nextTimerExpiry - now))
          end
      end
  end.

Definition advanceTimersByTime (msToRun : Z) : M unit :=
  modify _checkFakeTimers ;;
  maxLoops <- gets _maxLoops ;;
  i <- advance_loop (Z.to_nat maxLoops) 0 msToRun ;;
  if i =? maxLoops then throw (RanTooMany maxLoops " timers") else ret tt.

(** The [reduce] of [advanceTimersToNextTimer]. *)
Definition nextExpiry (s : FakeTimers) : option Z :=
  fold_left
    (fun (minExpiry : option Z) (e : TimerID * Timer) =>
       match minExpiry with
       | None => Some (expiry (snd e))
       | Some m => if expiry (snd e) <? m then Some (expiry (snd e)) else Some m
       end)
    (_timers s) None.

(** The recursion is on [steps]; [Z.to_nat steps] is [0] exactly when
    [steps < 1]. *)
Fixpoint advance_steps (steps : nat) : M unit :=
  match steps with
  | O => ret tt
  | S steps' =>
      next <- gets nextExpiry ;;
      match next with
      | None => ret tt
      | Some nextExpiry =>
          now <- gets _now ;;
          advanceTimersByTime (nextExpiry - now) ;;
          advance_steps steps'
      end
  end.

Definition advanceTimersToNextTimer (steps : Z) : M unit :=
  advance_steps (Z.to_nat steps).

(** Stable insertion by [left.expiry - right.expiry]: the order that
    [Array.prototype.sort] must produce, being stable. *)
Fixpoint insert_entry (e : TimerID * Timer) (l : list (TimerID * Timer)) :=
  match l with
  | [] => [e]
  | x :: l' =>
      if expiry (snd e) <=? expiry (snd x) then e :: x :: l'
      else x :: insert_entry e l'
  end.

Fixpoint sort_entries (l : list (TimerID * Timer)) :=
  match l with
  | [] => []
  | e :: l' => insert_entry e (sort_entries l')
  end.

(** [array.forEach(f)] over an array that the calls do not mutate. *)
Fixpoint forEach {A} (l : list A) (f : A -> M unit) : M unit :=
  match l with
  | [] => ret tt
  | x :: l' => f x ;; forEach l' f
  end.

(** [timerEntries] shares its [Timer] objects with the map, but an expiry is
    assigned only by [_runTimerHandle], which runs after the sort: the
    snapshot can be taken by value.  [this._immediates.forEach] iterates the
    array that was current when it started: [_fakeClearImmediate] replaces
    the field by a filtered copy and a [push] lands beyond the length that
    [forEach] read. *)
Definition runOnlyPendingTimers : M unit :=
  timerEntries <- gets _timers ;;
  modify _checkFakeTimers ;;
  immediates <- gets _immediates ;;
  forEach immediates _runImmediate ;;
  forEach (sort_entries timerEntries) (fun e => _runTimerHandle (fst e)).

End Scheduler.

(** ** Construction and reference scenarios *)

(** [new FakeTimers({global, maxLoops, ...})] *)
Definition constructor (global : TimerAPI) (maxLoops : option Z) : FakeTimers :=
  reset
    {| _cancelledTicks := [];
       _disposed := false;
       _fakeTimerAPIs := None;
       _global := global;
       _immediates := [];
       _maxLoops := match maxLoops with
                    | Some m => if m =? 0 then 100000 else m
                    | None => 100000
                    end;
       _now := 0;
       _ticks := [];
       _timerAPIs := global;
       _timers := [];
       _uuidCounter := 1;
       _mockGeneration := 0;
       _warnings := 0;
       _trace := [] |}.

(** A host that defines all nine primitives. *)
Definition host : TimerAPI :=
  {| cancelAnimationFrame := Some (HostFn 0);
     clearImmediate := Some (HostFn 1);
     clearInterval := Some (HostFn 2);
     clearTimeout := Some (HostFn 3);
     nextTick := Some (HostFn 4);
     requestAnimationFrame := Some (HostFn 5);
     setImmediate := Some (HostFn 6);
     setInterval := Some (HostFn 7);
     setTimeout := Some (HostFn 8) |}.

(** A scheduler on [host] with the fakes installed. *)
Definition installed (maxLoops : option Z) : FakeTimers :=
  useFakeTimers (constructor host maxLoops).

(** Handles are the ids themselves, as in a browser-like environment. *)
Definition id_refToId (ref : Z) : option Z := Some ref.
Definition id_idToRef (id : Z) : Z := id.

(** User functions that do nothing. *)
Definition inert (_ : nat) : list (Cmd Z) := [].

(** User functions that register themselves again on the next tick. *)
Definition respawn (n : nat) : list (Cmd Z) := [NextTick Z n].

(** A user function that schedules a short timeout when it runs (function
    [0]); the others do nothing. *)
Definition late_timeout (n : nat) : list (Cmd Z) :=
  match n with
  | O => [SetTimeout Z 1 (JsNum (JsFinite (10 # 1)))]
  | _ => []
  end.

Definition ms (n : Z) : JsValue := JsNum (JsFinite (n # 1)).

(** Timeouts with delays 100, 200 and 50 registered at virtual-now 0; the
    user functions are named after the delays. *)
Definition timeouts_100_200_50 : FakeTimers :=
  snd (_fakeSetTimeout id_idToRef (UserFn 50) (ms 50)
    (snd (_fakeSetTimeout id_idToRef (UserFn 200) (ms 200)
      (snd (_fakeSetTimeout id_idToRef (UserFn 100) (ms 100) (installed None)))))).

(** An interval of 30 registered at virtual-now 0. *)
Definition interval_30 : FakeTimers :=
  snd (_fakeSetInterval id_idToRef (UserFn 7) (Some 30) (installed None)).

(** One timeout of delay 100 whose function is [late_timeout]'s function 0. *)
Definition timeout_100_late : FakeTimers :=
  snd (_fakeSetTimeout id_idToRef (UserFn 0) (ms 100) (installed None)).

(** A scheduler with [maxLoops = 5] and one tick registered. *)
Definition one_tick_max5 : FakeTimers :=
  _fakeNextTick (UserFn 0) (installed (Some 5)).

(** An interval of forty billion milliseconds, more than a year, next to a
    timeout of 100. *)
Definition far_interval : FakeTimers :=
  snd (_fakeSetTimeout id_idToRef (UserFn 100) (ms 100)
    (snd (_fakeSetInterval id_idToRef (UserFn 7) (Some 40000000000) (installed None)))).

(** A timeout of 100 for [late_timeout]'s function 0, an interval of 30 and
    an immediate, registered in that order. *)
Definition pending_mix : FakeTimers :=
  snd (_fakeSetImmediate (UserFn 3)
    (snd (_fakeSetInterval id_idToRef (UserFn 2) (Some 30)
      (snd (_fakeSetTimeout id_idToRef (UserFn 0) (ms 100) (installed None)))))).

(** The expiries of the timers fired, in the order of firing. *)
Definition fired_expiries (tr : list Event) : list Z :=
  flat_map (fun e => match ev_source e with
                     | FromTimer x => [x]
                     | _ => []
                     end) tr.

(** Names of the functions invoked, with the clock reading at each call. *)
Definition invocations (s : FakeTimers) : list (nat * Z) :=
  map (fun e => (ev_name e, ev_now e)) (_trace s).

Definition expiries (s : FakeTimers) : list Z :=
  map (fun e => expiry (snd e)) (_timers s).

(** The tick queue holds exactly one tick, of user function [c], that has
    not run, and ids still to be minted are not marked cancelled. *)
Definition one_pending_tick (c : nat) (id : TimerID) (s : FakeTimers) : Prop :=
  _ticks s = [mkTick id (UserFn c)] /\
  _disposed s = false /\
  ~ In id (_cancelledTicks s) /\
  (forall k, In k (_cancelledTicks s) -> k < _uuidCounter s).

Definition is_timer_event (e : Event) : bool :=
  match ev_source e with
  | FromTimer _ => true
  | _ => false
  end.

(** How many times the timer [h] has fired. *)
Definition count_fired (h : TimerID) (tr : list Event) : nat :=
  List.length (filter (fun e => is_timer_event e && (ev_uuid e =? h)) tr).

(** The entry that [_getNextTimerHandle] picks in [m]: it splits the map
    into the entries inserted before it, all of later expiry, and those
    inserted after it, none of earlier expiry. *)
Definition earliest_in (m : list (TimerID * Timer)) (h : TimerID) (t : Timer) : Prop :=
  exists before after,
    m = before ++ (h, t) :: after /\
    expiry t < MS_IN_A_YEAR /\
    Forall (fun e => expiry t < expiry (snd e)) before /\
    Forall (fun e => expiry t <= expiry (snd e)) after.

(** [m] keeps [I] whatever its outcome, normal or exceptional. *)
Definition preserves {A} (I : FakeTimers -> Prop) (m : M A) : Prop :=
  forall s, I s -> I (snd (m s)).

(** The timer [h] is stored as [t0] if it is stored at all, its id was
    minted by the counter, and it has fired [n0] times. *)
Definition dormant (h : TimerID) (t0 : Timer) (n0 : nat) (s : FakeTimers) : Prop :=
  h < _uuidCounter s /\
  Forall (fun e => fst e = h -> snd e = t0) (_timers s) /\
  count_fired h (_trace s) = n0.

(** Between [s] and [s'] the timer [h] did not fire, and it is still stored
    as [t0] unless it was cleared. *)
Definition not_fired_between (h : TimerID) (t0 : Timer) (s s' : FakeTimers) : Prop :=
  count_fired h (_trace s') = count_fired h (_trace s) /\
  (Map_get (_timers s') h = Some t0 \/ Map_get (_timers s') h = None).

Definition by_expiry (a b : TimerID * Timer) : Prop :=
  expiry (snd a) <= expiry (snd b).

(** The events of firing the entries of [l] one after the other at [now]. *)
Definition timer_events (now : Z) (l : list (TimerID * Timer)) : list Event :=
  map (fun e => event_of (FromTimer (expiry (snd e))) (fst e) (callback (snd e)) now) l.

Definition immediate_events (now : Z) (l : list Tick) : list Event :=
  map (fun t => event_of FromImmediate (uuid t) (tick_callback t) now) l.

Definition is_timeout_or_interval (t : Timer) : Prop :=
  type t = "timeout" \/ type t = "interval".

(** Every key of the timer map was minted by the counter. *)
Definition keys_below (s : FakeTimers) : Prop :=
  Forall (fun e => fst e < _uuidCounter s) (_timers s).

Definition container_sizes_le (t' t : FakeTimers) : Prop :=
  (List.length (_timers t') <= List.length (_timers t))%nat /\
  (List.length (_immediates t') <= List.length (_immediates t))%nat /\
  (List.length (_ticks t') <= List.length (_ticks t))%nat.

(** A call that neither clears a timer nor throws. *)
Definition harmless {TimerRef : Type} (c : Cmd TimerRef) : Prop :=
  match c with
  | ClearTimer _ => False
  | Throw _ _ => False
  | _ => True
  end.

(** From [s] to [s'] the trace gained exactly [evs], the clock did not move,
    ids were only minted, and every timer with an id minted before [s] is
    stored as it was. *)
Definition extends (evs : list Event) (s s' : FakeTimers) : Prop :=
  _trace s' = _trace s ++ evs /\
  _now s' = _now s /\
  _uuidCounter s <= _uuidCounter s' /\
  (keys_below s -> keys_below s') /\
  (forall k, k < _uuidCounter s ->
     Map_get (_timers s') k = Map_get (_timers s) k).

(** What [_runTimerHandle] leaves in the map for an entry [t] fired at
    [now]: nothing for a timeout, the rescheduled entry for an interval. *)
Definition after_firing (now : Z) (t : Timer) : option Timer :=
  if String.eqb (type t) "timeout" then None
  else Some (mkTimer (type t) (callback t) (now + or_zero (interval t)) (interval t)).

(** Nothing is pending but timeouts, keyed by distinct ids and less than a
    year away. *)
Definition only_near_timeouts (s : FakeTimers) : Prop :=
  _ticks s = [] /\
  _immediates s = [] /\
  NoDup (map fst (_timers s)) /\
  Forall (fun e => type (snd e) = "timeout" /\ expiry (snd e) < MS_IN_A_YEAR)
    (_timers s).

(** [l1] is [l2] with some elements left out. *)
Inductive subseq {A : Type} : list A -> list A -> Prop :=
| subseq_nil (l : list A) : subseq [] l
| subseq_skip (x : A) (l1 l2 : list A) : subseq l1 l2 -> subseq l1 (x :: l2)
| subseq_cons (x : A) (l1 l2 : list A) : subseq l1 l2 -> subseq (x :: l1) (x :: l2).

(** Since the trace was [tr0], no timer has fired. *)
Definition quiet_since (tr0 : list Event) (s : FakeTimers) : Prop :=
  exists evs,
    _trace s = tr0 ++ evs /\ Forall (fun e => is_timer_event e = false) evs.

(** Every id held by the scheduler was minted by the counter, and no
    container holds an id twice. *)
Definition well_formed (s : FakeTimers) : Prop :=
  0 < _uuidCounter s /\
  keys_below s /\
  NoDup (map fst (_timers s)) /\
  Forall (fun t => uuid t < _uuidCounter s) (_immediates s) /\
  NoDup (map uuid (_immediates s)) /\
  Forall (fun t => uuid t < _uuidCounter s) (_ticks s) /\
  NoDup (map uuid (_ticks s)) /\
  Forall (fun k => k < _uuidCounter s) (_cancelledTicks s).

(** A call that registers no timer in the past: the coerced delay of a
    timeout and the delay of an interval are not negative. *)
Definition forward {TimerRef : Type} (c : Cmd TimerRef) : Prop :=
  match c with
  | SetTimeout _ _ delay => 0 <= bitor (Number delay) (JsFinite 0)
  | SetInterval _ _ (Some d) => 0 <= d
  | _ => True
  end.

(** No stored timer is overdue at clock [v], and no stored interval is
    negative. *)
Definition none_overdue (v : Z) (s : FakeTimers) : Prop :=
  _now s = v /\
  Forall (fun e => v <= expiry (snd e) /\ 0 <= or_zero (interval (snd e)))
    (_timers s).

(** The id [h] was minted by the counter and no timer is stored under
    it: the timer was cleared, or it was a timeout and has fired. *)
Definition absent (h : TimerID) (s : FakeTimers) : Prop :=
  h < _uuidCounter s /\ Map_get (_timers s) h = None.

(** The timer [h] is either still stored as [t0] and has fired [n0] times,
    or it is no longer stored and has fired [n0] times or once more. *)
Definition fired_at_most_once (h : TimerID) (t0 : Timer) (n0 : nat)
    (s : FakeTimers) : Prop :=
  h < _uuidCounter s /\
  ((Map_get (_timers s) h = Some t0 /\ count_fired h (_trace s) = n0) \/
   (Map_get (_timers s) h = None /\
    (n0 <= count_fired h (_trace s) <= S n0)%nat)).

(** A call that neither registers nor clears an immediate and does not
    throw. *)
Definition leaves_immediates {TimerRef : Type} (c : Cmd TimerRef) : Prop :=
  match c with
  | SetImmediate _ _ => False
  | ClearImmediate _ _ => False
  | Throw _ _ => False
  | _ => True
  end.

(** A call that neither registers a tick nor throws. *)
Definition leaves_ticks {TimerRef : Type} (c : Cmd TimerRef) : Prop :=
  match c with
  | NextTick _ _ => False
  | Throw _ _ => False
  | _ => True
  end.

Definition tick_events (now : Z) (l : list Tick) : list Event :=
  map (fun t => event_of FromTick (uuid t) (tick_callback t) now) l.

(** The ticks of [l] that are not marked in [cancelled]. *)
Definition not_cancelled (cancelled : list TimerID) (l : list Tick) : list Tick :=
  filter (fun t => negb (hasOwnProperty cancelled (uuid t))) l.

(** The queued ticks have distinct ids minted by the counter, as have the
    marks in [_cancelledTicks], and no queued tick is marked. *)
Definition ticks_fresh (s : FakeTimers) : Prop :=
  NoDup (map uuid (_ticks s)) /\
  Forall (fun t => uuid t < _uuidCounter s) (_ticks s) /\
  Forall (fun k => k < _uuidCounter s) (_cancelledTicks s) /\
  Forall (fun t => hasOwnProperty (_cancelledTicks s) (uuid t) = false) (_ticks s).

(** A call that does not clear the timer [h]. *)
Definition spares {TimerRef : Type} (refToId : TimerRef -> option Z)
    (h : TimerID) (c : Cmd TimerRef) : Prop :=
  match c with
  | ClearTimer r => refToId r <> Some h
  | _ => True
  end.

(** At clock [v] the id [h] holds an interval of delay [iv] that is less
    than a year away. *)
Definition interval_pending (h : TimerID) (iv : option Z) (v : Z)
    (s : FakeTimers) : Prop :=
  _now s = v /\
  0 <= _maxLoops s /\
  h < _uuidCounter s /\
  exists t,
    Map_get (_timers s) h = Some t /\
    type t = "interval" /\
    interval t = iv /\
    expiry t < MS_IN_A_YEAR.

(** Every queued immediate was registered since the counter stood at [c],
    or is one of [pending]. *)
Definition queued_since (c : Z) (pending : list Tick) (s : FakeTimers) : Prop :=
  c <= _uuidCounter s /\
  Forall (fun t => c <= uuid t \/ In (uuid t) (map uuid pending)) (_immediates s).

(** A call that registers no timer. *)
Definition registers_no_timer {TimerRef : Type} (c : Cmd TimerRef) : Prop :=
  match c with
  | SetTimeout _ _ _ => False
  | SetInterval _ _ _ => False
  | RequestAnimationFrame _ _ => False
  | _ => True
  end.

(** Since the timer map was [m0] and the trace [tr0], at clock [now], the
    timers fired are [fired], in this order; with the entries still stored,
    taken in their stable order of ascending expiry, they form a
    subsequence of [m0] in that order.  Only timeouts are stored. *)
Definition fired_in_order (m0 : list (TimerID * Timer)) (tr0 : list Event)
    (now : Z) (s : FakeTimers) : Prop :=
  _now s = now /\
  NoDup (map fst (_timers s)) /\
  Forall (fun e => type (snd e) = "timeout") (_timers s) /\
  exists evs fired,
    _trace s = tr0 ++ evs /\
    filter is_timer_event evs = timer_events now fired /\
    subseq (fired ++ sort_entries (_timers s)) (sort_entries m0).

(** * Properties *)

(** ** Arithmetic of the delay coercion *)

Lemma wrap32_range z : - 2 ^ 31 <= wrap32 z < 2 ^ 31.
Proof.
  unfold wrap32.
  pose proof (Z.mod_pos_bound z (2 ^ 32) ltac:(lia)) as H.
  cbv zeta. destruct (Z.leb_spec (2 ^ 31) (z mod 2 ^ 32)); lia.
Qed.

Lemma wrap32_small z : - 2 ^ 31 <= z < 2 ^ 31 -> wrap32 z = z.
Proof.
  intros Hz. unfold wrap32. cbv zeta.
  destruct (Z_lt_le_dec z 0) as [Hneg | Hpos].
  - assert (E : z mod 2 ^ 32 = z + 2 ^ 32).
    { symmetry. apply Z.mod_unique with (q := -1); lia. }
    rewrite E. destruct (Z.leb_spec (2 ^ 31) (z + 2 ^ 32)); lia.
  - rewrite Z.mod_small by lia.
    destruct (Z.leb_spec (2 ^ 31) z); lia.
Qed.

Lemma ToInt32_range n : - 2 ^ 31 <= ToInt32 n < 2 ^ 31.
Proof. destruct n; simpl; try lia; apply wrap32_range. Qed.

Lemma bitor_zero n : bitor n (JsFinite 0) = ToInt32 n.
Proof.
  unfold bitor. change (ToInt32 (JsFinite 0)) with 0.
  rewrite Z.lor_0_r. apply wrap32_small, ToInt32_range.
Qed.

(** ** Map and record facts *)

Ltac conj_split :=
  repeat match goal with
         | |- _ /\ _ => split
         end.

(** Reads a field through the setters wrapped around a state. *)
Ltac state_simpl :=
  cbn [_cancelledTicks _disposed _fakeTimerAPIs _global _immediates _maxLoops
       _now _ticks _timerAPIs _timers _uuidCounter _mockGeneration _warnings
       _trace
       set_cancelledTicks set_disposed set_fakeTimerAPIs set_global
       set_immediates set_now set_ticks set_timers set_uuidCounter
       set_mockGeneration set_warnings set_trace] in *.

Lemma set_timers_same s : set_timers s (_timers s) = s.
Proof. destruct s; reflexivity. Qed.

Lemma Map_delete_absent m k : Map_get m k = None -> Map_delete m k = m.
Proof.
  induction m as [| [k' v] m IH]; simpl; intros H; [reflexivity |].
  destruct (k' =? k); [discriminate |]. simpl. f_equal. auto.
Qed.

Lemma Map_get_delete_same m k : Map_get (Map_delete m k) k = None.
Proof.
  induction m as [| [k' v] m IH]; simpl; [reflexivity |].
  destruct (k' =? k) eqn:E; simpl; [assumption |]. rewrite E. assumption.
Qed.

Lemma Map_delete_length m k : (List.length (Map_delete m k) <= List.length m)%nat.
Proof. unfold Map_delete. apply filter_length_le. Qed.

(** ** Lifecycle: [clearAllTimers] and [dispose] *)

(** C2, counterexample: with one tick pending, [clearAllTimers] leaves the
    tick sequence non-empty and [getTimerCount] answers 1. *)
Lemma clearAllTimers_keeps_ticks :
  let s := clearAllTimers (_fakeNextTick (UserFn 0) (installed None)) in
  _ticks s <> [] /\ fst (getTimerCount s) <> inr 0.
Proof. vm_compute. split; discriminate. Qed.

Lemma getTimerCount_value (s : FakeTimers) :
  fst (getTimerCount s) =
    inr (Map_size (_timers s) + Z.of_nat (List.length (_immediates s))
         + Z.of_nat (List.length (_ticks s))).
Proof.
  unfold getTimerCount, bind, modify, gets, ret, _checkFakeTimers.
  destruct (same_fn _ _); reflexivity.
Qed.

(** C2, as the code has it: [clearAllTimers] empties the timer map and the
    immediate sequence and leaves the tick sequence, virtual-now and the
    cancelled ticks as they were; [getTimerCount] then answers the number of
    pending ticks. *)
Theorem clearAllTimers_spec (s : FakeTimers) :
  _timers (clearAllTimers s) = [] /\
  _immediates (clearAllTimers s) = [] /\
  _ticks (clearAllTimers s) = _ticks s /\
  _now (clearAllTimers s) = _now s /\
  _cancelledTicks (clearAllTimers s) = _cancelledTicks s /\
  fst (getTimerCount (clearAllTimers s)) = inr (Z.of_nat (List.length (_ticks s))).
Proof.
  repeat split. apply getTimerCount_value.
Qed.

Section Fakes.

Variable TimerRef : Type.
Variable idToRef : Z -> TimerRef.
Variable refToId : TimerRef -> option Z.

Lemma exec_cmd_disposed (c : Cmd TimerRef) (t : FakeTimers) :
  _disposed t = true ->
  _disposed (snd (exec_cmd idToRef refToId c t)) = true /\
  container_sizes_le (snd (exec_cmd idToRef refToId c t)) t.
Proof.
  intros D. unfold container_sizes_le.
  destruct c; simpl;
    unfold _fakeRequestAnimationFrame, _fakeSetTimeout, _fakeSetInterval,
      _fakeSetImmediate, _fakeNextTick; rewrite ?D; simpl; auto.
  - unfold _fakeClearTimer. destruct (refToId timerRef) as [id |]; auto.
    destruct (id =? 0); simpl; auto using Map_delete_length.
  - repeat split; auto. apply filter_length_le.
Qed.

Lemma exec_disposed (cmds : list (Cmd TimerRef)) (t : FakeTimers) :
  _disposed t = true ->
  _disposed (snd (exec idToRef refToId cmds t)) = true /\
  container_sizes_le (snd (exec idToRef refToId cmds t)) t.
Proof.
  revert t. induction cmds as [| c cmds IH]; intros t D.
  - simpl. unfold container_sizes_le. auto.
  - simpl. unfold bind.
    destruct (exec_cmd_disposed c t D) as [D1 L1].
    destruct (exec_cmd idToRef refToId c t) as [[e | []] t1]; simpl in *.
    + auto.
    + destruct (IH t1 D1) as [D2 L2]. split; [assumption |].
      unfold container_sizes_le in *. lia.
Qed.

(** C3, as the code has it: [dispose] sets the flag and clears timers and
    immediates but leaves the ticks, so [getTimerCount] answers the number
    of ticks that were pending; on a disposed scheduler every fake returns a null-ish value and
    leaves the state untouched, and no sequence of calls to the primitives
    makes a container grow. *)
Theorem dispose_spec (s : FakeTimers) :
  _disposed (dispose s) = true /\
  _timers (dispose s) = [] /\
  _immediates (dispose s) = [] /\
  _ticks (dispose s) = _ticks s /\
  fst (getTimerCount (dispose s)) = inr (Z.of_nat (List.length (_ticks s))) /\
  (forall t, _disposed t = true ->
     (forall cb delay, _fakeSetTimeout idToRef cb delay t = (None, t)) /\
     (forall cb delay, _fakeSetInterval idToRef cb delay t = (None, t)) /\
     (forall cb, _fakeSetImmediate cb t = (None, t)) /\
     (forall cb, _fakeNextTick cb t = t) /\
     (forall cmds,
        _disposed (snd (exec idToRef refToId cmds t)) = true /\
        container_sizes_le (snd (exec idToRef refToId cmds t)) t)).
Proof.
  split; [reflexivity |]. split; [reflexivity |]. split; [reflexivity |].
  split; [reflexivity |]. split.
  - apply getTimerCount_value.
  - intros t D.
    unfold _fakeSetTimeout, _fakeSetInterval, _fakeSetImmediate, _fakeNextTick.
    rewrite D. repeat split; auto; apply exec_disposed; assumption.
Qed.

(** ** [_fakeSetTimeout] *)

(** C4, as the code has it: [Number(delay) | 0] is ToInt32 of the delay, a
    signed 32-bit integer.  It is 0 for [undefined], [NaN] and the
    infinities; for a finite delay it is the truncation toward zero wrapped
    around into the signed 32-bit range, hence the truncation itself
    whenever that fits 32 bits.  So a delay whose truncation lies from -2^31
    to -1 stays negative, while -0.5 becomes 0 and -2147483649 becomes
    2147483647.  The timer stored under the fresh id is a timeout with
    expiry [now + coerced delay], and the call returns [idToRef] of that
    id. *)
Theorem fakeSetTimeout_spec (cb : Callback) (delay : JsValue) (s : FakeTimers) :
  _disposed s = false ->
  let d := bitor (Number delay) (JsFinite 0) in
  let id := _uuidCounter s in
  let timer := {| type := "timeout"; callback := cb;
                  expiry := _now s + d; interval := None |} in
  _fakeSetTimeout idToRef cb delay s =
    (Some (idToRef id),
     set_timers (set_uuidCounter s (id + 1)) (Map_set (_timers s) id timer)) /\
  - 2 ^ 31 <= d < 2 ^ 31 /\
  (delay = JsUndefined \/ delay = JsNum JsNaN \/
   (exists b, delay = JsNum (JsInfinity b)) -> d = 0) /\
  (forall q, delay = JsNum (JsFinite q) ->
     - 2 ^ 31 <= truncate q < 2 ^ 31 -> d = truncate q) /\
  (forall q, delay = JsNum (JsFinite q) -> d = wrap32 (truncate q)) /\
  (forall q, delay = JsNum (JsFinite q) ->
     - 2 ^ 31 <= truncate q < 0 -> d < 0) /\
  (delay = JsNum (JsFinite (-1 # 2)) -> d = 0) /\
  (delay = JsNum (JsFinite (-2147483649 # 1)) -> d = 2147483647).
Proof.
  intros D d id timer. subst d id timer.
  split; [| rewrite bitor_zero; conj_split].
  - unfold _fakeSetTimeout. rewrite D. reflexivity.
  - apply ToInt32_range.
  - apply ToInt32_range.
  - intros [-> | [-> | [b ->]]]; reflexivity.
  - intros q -> Hq. simpl. apply wrap32_small. assumption.
  - intros q ->. reflexivity.
  - intros q -> Hq. simpl. rewrite wrap32_small by lia. lia.
  - intros ->. reflexivity.
  - intros ->. reflexivity.
Qed.

(** ** [_fakeClearTimer] *)

(** C9: clearing a ref whose id is not stored leaves the state as it was,
    and a second clear of the same ref changes nothing after the first. *)
Theorem fakeClearTimer_absent (timerRef : TimerRef) (s : FakeTimers) :
  ((forall id, refToId timerRef = Some id -> Map_get (_timers s) id = None) ->
   _fakeClearTimer refToId timerRef s = s) /\
  _fakeClearTimer refToId timerRef (_fakeClearTimer refToId timerRef s) =
    _fakeClearTimer refToId timerRef s.
Proof.
  unfold _fakeClearTimer. destruct (refToId timerRef) as [id |]; [| auto].
  destruct (id =? 0); [auto |]. split.
  - intros H. rewrite Map_delete_absent by auto. apply set_timers_same.
  - simpl. rewrite (Map_delete_absent (Map_delete (_timers s) id) id)
      by apply Map_get_delete_same.
    reflexivity.
Qed.

End Fakes.

(** C4, counterexample: a delay of -5 is coerced to -5, and the timer is
    stored with an expiry five milliseconds before virtual-now. *)
Lemma fakeSetTimeout_negative_delay :
  bitor (Number (ms (-5))) (JsFinite 0) <> 0 /\
  map (fun e => expiry (snd e))
      (_timers (snd (_fakeSetTimeout id_idToRef (UserFn 0) (ms (-5)) (installed None))))
    = [-5].
Proof. vm_compute. split; [discriminate | reflexivity]. Qed.

(** C3, counterexample: a tick registered before [dispose] is still counted
    after it. *)
Lemma dispose_keeps_ticks :
  fst (getTimerCount (dispose (_fakeNextTick (UserFn 0) (installed None)))) <> inr 0.
Proof. vm_compute. discriminate. Qed.

Lemma fakeSetTimeout_spec_witness :
  _fakeSetTimeout id_idToRef (UserFn 0) (ms 100) (installed None) =
    (Some 1,
     set_timers (set_uuidCounter (installed None) 2)
       [(1, {| type := "timeout"; callback := UserFn 0;
               expiry := 100; interval := None |})]).
Proof.
  exact (proj1 (fakeSetTimeout_spec id_idToRef (UserFn 0) (ms 100)
                  (installed None) eq_refl)).
Defined.

Lemma fakeClearTimer_absent_witness :
  _fakeClearTimer id_refToId 7 (installed None) = installed None.
Proof.
  apply (proj1 (fakeClearTimer_absent id_refToId 7 (installed None))).
  intros id H. reflexivity.
Defined.

Lemma dispose_spec_witness :
  _fakeSetTimeout id_idToRef (UserFn 0) (ms 100) (dispose (installed None)) =
    (None, dispose (installed None)).
Proof.
  apply (proj1 (proj2 (proj2 (proj2 (proj2 (proj2
           (dispose_spec id_idToRef id_refToId (installed None))))))
                  (dispose (installed None)) eq_refl)).
Defined.

(** ** The recursion guard of [runAllTicks] *)

Section Drains.

Variable TimerRef : Type.
Variable idToRef : Z -> TimerRef.
Variable refToId : TimerRef -> option Z.
Variable body : nat -> list (Cmd TimerRef).

Lemma hasOwnProperty_false cancelled id :
  ~ In id cancelled -> hasOwnProperty cancelled id = false.
Proof.
  intros H. unfold hasOwnProperty.
  destruct (existsb (Z.eqb id) cancelled) eqn:E; [| reflexivity].
  apply existsb_exists in E. destruct E as [k [Hk Ek]].
  apply Z.eqb_eq in Ek. subst k. contradiction.
Qed.

Lemma one_pending_tick_check c id s :
  one_pending_tick c id s -> one_pending_tick c id (_checkFakeTimers s).
Proof.
  unfold _checkFakeTimers. destruct (same_fn _ _); [auto |].
  destruct s; auto.
Qed.

Lemma ticks_iteration_respawn c id s :
  body c = [NextTick TimerRef c] ->
  one_pending_tick c id s ->
  id < _uuidCounter s ->
  exists s',
    ticks_iteration idToRef refToId body s = (inr Continue, s') /\
    one_pending_tick c (_uuidCounter s) s' /\
    _uuidCounter s' = _uuidCounter s + 1 /\
    _trace s' = _trace s ++ [mkEvent FromTick id c None (_now s)] /\
    _maxLoops s' = _maxLoops s /\
    _timers s' = _timers s /\
    _immediates s' = _immediates s /\
    _now s' = _now s.
Proof.
  intros Hb (Ht & Hd & Hn & Hc) Hid.
  unfold ticks_iteration, bind, shift_ticks. rewrite Ht.
  unfold gets at 1. cbn [uuid tick_callback _cancelledTicks set_ticks].
  rewrite (hasOwnProperty_false _ _ Hn). cbn [negb].
  unfold modify at 1, call. cbn [ev_name event_of]. rewrite Hb.
  cbn [exec exec_cmd bind modify ret]. unfold _fakeNextTick.
  cbn [_disposed set_trace set_cancelledTicks set_ticks]. rewrite Hd.
  eexists. split; [reflexivity |].
  unfold one_pending_tick. state_simpl. repeat split; auto.
  - intros [E | E]; [lia | apply Hc in E; lia].
  - intros k [E | E]; [lia | apply Hc in E; lia].
Qed.

Lemma ticks_loop_respawn c :
  body c = [NextTick TimerRef c] ->
  forall k i id s,
    one_pending_tick c id s ->
    id < _uuidCounter s ->
    exists s' id' evs,
      for_loop k i (ticks_iteration idToRef refToId body) s
        = (inr (i + Z.of_nat k), s') /\
      one_pending_tick c id' s' /\
      id' < _uuidCounter s' /\
      _trace s' = _trace s ++ evs /\
      List.length evs = k /\
      Forall (fun e => ev_name e = c /\ ev_source e = FromTick) evs /\
      _maxLoops s' = _maxLoops s /\
      _timers s' = _timers s /\
      _immediates s' = _immediates s /\
      _now s' = _now s.
Proof.
  intros Hb. induction k as [| k IH]; intros i id s Hp Hid.
  - exists s, id, []. cbn [for_loop ret]. rewrite Z.add_0_r, app_nil_r.
    conj_split; auto.
  - destruct (ticks_iteration_respawn Hb Hp Hid)
      as (s1 & E1 & P1 & U1 & T1 & M1 & Ti1 & I1 & N1).
    destruct (IH (i + 1) (_uuidCounter s) s1 P1 ltac:(lia))
      as (s' & id' & evs & E & P & Hid' & T & L & F & Mx & Ti & Im & N).
    exists s', id', (mkEvent FromTick id c None (_now s) :: evs).
    cbn [for_loop]. unfold bind at 1. rewrite E1, E.
    conj_split; try congruence.
    + do 2 f_equal. lia.
    + rewrite T, T1, <- app_assoc. reflexivity.
    + simpl. lia.
    + constructor; auto.
Qed.

(** C6: when the only pending tick belongs to a function that registers
    itself again, [runAllTicks] with [maxLoops = n] (the scenario has [n = 5])
    invokes [n] callbacks and raises the "ticks" recursion error; the state
    it leaves has one pending tick again, with nothing else disturbed, so
    the same drain can be attempted anew. *)
Theorem runAllTicks_recursion_guard (c : nat) (n : nat) (id : TimerID) (s : FakeTimers) :
  body c = [NextTick TimerRef c] ->
  (0 < n)%nat ->
  _maxLoops s = Z.of_nat n ->
  one_pending_tick c id s ->
  id < _uuidCounter s ->
  exists s' id' evs,
    runAllTicks idToRef refToId body s = (inl (RanTooMany (Z.of_nat n) " ticks"), s') /\
    _trace s' = _trace s ++ evs /\
    List.length evs = n /\
    Forall (fun e => ev_name e = c /\ ev_source e = FromTick) evs /\
    one_pending_tick c id' s' /\
    id' < _uuidCounter s' /\
    _maxLoops s' = Z.of_nat n /\
    _timers s' = _timers s /\
    _immediates s' = _immediates s /\
    _now s' = _now s.
Proof.
  intros Hb Hn Hm Hp Hid.
  assert (Hp0 : one_pending_tick c id (_checkFakeTimers s))
    by (apply one_pending_tick_check; assumption).
  assert (Hid0 : id < _uuidCounter (_checkFakeTimers s)).
  { unfold _checkFakeTimers. destruct (same_fn _ _); destruct s; assumption. }
  destruct (ticks_loop_respawn Hb n 0 Hp0 Hid0)
    as (s' & id' & evs & E & P & Hid' & T & L & F & Mx & Ti & Im & N).
  assert (Hm0 : _maxLoops (_checkFakeTimers s) = Z.of_nat n).
  { unfold _checkFakeTimers. destruct (same_fn _ _); destruct s; assumption. }
  exists s', id', evs.
  unfold runAllTicks, bounded_loop, bind, modify, gets.
  rewrite Hm0, Nat2Z.id, E. cbn [Z.add]. rewrite Z.eqb_refl.
  unfold throw.
  assert (Fr : _trace (_checkFakeTimers s) = _trace s /\
               _timers (_checkFakeTimers s) = _timers s /\
               _immediates (_checkFakeTimers s) = _immediates s /\
               _now (_checkFakeTimers s) = _now s).
  { unfold _checkFakeTimers. destruct (same_fn _ _); destruct s; auto. }
  destruct Fr as (F1 & F2 & F3 & F4).
  conj_split; congruence.
Qed.

End Drains.

(** C6 at the literal input: [maxLoops = 5], one tick whose function
    registers itself again. *)
Lemma runAllTicks_recursion_guard_witness :
  exists s' id' evs,
    runAllTicks id_idToRef id_refToId respawn one_tick_max5
      = (inl (RanTooMany 5 " ticks"), s') /\
    _trace s' = _trace one_tick_max5 ++ evs /\
    List.length evs = 5%nat /\
    Forall (fun e => ev_name e = 0%nat /\ ev_source e = FromTick) evs /\
    one_pending_tick 0 id' s' /\
    id' < _uuidCounter s' /\
    _maxLoops s' = 5 /\
    _timers s' = _timers one_tick_max5 /\
    _immediates s' = _immediates one_tick_max5 /\
    _now s' = _now one_tick_max5.
Proof.
  apply (@runAllTicks_recursion_guard Z id_idToRef id_refToId respawn 0 5 1 one_tick_max5).
  - reflexivity.
  - lia.
  - reflexivity.
  - unfold one_pending_tick. simpl. conj_split; auto. intros k [].
  - reflexivity.
Defined.

(** ** Intervals under [advanceTimersByTime] *)

Lemma Map_get_set_same m k v : Map_get (Map_set m k v) k = Some v.
Proof.
  induction m as [| [k' v'] m IH]; simpl.
  - rewrite Z.eqb_refl. reflexivity.
  - destruct (k' =? k) eqn:E; simpl; rewrite E; auto.
Qed.

(** C5: an interval of 30 registered at virtual-now 0 is invoked at 30, 60
    and 90 by [advanceTimersByTime(100)], which leaves virtual-now at 100
    and one entry with expiry 120; and whenever [_runTimerHandle] fires an
    interval, the callback starts in the state where the entry already
    carries the expiry [now + interval], so the new expiry is in place even
    when the callback throws at once. *)
Theorem interval_reinserted_before_callback :
  (let r := advanceTimersByTime id_idToRef id_refToId inert 100 interval_30 in
   fst r = inr tt /\
   invocations (snd r) = [(7%nat, 30); (7%nat, 60); (7%nat, 90)] /\
   _now (snd r) = 100 /\
   expiries (snd r) = [120]) /\
  (forall (TimerRef : Type) (idToRef : Z -> TimerRef)
          (refToId : TimerRef -> option Z) (body : nat -> list (Cmd TimerRef))
          (h : TimerID) (timer : Timer) (s : FakeTimers),
     Map_get (_timers s) h = Some timer ->
     type timer = "interval" ->
     let timer' := mkTimer "interval" (callback timer)
                     (_now s + or_zero (interval timer)) (interval timer) in
     let s1 := set_timers s (Map_set (_timers s) h timer') in
     _runTimerHandle idToRef refToId body h s
       = call idToRef refToId body (FromTimer (expiry timer)) h (callback timer) s1 /\
     Map_get (_timers s1) h = Some timer' /\
     (forall n e rest,
        callback timer = UserFn n ->
        body n = Throw TimerRef e :: rest ->
        exists s2,
          _runTimerHandle idToRef refToId body h s = (inl (Thrown e), s2) /\
          Map_get (_timers s2) h = Some timer')).
Proof.
  split.
  - vm_compute. auto.
  - intros TimerRef idToRef refToId body h timer s Hg Ht timer' s1.
    assert (E : _runTimerHandle idToRef refToId body h s
                = call idToRef refToId body (FromTimer (expiry timer)) h (callback timer) s1).
    { unfold _runTimerHandle, bind, gets. rewrite Hg, Ht. reflexivity. }
    conj_split.
    + exact E.
    + apply Map_get_set_same.
    + intros n e rest Hc Hb. rewrite E. unfold call. rewrite Hc.
      cbn [ev_name event_of]. rewrite Hb. cbn [exec exec_cmd bind throw].
      eexists. split; [reflexivity |]. apply Map_get_set_same.
Qed.

Lemma interval_reinserted_before_callback_witness :
  Map_get
    (_timers (snd (_runTimerHandle id_idToRef id_refToId inert 1 interval_30))) 1
  = Some (mkTimer "interval" (UserFn 7) 30 (Some 30)).
Proof.
  pose proof (proj2 interval_reinserted_before_callback Z id_idToRef id_refToId
                inert 1 (mkTimer "interval" (UserFn 7) 30 (Some 30)) interval_30
                eq_refl eq_refl) as H.
  cbv zeta in H. destruct H as [E [G _]].
  rewrite E. exact G.
Defined.

(** ** [runWithRealTimers] *)

(** X22: what [runWithRealTimers] guarantees for any [cb], also one that
    throws or assigns the globals itself: the outcome of [cb] is passed on,
    seven of the nine globals are put back as they were before the call,
    the two animation-frame globals stay as [cb] left them, and the clock is
    touched by [cb] only. *)
Lemma runWithRealTimers_restores_seven (cb : M unit) (s : FakeTimers) :
  let mid := cb (useRealTimers s) in
  let after := runWithRealTimers cb s in
  fst after = match fst mid with inl e => inl e | inr _ => inr tt end /\
  clearImmediate (_global (snd after)) = clearImmediate (_global s) /\
  clearInterval (_global (snd after)) = clearInterval (_global s) /\
  clearTimeout (_global (snd after)) = clearTimeout (_global s) /\
  nextTick (_global (snd after)) = nextTick (_global s) /\
  setImmediate (_global (snd after)) = setImmediate (_global s) /\
  setInterval (_global (snd after)) = setInterval (_global s) /\
  setTimeout (_global (snd after)) = setTimeout (_global s) /\
  requestAnimationFrame (_global (snd after)) = requestAnimationFrame (_global (snd mid)) /\
  cancelAnimationFrame (_global (snd after)) = cancelAnimationFrame (_global (snd mid)) /\
  _now (snd after) = _now (snd mid).
Proof.
  cbv zeta. unfold runWithRealTimers, bind, gets, modify.
  destruct (cb (useRealTimers s)) as [[e | []] s']; simpl; conj_split; reflexivity.
Qed.

(** C7, the code at the failing input: with the fakes installed on a host
    that has the animation-frame primitives, [runWithRealTimers] of a
    callback that does nothing restores [setTimeout] but leaves the host's
    original [requestAnimationFrame] and [cancelAnimationFrame] installed in
    place of the fakes that were there before the call. *)
Theorem runWithRealTimers_loses_animation_frame :
  let s := installed None in
  let s' := snd (runWithRealTimers (ret tt) s) in
  setTimeout (_global s') = setTimeout (_global s) /\
  requestAnimationFrame (_global s) = Some (MockFn 0 "requestAnimationFrame") /\
  requestAnimationFrame (_global s') = Some (HostFn 5) /\
  cancelAnimationFrame (_global s) = Some (MockFn 0 "cancelAnimationFrame") /\
  cancelAnimationFrame (_global s') = Some (HostFn 0) /\
  _global s' <> _global s.
Proof. vm_compute. conj_split; try reflexivity. discriminate. Qed.

(** ** The next-timer search *)

Lemma getNextTimerHandle_fold s :
  _getNextTimerHandle s = fst (fold_left next_step (_timers s) (None, MS_IN_A_YEAR)).
Proof. reflexivity. Qed.

Lemma next_fold_spec (m : list (TimerID * Timer)) :
  forall h0 m0,
    (fold_left next_step m (h0, m0) = (h0, m0) /\
     Forall (fun e => m0 <= expiry (snd e)) m) \/
    (exists before h t after,
       fold_left next_step m (h0, m0) = (Some h, expiry t) /\
       m = before ++ (h, t) :: after /\
       expiry t < m0 /\
       Forall (fun e => expiry t < expiry (snd e)) before /\
       Forall (fun e => expiry t <= expiry (snd e)) after).
Proof.
  induction m as [| [k v] m IH]; intros h0 m0.
  - left. split; [reflexivity | constructor].
  - cbn [fold_left next_step snd fst].
    destruct (Z.ltb_spec (expiry v) m0) as [Hlt | Hge].
    + right. destruct (IH (Some k) (expiry v)) as [[E F] | (b & h & t & a & E & -> & Hl & Fb & Fa)].
      * exists [], k, v, m. rewrite E. conj_split; auto.
      * exists ((k, v) :: b), h, t, a. rewrite E. conj_split; auto; try lia.
    + destruct (IH h0 m0) as [[E F] | (b & h & t & a & E & -> & Hl & Fb & Fa)].
      * left. split; [assumption |]. constructor; auto.
      * right. exists ((k, v) :: b), h, t, a. conj_split; auto.
        constructor; [simpl; lia | assumption].
Qed.

Lemma getNextTimerHandle_some s h :
  _getNextTimerHandle s = Some h -> exists t, earliest_in (_timers s) h t.
Proof.
  rewrite getNextTimerHandle_fold.
  destruct (next_fold_spec (_timers s) None MS_IN_A_YEAR)
    as [[E F] | (b & k & t & a & E & Hm & Hl & Fb & Fa)]; rewrite E; simpl.
  - discriminate.
  - intros [= ->]. exists t, b, a. auto.
Qed.

Lemma getNextTimerHandle_none s :
  _getNextTimerHandle s = None ->
  Forall (fun e => MS_IN_A_YEAR <= expiry (snd e)) (_timers s).
Proof.
  rewrite getNextTimerHandle_fold.
  destruct (next_fold_spec (_timers s) None MS_IN_A_YEAR)
    as [[E F] | (b & k & t & a & E & Hm & Hl & Fb & Fa)]; rewrite E; simpl.
  - auto.
  - discriminate.
Qed.

Lemma getNextTimerHandle_earliest s h t :
  earliest_in (_timers s) h t -> _getNextTimerHandle s = Some h.
Proof.
  intros (b & a & Hm & Hy & Fb & Fa).
  rewrite getNextTimerHandle_fold.
  destruct (next_fold_spec (_timers s) None MS_IN_A_YEAR)
    as [[E F] | (b' & k & t' & a' & E & Hm' & Hl & Fb' & Fa')]; rewrite E; simpl.
  - rewrite Hm in F. apply Forall_app in F. destruct F as [_ F].
    inversion F; subst. simpl in *. lia.
  - f_equal. rewrite Hm in Hm'. clear E Hm.
    revert b' Hm' Fb'. induction b as [| x b IHb]; intros b' Hm' Fb'.
    + destruct b' as [| y b']; simpl in Hm'.
      * congruence.
      * injection Hm' as <- Ha. subst a.
        apply Forall_app in Fa. destruct Fa as [_ Fa].
        inversion Fa; inversion Fb'; subst. simpl in *. lia.
    + destruct b' as [| y b']; simpl in Hm'.
      * injection Hm' as -> Hb. subst a'.
        apply Forall_app in Fa'. destruct Fa' as [_ Fa'].
        inversion Fa'; inversion Fb; subst. simpl in *. lia.
      * injection Hm' as -> Hb. inversion Fb; inversion Fb'; subst.
        eapply IHb; eauto.
Qed.

(** ** The stable sort of [runOnlyPendingTimers] *)

Lemma insert_entry_perm e l : Permutation (insert_entry e l) (e :: l).
Proof.
  induction l as [| x l IH]; simpl; [reflexivity |].
  destruct (expiry (snd e) <=? expiry (snd x)); [reflexivity |].
  rewrite IH. apply perm_swap.
Qed.

Lemma sort_entries_perm l : Permutation (sort_entries l) l.
Proof.
  induction l as [| e l IH]; simpl; [reflexivity |].
  rewrite insert_entry_perm. constructor. assumption.
Qed.

Lemma insert_entry_sorted e l :
  StronglySorted by_expiry l -> StronglySorted by_expiry (insert_entry e l).
Proof.
  induction l as [| x l IH]; simpl; intros S.
  - repeat constructor.
  - inversion S as [| ? ? Sl Fx]; subst.
    destruct (Z.leb_spec (expiry (snd e)) (expiry (snd x))) as [Hle | Hgt].
    + constructor; [assumption |]. constructor; [exact Hle |].
      eapply Forall_impl; [| exact Fx]. unfold by_expiry. intros; lia.
    + constructor; [auto |].
      eapply Permutation_Forall; [symmetry; apply insert_entry_perm |].
      constructor; [unfold by_expiry; lia | assumption].
Qed.

Lemma sort_entries_sorted l : StronglySorted by_expiry (sort_entries l).
Proof.
  induction l as [| e l IH]; simpl; [constructor | apply insert_entry_sorted, IH].
Qed.

Lemma insert_entry_filter x e l :
  filter (fun e => expiry (snd e) =? x) (insert_entry e l)
  = filter (fun e => expiry (snd e) =? x) (e :: l).
Proof.
  induction l as [| y l IH]; [reflexivity |].
  cbn [insert_entry].
  destruct (Z.leb_spec (expiry (snd e)) (expiry (snd y))) as [Hle | Hgt];
    [reflexivity |].
  cbn [filter] in *. rewrite IH.
  destruct (Z.eqb_spec (expiry (snd y)) x), (Z.eqb_spec (expiry (snd e)) x);
    try reflexivity; lia.
Qed.

(** Stability: entries of equal expiry keep their insertion order. *)
Lemma sort_entries_stable x l :
  filter (fun e => expiry (snd e) =? x) (sort_entries l)
  = filter (fun e => expiry (snd e) =? x) l.
Proof.
  induction l as [| e l IH]; [reflexivity |].
  cbn [sort_entries]. rewrite insert_entry_filter.
  cbn [filter]. rewrite IH. reflexivity.
Qed.

(** ** Invariants kept by computations *)

(** Turns a goal about the state left by [m] at [s] into [preserves]. *)
Ltac by_preserves s H :=
  match goal with
  | |- ?J (snd (?m s)) =>
      apply (fun Hp : preserves J m => Hp s H); try (clear H; try clear s)
  end.

Lemma preserves_ret {A} (I : FakeTimers -> Prop) (a : A) : preserves I (ret a).
Proof. intros s H. exact H. Qed.

Lemma preserves_throw {A} (I : FakeTimers -> Prop) (e : Exn) :
  preserves I (@throw A e).
Proof. intros s H. exact H. Qed.

Lemma preserves_gets {A} (I : FakeTimers -> Prop) (f : FakeTimers -> A) :
  preserves I (gets f).
Proof. intros s H. exact H. Qed.

Lemma preserves_modify (I : FakeTimers -> Prop) (f : FakeTimers -> FakeTimers) :
  (forall s, I s -> I (f s)) -> preserves I (modify f).
Proof. intros Hf s H. apply Hf, H. Qed.

Lemma preserves_bind {A B} (I : FakeTimers -> Prop) (m : M A) (k : A -> M B) :
  preserves I m -> (forall a, preserves I (k a)) -> preserves I (bind m k).
Proof.
  intros Hm Hk s H. unfold bind.
  specialize (Hm s H). destruct (m s) as [[e | a] s']; simpl in *.
  - exact Hm.
  - apply Hk, Hm.
Qed.

(** After a read, the continuation may rely on the state that was read. *)
Lemma preserves_gets_bind {A B} (I : FakeTimers -> Prop)
    (f : FakeTimers -> A) (k : A -> M B) :
  (forall s, I s -> I (snd (k (f s) s))) -> preserves I (bind (gets f) k).
Proof. intros Hk s H. unfold bind, gets. apply Hk, H. Qed.

Lemma preserves_try_finally {A} (I : FakeTimers -> Prop) (m : M A) cleanup :
  preserves I m -> (forall s, I s -> I (cleanup s)) ->
  preserves I (try_finally m cleanup).
Proof.
  intros Hm Hc s H. unfold try_finally.
  specialize (Hm s H). destruct (m s) as [r s']. simpl in *. apply Hc, Hm.
Qed.

Lemma preserves_for_loop (I : FakeTimers -> Prop) (step : M LoopCtl) :
  preserves I step -> forall fuel i, preserves I (for_loop fuel i step).
Proof.
  intros Hs. induction fuel as [| fuel IH]; intros i; cbn [for_loop].
  - apply preserves_ret.
  - apply preserves_bind; [exact Hs |].
    intros [|]; [apply preserves_ret | apply IH].
Qed.

Lemma preserves_bounded_loop (I : FakeTimers -> Prop) what (step : M LoopCtl) :
  preserves I step -> preserves I (bounded_loop what step).
Proof.
  intros Hs. unfold bounded_loop.
  apply preserves_bind; [apply preserves_gets |]. intros maxLoops.
  apply preserves_bind; [apply preserves_for_loop, Hs |]. intros i.
  destruct (i =? maxLoops); [apply preserves_throw | apply preserves_ret].
Qed.

Lemma preserves_forEach {A} (I : FakeTimers -> Prop) (l : list A) (f : A -> M unit) :
  (forall x, In x l -> preserves I (f x)) -> preserves I (forEach l f).
Proof.
  induction l as [| x l IH]; intros Hf; cbn [forEach].
  - apply preserves_ret.
  - apply preserves_bind; [apply Hf; left; reflexivity |].
    intros _. apply IH. intros y Hy. apply Hf. right. exact Hy.
Qed.

Lemma Forall_Map_set (Q : TimerID * Timer -> Prop) m k v :
  Forall Q m -> Q (k, v) -> Forall Q (Map_set m k v).
Proof.
  intros Hm Hq. induction m as [| [k' v'] m IH]; simpl.
  - repeat constructor. exact Hq.
  - inversion Hm; subst. destruct (Z.eqb_spec k' k) as [-> | Hne].
    + constructor; assumption.
    + constructor; auto.
Qed.

Lemma Forall_Map_delete (Q : TimerID * Timer -> Prop) m k :
  Forall Q m -> Forall Q (Map_delete m k).
Proof.
  intros Hm. unfold Map_delete. apply Forall_forall. intros e He.
  apply filter_In in He. destruct He as [He _].
  revert e He. apply Forall_forall. exact Hm.
Qed.

Lemma count_fired_app h tr ev :
  count_fired h (tr ++ [ev])
  = (count_fired h tr + if is_timer_event ev && (ev_uuid ev =? h)%Z then 1 else 0)%nat.
Proof.
  unfold count_fired. rewrite filter_app, length_app. cbn [filter].
  destruct (is_timer_event ev && (ev_uuid ev =? h)); reflexivity.
Qed.

Lemma event_of_source src id f now : ev_source (event_of src id f now) = src.
Proof. destruct f; reflexivity. Qed.

Lemma event_of_uuid src id f now : ev_uuid (event_of src id f now) = id.
Proof. destruct f; reflexivity. Qed.

(** ** Timers a year or more away *)

Section Dormant.

Variable TimerRef : Type.
Variable idToRef : Z -> TimerRef.
Variable refToId : TimerRef -> option Z.
Variable body : nat -> list (Cmd TimerRef).

Variable h : TimerID.
Variable t0 : Timer.
Variable n0 : nat.
Hypothesis far : MS_IN_A_YEAR <= expiry t0.

Local Abbreviation I := (dormant h t0 n0).

(** [dormant] reads the timer map, the counter and the trace only. *)
Lemma dormant_ext s s' :
  _timers s' = _timers s -> _uuidCounter s' = _uuidCounter s ->
  _trace s' = _trace s -> I s -> I s'.
Proof. unfold dormant. intros -> -> ->. auto. Qed.

Lemma dormant_check s : I s -> I (_checkFakeTimers s).
Proof.
  unfold _checkFakeTimers. destruct (same_fn _ _); [auto |].
  apply dormant_ext; reflexivity.
Qed.

Lemma dormant_fresh v s s' :
  I s ->
  _timers s' = Map_set (_timers s) (_uuidCounter s) v ->
  _trace s' = _trace s ->
  _uuidCounter s' = _uuidCounter s + 1 -> I s'.
Proof.
  intros (Hc & Hf & Ht) E1 E2 E3. unfold dormant. rewrite E1, E2, E3.
  conj_split; [lia | | assumption].
  apply Forall_Map_set; [assumption |]. simpl. lia.
Qed.

Lemma dormant_set k v s :
  k <> h -> I s -> I (set_timers s (Map_set (_timers s) k v)).
Proof.
  intros Hk (Hc & Hf & Ht). unfold dormant. state_simpl.
  conj_split; [assumption | | assumption].
  apply Forall_Map_set; [assumption |]. simpl. congruence.
Qed.

Lemma dormant_delete k s : I s -> I (set_timers s (Map_delete (_timers s) k)).
Proof.
  intros (Hc & Hf & Ht). unfold dormant. state_simpl.
  conj_split; auto using Forall_Map_delete.
Qed.

Lemma dormant_mint s :
  I s -> forall s', _timers s' = _timers s -> _trace s' = _trace s ->
  _uuidCounter s' = _uuidCounter s + 1 -> I s'.
Proof.
  intros (Hc & Hf & Ht) s' E1 E2 E3. unfold dormant.
  rewrite E1, E2, E3. conj_split; auto; lia.
Qed.

Lemma dormant_exec_cmd c : preserves I (exec_cmd idToRef refToId c).
Proof.
  intros s H. destruct c; cbn [exec_cmd modify throw snd];
    unfold _fakeRequestAnimationFrame, _fakeSetTimeout, _fakeSetInterval,
      _fakeSetImmediate, _fakeNextTick, _fakeClearTimer, _fakeClearImmediate.
  - destruct (_disposed s); [exact H | eapply dormant_fresh; eauto; reflexivity].
  - destruct (_disposed s); [exact H | eapply dormant_fresh; eauto; reflexivity].
  - destruct (_disposed s); [exact H | eapply dormant_mint; eauto].
  - destruct (_disposed s); [exact H | eapply dormant_mint; eauto].
  - destruct (_disposed s); [exact H | eapply dormant_fresh; eauto; reflexivity].
  - destruct (refToId timerRef) as [id |]; [| exact H].
    destruct (id =? 0); [exact H | apply dormant_delete, H].
  - eapply dormant_ext; eauto.
  - exact H.
Qed.

Lemma dormant_exec cmds : preserves I (exec idToRef refToId cmds).
Proof.
  induction cmds as [| c cmds IH]; cbn [exec].
  - apply preserves_ret.
  - apply preserves_bind; [apply dormant_exec_cmd | intros _; exact IH].
Qed.

Lemma dormant_call src id f :
  (forall x, src = FromTimer x -> id <> h) ->
  preserves I (call idToRef refToId body src id f).
Proof.
  intros Hid s H. unfold call. apply dormant_exec.
  destruct H as (Hc & Hf & Ht). unfold dormant. state_simpl.
  conj_split; auto.
  rewrite count_fired_app. unfold is_timer_event.
  rewrite event_of_source, event_of_uuid.
  destruct src; simpl; try lia.
  destruct (Z.eqb_spec id h); [exfalso; eapply Hid; eauto | lia].
Qed.

Lemma dormant_ticks_iteration :
  preserves I (ticks_iteration idToRef refToId body).
Proof.
  intros s H. unfold ticks_iteration, bind at 1, shift_ticks.
  destruct (_ticks s) as [| tick rest]; [exact H |].
  assert (H1 : I (set_ticks s rest)) by (eapply dormant_ext; eauto).
  revert H1. generalize (set_ticks s rest). clear s H. intros s H.
  by_preserves s H.
  apply preserves_bind; [apply preserves_gets |]. intros cancelled.
  apply preserves_bind; [| intros; apply preserves_ret].
  destruct (negb _); [| apply preserves_ret].
  apply preserves_bind.
  - apply preserves_modify. intros s H. eapply dormant_ext; eauto.
  - intros _. apply dormant_call. intros x. discriminate.
Qed.

Lemma dormant_runAllTicks : preserves I (runAllTicks idToRef refToId body).
Proof.
  unfold runAllTicks. apply preserves_bind.
  - apply preserves_modify, dormant_check.
  - intros _. apply preserves_bounded_loop, dormant_ticks_iteration.
Qed.

Lemma dormant_runImmediate imm :
  preserves I (_runImmediate idToRef refToId body imm).
Proof.
  unfold _runImmediate. apply preserves_try_finally.
  - apply dormant_call. intros x. discriminate.
  - intros s H. eapply dormant_ext; eauto.
Qed.

Lemma dormant_immediates_iteration :
  preserves I (immediates_iteration idToRef refToId body).
Proof.
  intros s H. unfold immediates_iteration, bind at 1, shift_immediates.
  destruct (_immediates s) as [| imm rest]; [exact H |].
  assert (H1 : I (set_immediates s rest)) by (eapply dormant_ext; eauto).
  revert H1. generalize (set_immediates s rest). clear s H. intros s H.
  by_preserves s H.
  apply preserves_bind; [apply dormant_runImmediate |].
  intros; apply preserves_ret.
Qed.

Lemma dormant_runAllImmediates :
  preserves I (runAllImmediates idToRef refToId body).
Proof.
  unfold runAllImmediates. apply preserves_bind.
  - apply preserves_modify, dormant_check.
  - intros _. apply preserves_bounded_loop, dormant_immediates_iteration.
Qed.

Lemma dormant_runTimerHandle h' :
  h' <> h -> preserves I (_runTimerHandle idToRef refToId body h').
Proof.
  intros Hne. unfold _runTimerHandle.
  apply preserves_bind; [apply preserves_gets |]. intros [timer |];
    [| apply preserves_ret].
  destruct (String.eqb (type timer) "timeout").
  - apply preserves_bind.
    + apply preserves_modify. intros s. apply dormant_delete.
    + intros _. apply dormant_call. auto.
  - destruct (String.eqb (type timer) "interval"); [| apply preserves_throw].
    apply preserves_bind.
    + apply preserves_modify. intros s H. apply dormant_set; assumption.
    + intros _. apply dormant_call. auto.
Qed.

(** The search never answers [h]. *)
Lemma dormant_not_next s h' :
  I s -> _getNextTimerHandle s = Some h' -> h' <> h.
Proof.
  intros (_ & Hf & _) Hn ->.
  apply getNextTimerHandle_some in Hn.
  destruct Hn as (t & b & a & Hm & Hy & _).
  rewrite Forall_forall in Hf.
  assert (E : snd (h, t) = t0) by (apply Hf; [rewrite Hm; apply in_elt | reflexivity]).
  simpl in E. subst t. lia.
Qed.

Lemma dormant_timers_iteration :
  preserves I (timers_iteration idToRef refToId body).
Proof.
  unfold timers_iteration. apply preserves_gets_bind. intros s H.
  destruct (_getNextTimerHandle s) as [h' |] eqn:E; [| exact H].
  assert (Hne : h' <> h) by (eapply dormant_not_next; eauto).
  by_preserves s H.
  apply preserves_bind; [apply dormant_runTimerHandle, Hne |]. intros _.
  apply preserves_bind; [apply preserves_gets |]. intros immediates.
  apply preserves_bind.
  { destruct (negb _); [apply dormant_runAllImmediates | apply preserves_ret]. }
  intros _. apply preserves_bind; [apply preserves_gets |]. intros ticks.
  apply preserves_bind.
  { destruct (negb _); [apply dormant_runAllTicks | apply preserves_ret]. }
  intros _. apply preserves_ret.
Qed.

Lemma dormant_runAllTimers : preserves I (runAllTimers idToRef refToId body).
Proof.
  unfold runAllTimers.
  apply preserves_bind; [apply preserves_modify, dormant_check |]. intros _.
  apply preserves_bind; [apply dormant_runAllTicks |]. intros _.
  apply preserves_bind; [apply dormant_runAllImmediates |]. intros _.
  apply preserves_bounded_loop, dormant_timers_iteration.
Qed.

Lemma dormant_advance_loop fuel :
  forall i msToRun, preserves I (advance_loop idToRef refToId body fuel i msToRun).
Proof.
  induction fuel as [| fuel IH]; intros i msToRun; cbn [advance_loop].
  - apply preserves_ret.
  - apply preserves_gets_bind. intros s H.
    destruct (_getNextTimerHandle s) as [h' |] eqn:E; [| exact H].
    assert (Hne : h' <> h) by (eapply dormant_not_next; eauto).
    by_preserves s H.
    apply preserves_bind; [apply preserves_gets |]. intros [timerValue |];
      [| apply preserves_ret].
    apply preserves_bind; [apply preserves_gets |]. intros now.
    destruct (now + msToRun <? expiry timerValue).
    + apply preserves_bind; [| intros; apply preserves_ret].
      apply preserves_modify. intros s1 H1. eapply dormant_ext; eauto.
    + apply preserves_bind.
      { apply preserves_modify. intros s1 H1. eapply dormant_ext; eauto. }
      intros _. apply preserves_bind; [apply dormant_runTimerHandle, Hne |].
      intros _. apply IH.
Qed.

Lemma dormant_advanceTimersByTime msToRun :
  preserves I (advanceTimersByTime idToRef refToId body msToRun).
Proof.
  unfold advanceTimersByTime.
  apply preserves_bind; [apply preserves_modify, dormant_check |]. intros _.
  apply preserves_bind; [apply preserves_gets |]. intros maxLoops.
  apply preserves_bind; [apply dormant_advance_loop |]. intros i.
  destruct (i =? maxLoops); [apply preserves_throw | apply preserves_ret].
Qed.

Lemma dormant_advance_steps steps :
  preserves I (advance_steps idToRef refToId body steps).
Proof.
  induction steps as [| steps IH]; cbn [advance_steps].
  - apply preserves_ret.
  - apply preserves_bind; [apply preserves_gets |]. intros [next |];
      [| apply preserves_ret].
    apply preserves_bind; [apply preserves_gets |]. intros now.
    apply preserves_bind; [apply dormant_advanceTimersByTime |].
    intros _. exact IH.
Qed.

End Dormant.

Lemma NoDup_keys_unique (m : list (TimerID * Timer)) k v v' :
  NoDup (map fst m) -> In (k, v) m -> In (k, v') m -> v = v'.
Proof.
  induction m as [| [k1 v1] m IH]; simpl; intros ND H1 H2; [contradiction |].
  inversion ND as [| ? ? Hn ND']; subst.
  destruct H1 as [H1 | H1]; destruct H2 as [H2 | H2].
  - congruence.
  - inversion H1; subst. exfalso. apply Hn.
    apply (in_map fst) in H2. exact H2.
  - inversion H2; subst. exfalso. apply Hn.
    apply (in_map fst) in H1. exact H1.
  - auto.
Qed.

Lemma dormant_start h t0 s :
  In (h, t0) (_timers s) -> NoDup (map fst (_timers s)) -> keys_below s ->
  dormant h t0 (count_fired h (_trace s)) s.
Proof.
  intros Hin ND KB. unfold dormant. conj_split; [| | reflexivity].
  - unfold keys_below in KB. rewrite Forall_forall in KB.
    apply (KB (h, t0) Hin).
  - apply Forall_forall. intros [k v] He Hk. simpl in *. subst k.
    eapply NoDup_keys_unique; eauto.
Qed.

Lemma dormant_finish h t0 n s s' :
  n = count_fired h (_trace s) -> dormant h t0 n s' -> not_fired_between h t0 s s'.
Proof.
  intros -> (_ & Hf & Ht). split; [exact Ht |].
  induction (_timers s') as [| [k v] m IH]; simpl; [auto |].
  inversion Hf; subst. destruct (Z.eqb_spec k h) as [E | E]; [| auto].
  left. f_equal. auto.
Qed.

Lemma Map_delete_present_length (m : list (TimerID * Timer)) h t :
  NoDup (map fst m) -> In (h, t) m ->
  List.length m = S (List.length (Map_delete m h)).
Proof.
  induction m as [| [k v] m IH]; intros ND Hin; [contradiction |].
  inversion ND as [| ? ? Hn ND']; subst.
  unfold Map_delete. cbn [filter fst]. fold (Map_delete m h).
  destruct Hin as [Hin | Hin].
  - inversion Hin; subst. rewrite Z.eqb_refl. cbn [negb List.length].
    rewrite Map_delete_absent; [reflexivity |].
    clear - Hn. induction m as [| [k v] m IH]; simpl in *; [reflexivity |].
    destruct (Z.eqb_spec k h); [exfalso; auto | auto].
  - destruct (Z.eqb_spec k h) as [-> | Hne].
    + exfalso. apply Hn. apply (in_map fst) in Hin. exact Hin.
    + cbn [negb List.length]. f_equal. apply IH; assumption.
Qed.

Section FarTimers.

Variable TimerRef : Type.
Variable idToRef : Z -> TimerRef.
Variable refToId : TimerRef -> option Z.
Variable body : nat -> list (Cmd TimerRef).

(** C10: a stored timer whose expiry is a year or more away is never the
    answer of the next-timer search; whatever the callbacks do,
    [runAllTimers], [advanceTimersByTime] and [advanceTimersToNextTimer]
    end without having fired it, with the timer still stored unchanged
    unless a callback cleared it; and [getTimerCount] counts it. *)
Theorem far_timer_never_fires (h : TimerID) (t0 : Timer) (s : FakeTimers) :
  MS_IN_A_YEAR <= expiry t0 ->
  In (h, t0) (_timers s) ->
  NoDup (map fst (_timers s)) ->
  keys_below s ->
  _getNextTimerHandle s <> Some h /\
  not_fired_between h t0 s (snd (runAllTimers idToRef refToId body s)) /\
  (forall msToRun,
     not_fired_between h t0 s
       (snd (advanceTimersByTime idToRef refToId body msToRun s))) /\
  (forall steps,
     not_fired_between h t0 s
       (snd (advanceTimersToNextTimer idToRef refToId body steps s))) /\
  fst (getTimerCount s)
  = inr (1 + (Map_size (Map_delete (_timers s) h)
              + Z.of_nat (List.length (_immediates s))
              + Z.of_nat (List.length (_ticks s)))).
Proof.
  intros far Hin ND KB.
  pose proof (@dormant_start h t0 s Hin ND KB) as D.
  conj_split.
  - intros E. eapply dormant_not_next; eauto.
  - eapply dormant_finish; [reflexivity |].
    apply dormant_runAllTimers; assumption.
  - intros msToRun. eapply dormant_finish; [reflexivity |].
    apply dormant_advanceTimersByTime; assumption.
  - intros steps. eapply dormant_finish; [reflexivity |].
    apply dormant_advance_steps; assumption.
  - rewrite getTimerCount_value.
    unfold Map_size.
    rewrite (@Map_delete_present_length (_timers s) h t0 ND Hin).
    rewrite Nat2Z.inj_succ. f_equal. unfold TimerID. lia.
Qed.

End FarTimers.

Lemma far_timer_never_fires_witness :
  not_fired_between 1 (mkTimer "interval" (UserFn 7) 40000000000 (Some 40000000000))
    far_interval
    (snd (runAllTimers id_idToRef id_refToId inert far_interval)).
Proof.
  refine (proj1 (proj2 (@far_timer_never_fires Z id_idToRef id_refToId inert 1
           (mkTimer "interval" (UserFn 7) 40000000000 (Some 40000000000))
           far_interval _ _ _ _))).
  - vm_compute. discriminate.
  - vm_compute. left. reflexivity.
  - vm_compute. repeat constructor; simpl; intuition discriminate.
  - vm_compute. repeat constructor.
Defined.

(** ** [runOnlyPendingTimers] *)

Lemma Map_get_set_other m k v k' :
  k <> k' -> Map_get (Map_set m k v) k' = Map_get m k'.
Proof.
  intros Hne. induction m as [| [k1 v1] m IH]; simpl.
  - destruct (Z.eqb_spec k k'); [contradiction | reflexivity].
  - destruct (Z.eqb_spec k1 k) as [-> | H1]; simpl.
    + destruct (Z.eqb_spec k k'); [contradiction | reflexivity].
    + destruct (k1 =? k'); auto.
Qed.

Lemma Map_get_delete_other m k k' :
  k <> k' -> Map_get (Map_delete m k) k' = Map_get m k'.
Proof.
  intros Hne. induction m as [| [k1 v1] m IH]; simpl; [reflexivity |].
  destruct (Z.eqb_spec k1 k) as [-> | H1]; simpl.
  - destruct (Z.eqb_spec k k'); [contradiction | exact IH].
  - destruct (k1 =? k'); auto.
Qed.

Lemma Map_get_In m k v : Map_get m k = Some v -> In (k, v) m.
Proof.
  induction m as [| [k1 v1] m IH]; simpl; [discriminate |].
  destruct (Z.eqb_spec k1 k) as [-> | H1].
  - intros [= ->]. left. reflexivity.
  - intros H. right. auto.
Qed.

Lemma In_Map_get m k v :
  NoDup (map fst m) -> In (k, v) m -> Map_get m k = Some v.
Proof.
  intros ND Hin. destruct (Map_get m k) as [v' |] eqn:E.
  - apply Map_get_In in E. f_equal. eapply NoDup_keys_unique; eauto.
  - exfalso. induction m as [| [k1 v1] m IH]; simpl in *; [contradiction |].
    inversion ND; subst.
    destruct (Z.eqb_spec k1 k) as [-> | Hk]; [discriminate |].
    destruct Hin as [Hin | Hin]; [inversion Hin; congruence | auto].
Qed.

Lemma extends_refl s : extends [] s s.
Proof. unfold extends. rewrite app_nil_r. conj_split; auto; lia. Qed.

Lemma extends_trans e1 e2 s s1 s2 :
  extends e1 s s1 -> extends e2 s1 s2 -> extends (e1 ++ e2) s s2.
Proof.
  intros (T1 & N1 & C1 & K1 & G1) (T2 & N2 & C2 & K2 & G2).
  unfold extends. conj_split.
  - rewrite T2, T1, app_assoc. reflexivity.
  - congruence.
  - lia.
  - auto.
  - intros k Hk. rewrite G2 by lia. apply G1, Hk.
Qed.

Lemma extends_same s s' :
  _trace s' = _trace s -> _now s' = _now s ->
  _uuidCounter s' = _uuidCounter s -> _timers s' = _timers s ->
  extends [] s s'.
Proof.
  intros T N C M. unfold extends, keys_below.
  rewrite T, N, C, M, app_nil_r. conj_split; auto; lia.
Qed.

Lemma extends_mint s s' :
  _trace s' = _trace s -> _now s' = _now s ->
  _uuidCounter s' = _uuidCounter s + 1 -> _timers s' = _timers s ->
  extends [] s s'.
Proof.
  intros T N C M. unfold extends, keys_below.
  rewrite T, N, C, M, app_nil_r. conj_split; auto; try lia.
  intros KB. eapply Forall_impl; [| exact KB]. simpl. intros; lia.
Qed.

Lemma extends_insert v s s' :
  _trace s' = _trace s -> _now s' = _now s ->
  _uuidCounter s' = _uuidCounter s + 1 ->
  _timers s' = Map_set (_timers s) (_uuidCounter s) v ->
  extends [] s s'.
Proof.
  intros T N C M. unfold extends, keys_below.
  rewrite T, N, C, M, app_nil_r. conj_split; auto; try lia.
  - intros KB. apply Forall_Map_set; [| simpl; lia].
    eapply Forall_impl; [| exact KB]. simpl. intros; lia.
  - intros k Hk. apply Map_get_set_other. lia.
Qed.

Lemma extends_event ev s :
  extends [ev] s (set_trace s (_trace s ++ [ev])).
Proof. unfold extends, keys_below. state_simpl. conj_split; auto; lia. Qed.

Section Pending.

Variable TimerRef : Type.
Variable idToRef : Z -> TimerRef.
Variable refToId : TimerRef -> option Z.
Variable body : nat -> list (Cmd TimerRef).
Hypothesis harmless_bodies : forall n, Forall harmless (body n).

Lemma exec_cmd_harmless c s :
  harmless c ->
  fst (exec_cmd idToRef refToId c s) = inr tt /\
  extends [] s (snd (exec_cmd idToRef refToId c s)).
Proof.
  intros Hc. destruct c; try contradiction; cbn [exec_cmd modify fst snd];
    (split; [reflexivity |]);
    unfold _fakeRequestAnimationFrame, _fakeSetTimeout, _fakeSetInterval,
      _fakeSetImmediate, _fakeNextTick, _fakeClearImmediate;
    try (destruct (_disposed s); [apply extends_refl |]).
  - eapply extends_insert; reflexivity.
  - eapply extends_insert; reflexivity.
  - apply extends_mint; reflexivity.
  - apply extends_mint; reflexivity.
  - eapply extends_insert; reflexivity.
  - apply extends_same; reflexivity.
Qed.

Lemma exec_harmless cmds :
  Forall harmless cmds ->
  forall s,
    fst (exec idToRef refToId cmds s) = inr tt /\
    extends [] s (snd (exec idToRef refToId cmds s)).
Proof.
  induction 1 as [| c cmds Hc Hcs IH]; intros s; cbn [exec].
  - split; [reflexivity | apply extends_refl].
  - unfold bind. destruct (exec_cmd_harmless c s Hc) as [E1 X1].
    destruct (exec_cmd idToRef refToId c s) as [r s1]. simpl in E1, X1. subst r.
    destruct (IH s1) as [E2 X2]. split; [exact E2 |].
    apply (extends_trans X1 X2).
Qed.

Lemma call_harmless src id f s :
  fst (call idToRef refToId body src id f s) = inr tt /\
  extends [event_of src id f (_now s)] s (snd (call idToRef refToId body src id f s)).
Proof.
  unfold call.
  destruct (exec_harmless (harmless_bodies (ev_name (event_of src id f (_now s))))
              (set_trace s (_trace s ++ [event_of src id f (_now s)]))) as [E X].
  split; [exact E |].
  apply (extends_trans (extends_event (event_of src id f (_now s)) s) X).
Qed.

Lemma runImmediate_harmless imm s :
  fst (_runImmediate idToRef refToId body imm s) = inr tt /\
  extends [event_of FromImmediate (uuid imm) (tick_callback imm) (_now s)] s
    (snd (_runImmediate idToRef refToId body imm s)).
Proof.
  unfold _runImmediate, try_finally.
  destruct (call_harmless FromImmediate (uuid imm) (tick_callback imm) s) as [E X].
  destruct (call idToRef refToId body FromImmediate (uuid imm) (tick_callback imm) s)
    as [r s1]. simpl in *. split; [exact E |].
  rewrite <- (app_nil_r [_]). eapply extends_trans; [exact X |].
  apply extends_same; reflexivity.
Qed.

Lemma forEach_immediates_harmless l :
  forall s,
    fst (forEach l (_runImmediate idToRef refToId body) s) = inr tt /\
    extends (immediate_events (_now s) l) s
      (snd (forEach l (_runImmediate idToRef refToId body) s)).
Proof.
  induction l as [| imm l IH]; intros s; cbn [forEach].
  - split; [reflexivity | apply extends_refl].
  - unfold bind. destruct (runImmediate_harmless imm s) as [E1 X1].
    destruct (_runImmediate idToRef refToId body imm s) as [r s1].
    simpl in E1, X1. subst r.
    destruct (IH s1) as [E2 X2]. split; [exact E2 |].
    assert (N : _now s1 = _now s) by apply X1. rewrite N in X2.
    apply (extends_trans X1 X2).
Qed.

End Pending.

Lemma checkFakeTimers_fields s :
  _timers (_checkFakeTimers s) = _timers s /\
  _immediates (_checkFakeTimers s) = _immediates s /\
  _ticks (_checkFakeTimers s) = _ticks s /\
  _trace (_checkFakeTimers s) = _trace s /\
  _now (_checkFakeTimers s) = _now s /\
  _uuidCounter (_checkFakeTimers s) = _uuidCounter s /\
  _maxLoops (_checkFakeTimers s) = _maxLoops s.
Proof.
  unfold _checkFakeTimers. destruct (same_fn _ _); conj_split; reflexivity.
Qed.

Lemma count_fired_concat h a b :
  count_fired h (a ++ b) = (count_fired h a + count_fired h b)%nat.
Proof. unfold count_fired. rewrite filter_app, length_app. reflexivity. Qed.

Lemma count_fired_immediates h now l :
  count_fired h (immediate_events now l) = 0%nat.
Proof.
  unfold count_fired, immediate_events. induction l as [| t l IH]; [reflexivity |].
  cbn [map filter]. unfold is_timer_event at 1. rewrite event_of_source.
  cbn [andb]. exact IH.
Qed.

Lemma count_fired_timers_absent h now l :
  ~ In h (map fst l) -> count_fired h (timer_events now l) = 0%nat.
Proof.
  unfold count_fired, timer_events. induction l as [| e l IH]; [reflexivity |].
  cbn [map filter In]. intros Hn. rewrite event_of_uuid.
  destruct (Z.eqb_spec (fst e) h) as [E | E]; [exfalso; auto |].
  rewrite andb_false_r. apply IH. intros Hin. apply Hn. right. exact Hin.
Qed.

Lemma count_fired_timers_present h now l :
  NoDup (map fst l) -> In h (map fst l) ->
  count_fired h (timer_events now l) = 1%nat.
Proof.
  induction l as [| e l IH]; cbn [map In]; intros ND Hin; [contradiction |].
  inversion ND as [| ? ? Hn ND']; subst.
  change (timer_events now (e :: l))
    with ([event_of (FromTimer (expiry (snd e))) (fst e) (callback (snd e)) now]
            ++ timer_events now l).
  rewrite count_fired_concat. unfold count_fired at 1. cbn [filter].
  unfold is_timer_event. rewrite event_of_source, event_of_uuid. cbn [andb].
  destruct Hin as [E | Hin].
  - rewrite E, Z.eqb_refl. rewrite count_fired_timers_absent; [reflexivity |].
    rewrite <- E. exact Hn.
  - destruct (Z.eqb_spec (fst e) h) as [E | E].
    + exfalso. apply Hn. rewrite E. exact Hin.
    + simpl. apply IH; assumption.
Qed.

Section PendingTimers.

Variable TimerRef : Type.
Variable idToRef : Z -> TimerRef.
Variable refToId : TimerRef -> option Z.
Variable body : nat -> list (Cmd TimerRef).
Hypothesis harmless_bodies : forall n, Forall harmless (body n).

Lemma runTimerHandle_harmless h t s :
  Map_get (_timers s) h = Some t ->
  h < _uuidCounter s ->
  is_timeout_or_interval t ->
  let r := _runTimerHandle idToRef refToId body h s in
  fst r = inr tt /\
  _trace (snd r)
  = _trace s ++ [event_of (FromTimer (expiry t)) h (callback t) (_now s)] /\
  _now (snd r) = _now s /\
  _uuidCounter s <= _uuidCounter (snd r) /\
  (keys_below s -> keys_below (snd r)) /\
  (forall k, k < _uuidCounter s -> k <> h ->
     Map_get (_timers (snd r)) k = Map_get (_timers s) k) /\
  Map_get (_timers (snd r)) h = after_firing (_now s) t.
Proof.
  intros Hg Hh Ht r. subst r.
  unfold after_firing.
  assert (Hcase :
    exists s0,
      _runTimerHandle idToRef refToId body h s
        = call idToRef refToId body (FromTimer (expiry t)) h (callback t) s0 /\
      _trace s0 = _trace s /\ _now s0 = _now s /\
      _uuidCounter s0 = _uuidCounter s /\
      (keys_below s -> keys_below s0) /\
      (forall k, k <> h -> Map_get (_timers s0) k = Map_get (_timers s) k) /\
      Map_get (_timers s0) h
      = (if String.eqb (type t) "timeout" then None
         else Some (mkTimer (type t) (callback t)
                      (_now s + or_zero (interval t)) (interval t)))).
  { unfold _runTimerHandle, bind at 1, gets at 1. rewrite Hg.
    destruct Ht as [Ht | Ht]; rewrite Ht; cbn [String.eqb Ascii.eqb Bool.eqb].
    - eexists. split; [reflexivity |]. state_simpl. conj_split; auto.
      + unfold keys_below. state_simpl. apply Forall_Map_delete.
      + intros k Hk. apply Map_get_delete_other. congruence.
      + apply Map_get_delete_same.
    - eexists. split; [reflexivity |]. state_simpl. conj_split; auto.
      + unfold keys_below. state_simpl. intros KB.
        apply Forall_Map_set; [exact KB | exact Hh].
      + intros k Hk. apply Map_get_set_other. congruence.
      + apply Map_get_set_same. }
  destruct Hcase as (s0 & E & T0 & N0 & C0 & K0 & G0 & H0).
  rewrite E.
  destruct (@call_harmless _ idToRef refToId body harmless_bodies
              (FromTimer (expiry t)) h (callback t) s0)
    as [Er (T & N & C & K & G)].
  conj_split.
  - exact Er.
  - rewrite T, T0, N0. reflexivity.
  - congruence.
  - lia.
  - auto.
  - intros k Hk Hne. rewrite G by lia. apply G0, Hne.
  - rewrite G by lia. exact H0.
Qed.

Lemma forEach_timers_harmless l :
  forall s,
    NoDup (map fst l) ->
    (forall e, In e l ->
       Map_get (_timers s) (fst e) = Some (snd e) /\
       is_timeout_or_interval (snd e) /\
       fst e < _uuidCounter s) ->
    let r := forEach l (fun e => _runTimerHandle idToRef refToId body (fst e)) s in
    fst r = inr tt /\
    _trace (snd r) = _trace s ++ timer_events (_now s) l /\
    _now (snd r) = _now s /\
    _uuidCounter s <= _uuidCounter (snd r) /\
    (keys_below s -> keys_below (snd r)) /\
    (forall k, k < _uuidCounter s -> ~ In k (map fst l) ->
       Map_get (_timers (snd r)) k = Map_get (_timers s) k) /\
    (forall e, In e l ->
       Map_get (_timers (snd r)) (fst e) = after_firing (_now s) (snd e)).
Proof.
  induction l as [| e l IH]; intros s ND Hl; cbn [forEach].
  - cbv zeta. unfold ret, timer_events. simpl. rewrite app_nil_r.
    conj_split; auto; try lia; intros e [].
  - inversion ND as [| ? ? Hn ND']; subst.
    destruct (Hl e (or_introl eq_refl)) as (Hg & Ht & Hh).
    destruct (@runTimerHandle_harmless (fst e) (snd e) s Hg Hh Ht)
      as (E1 & T1 & N1 & C1 & K1 & G1 & A1).
    cbv zeta. unfold bind at 1 2 3 4 5 6 7.
    destruct (_runTimerHandle idToRef refToId body (fst e) s) as [r1 s1].
    simpl in E1, T1, N1, C1, K1, G1, A1. subst r1.
    assert (Hl1 : forall e', In e' l ->
              Map_get (_timers s1) (fst e') = Some (snd e') /\
              is_timeout_or_interval (snd e') /\
              fst e' < _uuidCounter s1).
    { intros e' He'. destruct (Hl e' (or_intror He')) as (Hg' & Ht' & Hh').
      conj_split; [| exact Ht' | lia].
      rewrite G1; [exact Hg' | exact Hh' |].
      intros Heq. apply Hn. rewrite <- Heq. apply in_map. exact He'. }
    destruct (IH s1 ND' Hl1) as (E2 & T2 & N2 & C2 & K2 & G2 & A2).
    conj_split.
    + exact E2.
    + rewrite T2, T1, N1, <- app_assoc. reflexivity.
    + congruence.
    + lia.
    + auto.
    + intros k Hk Hnk. cbn [map In] in Hnk.
      rewrite G2; [| lia | tauto]. apply G1; [exact Hk | intros ->; tauto].
    + intros e' [-> | He'].
      * rewrite G2; [exact A1 | lia | exact Hn].
      * rewrite <- N1. apply A2, He'.
Qed.

Lemma runOnlyPendingTimers_harmless (s : FakeTimers) :
  NoDup (map fst (_timers s)) ->
  keys_below s ->
  Forall (fun e => is_timeout_or_interval (snd e)) (_timers s) ->
  let snapshot := sort_entries (_timers s) in
  let r := runOnlyPendingTimers idToRef refToId body s in
  fst r = inr tt /\
  _trace (snd r)
  = _trace s ++ immediate_events (_now s) (_immediates s)
      ++ timer_events (_now s) snapshot /\
  StronglySorted by_expiry snapshot /\
  Permutation snapshot (_timers s) /\
  (forall x, filter (fun e => expiry (snd e) =? x) snapshot
             = filter (fun e => expiry (snd e) =? x) (_timers s)) /\
  (forall h t, In (h, t) (_timers s) ->
     count_fired h (_trace (snd r)) = S (count_fired h (_trace s)) /\
     Map_get (_timers (snd r)) h = after_firing (_now s) t) /\
  (forall h, _uuidCounter s <= h ->
     count_fired h (_trace (snd r)) = count_fired h (_trace s)) /\
  _now (snd r) = _now s.
Proof.
  intros ND KB Hty snapshot r.
  pose proof (sort_entries_perm (_timers s)) as Hperm. fold snapshot in Hperm.
  assert (NDs : NoDup (map fst snapshot)).
  { eapply Permutation_NoDup; [| exact ND].
    apply Permutation_map. symmetry. exact Hperm. }
  destruct (checkFakeTimers_fields s) as (Ct & Ci & _ & Ctr & Cn & Cc & _).
  destruct (@forEach_immediates_harmless _ idToRef refToId body harmless_bodies
              (_immediates s) (_checkFakeTimers s)) as [E1 (T1 & N1 & C1 & K1 & G1)].
  assert (Er : r = forEach snapshot
                 (fun e => _runTimerHandle idToRef refToId body (fst e))
                 (snd (forEach (_immediates s) (_runImmediate idToRef refToId body)
                         (_checkFakeTimers s)))).
  { subst r. unfold runOnlyPendingTimers, bind, gets, modify. rewrite Ci.
    destruct (forEach (_immediates s) (_runImmediate idToRef refToId body)
                (_checkFakeTimers s)) as [r1 s1].
    simpl in E1. subst r1. reflexivity. }
  set (s1 := snd (forEach (_immediates s) (_runImmediate idToRef refToId body)
                    (_checkFakeTimers s))) in *.
  rewrite Cn, Ctr in *. rewrite Cc in C1, G1. 
  assert (KB0 : keys_below (_checkFakeTimers s)).
  { unfold keys_below. rewrite Ct, Cc. exact KB. }
  assert (Hl : forall e, In e snapshot ->
             Map_get (_timers s1) (fst e) = Some (snd e) /\
             is_timeout_or_interval (snd e) /\
             fst e < _uuidCounter s1).
  { intros [k v] He. simpl.
    assert (Hin : In (k, v) (_timers s)) by (eapply Permutation_in; eauto).
    assert (Hk : k < _uuidCounter s).
    { unfold keys_below in KB. rewrite Forall_forall in KB. apply (KB (k, v) Hin). }
    conj_split.
    - rewrite G1 by exact Hk. rewrite Ct. apply In_Map_get; assumption.
    - rewrite Forall_forall in Hty. apply (Hty (k, v) Hin).
    - lia. }
  destruct (forEach_timers_harmless snapshot s1 NDs Hl)
    as (E2 & T2 & N2 & C2 & K2 & G2 & A2).
  rewrite <- Er in E2, T2, N2, C2, K2, G2, A2. rewrite N1 in T2, N2, A2.
  conj_split.
  - exact E2.
  - rewrite T2, T1, <- app_assoc. reflexivity.
  - apply sort_entries_sorted.
  - exact Hperm.
  - intros x. apply sort_entries_stable.
  - intros h t Hin.
    assert (Hs : In (h, t) snapshot)
      by (eapply Permutation_in; [symmetry; exact Hperm | exact Hin]).
    split.
    + rewrite T2, T1, !count_fired_concat, count_fired_immediates.
      rewrite count_fired_timers_present; [lia | exact NDs |].
      apply (in_map fst) in Hs. exact Hs.
    + apply (A2 (h, t) Hs).
  - intros h Hh.
    rewrite T2, T1, !count_fired_concat, count_fired_immediates.
    rewrite count_fired_timers_absent; [lia |].
    intros Hin. apply in_map_iff in Hin. destruct Hin as ([k v] & Hk & Hin).
    simpl in Hk. subst k.
    assert (Hin' : In (h, v) (_timers s)) by (eapply Permutation_in; eauto).
    unfold keys_below in KB. rewrite Forall_forall in KB.
    specialize (KB (h, v) Hin'). simpl in KB. lia.
  - exact N2.
Qed.

End PendingTimers.

(** ** Traces under arbitrary callbacks *)

Lemma subseq_refl {A} (l : list A) : subseq l l.
Proof. induction l; constructor; assumption. Qed.

Lemma subseq_app {A} (a1 b1 a2 b2 : list A) :
  subseq a1 b1 -> subseq a2 b2 -> subseq (a1 ++ a2) (b1 ++ b2).
Proof.
  intros H1 H2. induction H1 as [l | y l1 l2 _ IH | y l1 l2 _ IH]; simpl.
  - induction l as [| y l IH]; simpl; [exact H2 | apply subseq_skip, IH].
  - apply subseq_skip, IH.
  - apply subseq_cons, IH.
Qed.

Lemma subseq_In {A} (l1 l2 : list A) x : subseq l1 l2 -> In x l1 -> In x l2.
Proof.
  induction 1 as [l | y l1 l2 _ IH | y l1 l2 _ IH]; simpl; intros Hin.
  - contradiction.
  - right. auto.
  - destruct Hin; auto.
Qed.

Lemma subseq_NoDup {A} (l1 l2 : list A) : subseq l1 l2 -> NoDup l2 -> NoDup l1.
Proof.
  induction 1 as [l | y l1 l2 _ IH | y l1 l2 Hs IH]; intros ND.
  - constructor.
  - inversion ND; auto.
  - inversion ND; subst. constructor; [| auto].
    intros Hin. eapply subseq_In in Hin; eauto.
Qed.

Section AnyCallbacks.

Variable TimerRef : Type.
Variable idToRef : Z -> TimerRef.
Variable refToId : TimerRef -> option Z.
Variable body : nat -> list (Cmd TimerRef).

(** No fake primitive writes the trace or the clock. *)
Lemma exec_cmd_trace c s :
  _trace (snd (exec_cmd idToRef refToId c s)) = _trace s /\
  _now (snd (exec_cmd idToRef refToId c s)) = _now s.
Proof.
  destruct c; cbn [exec_cmd modify throw snd];
    unfold _fakeRequestAnimationFrame, _fakeSetTimeout, _fakeSetInterval,
      _fakeSetImmediate, _fakeNextTick, _fakeClearTimer, _fakeClearImmediate;
    try (destruct (_disposed s)); auto;
    destruct (refToId timerRef) as [id |]; auto; destruct (id =? 0); auto.
Qed.

Lemma exec_trace cmds :
  forall s,
    _trace (snd (exec idToRef refToId cmds s)) = _trace s /\
    _now (snd (exec idToRef refToId cmds s)) = _now s.
Proof.
  induction cmds as [| c cmds IH]; intros s; cbn [exec]; [auto |].
  unfold bind. destruct (exec_cmd_trace c s) as [T N].
  destruct (exec_cmd idToRef refToId c s) as [[e | []] s1]; simpl in *; [auto |].
  destruct (IH s1) as [T1 N1]. split; congruence.
Qed.

Lemma call_trace src id f s :
  _trace (snd (call idToRef refToId body src id f s))
  = _trace s ++ [event_of src id f (_now s)] /\
  _now (snd (call idToRef refToId body src id f s)) = _now s.
Proof.
  unfold call.
  destruct (exec_trace (body (ev_name (event_of src id f (_now s))))
              (set_trace s (_trace s ++ [event_of src id f (_now s)]))) as [T N].
  split; [rewrite T | rewrite N]; reflexivity.
Qed.

Lemma runImmediate_trace imm s :
  _trace (snd (_runImmediate idToRef refToId body imm s))
  = _trace s ++ [event_of FromImmediate (uuid imm) (tick_callback imm) (_now s)] /\
  _now (snd (_runImmediate idToRef refToId body imm s)) = _now s.
Proof.
  unfold _runImmediate, try_finally.
  destruct (call_trace FromImmediate (uuid imm) (tick_callback imm) s) as [T N].
  destruct (call idToRef refToId body FromImmediate (uuid imm) (tick_callback imm) s)
    as [r s1]. simpl in *. auto.
Qed.

Lemma forEach_immediates_trace l :
  forall s,
    let r := forEach l (_runImmediate idToRef refToId body) s in
    exists evs,
      _trace (snd r) = _trace s ++ evs /\
      Forall (fun e => ev_source e = FromImmediate) evs /\
      _now (snd r) = _now s /\
      (fst r = inr tt -> evs = immediate_events (_now s) l).
Proof.
  induction l as [| imm l IH]; intros s; cbv zeta; cbn [forEach].
  - exists []. rewrite app_nil_r. simpl. auto.
  - unfold bind. destruct (runImmediate_trace imm s) as [T N].
    destruct (_runImmediate idToRef refToId body imm s) as [[e | []] s1];
      simpl in T, N.
    + exists [event_of FromImmediate (uuid imm) (tick_callback imm) (_now s)].
      simpl. conj_split; auto; [| discriminate].
      constructor; [apply event_of_source | constructor].
    + destruct (IH s1) as (evs & T1 & F1 & N1 & R1). cbv zeta in *.
      exists (event_of FromImmediate (uuid imm) (tick_callback imm) (_now s) :: evs).
      conj_split.
      * rewrite T1, T, <- app_assoc. reflexivity.
      * constructor; [apply event_of_source | exact F1].
      * congruence.
      * intros Hr. rewrite (R1 Hr), N. reflexivity.
Qed.

Lemma runTimerHandle_unfold k s :
  _runTimerHandle idToRef refToId body k s
  = match Map_get (_timers s) k with
    | None => (inr tt, s)
    | Some t =>
        if String.eqb (type t) "timeout" then
          call idToRef refToId body (FromTimer (expiry t)) k (callback t)
            (set_timers s (Map_delete (_timers s) k))
        else if String.eqb (type t) "interval" then
          call idToRef refToId body (FromTimer (expiry t)) k (callback t)
            (set_timers s
               (Map_set (_timers s) k
                  (mkTimer (type t) (callback t)
                     (_now s + or_zero (interval t)) (interval t))))
        else (inl (UnexpectedTimerType (type t)), s)
    end.
Proof.
  unfold _runTimerHandle, bind at 1, gets at 1.
  destruct (Map_get (_timers s) k) as [t |]; [| reflexivity].
  destruct (String.eqb (type t) "timeout"); [reflexivity |].
  destruct (String.eqb (type t) "interval"); reflexivity.
Qed.

(** [_runTimerHandle] fires at most the entry stored under its handle. *)
Lemma runTimerHandle_trace k s :
  let r := _runTimerHandle idToRef refToId body k s in
  _now (snd r) = _now s /\
  (_trace (snd r) = _trace s \/
   exists t,
     Map_get (_timers s) k = Some t /\
     _trace (snd r)
     = _trace s ++ [event_of (FromTimer (expiry t)) k (callback t) (_now s)]).
Proof.
  cbv zeta. rewrite runTimerHandle_unfold.
  destruct (Map_get (_timers s) k) as [t |] eqn:Hg; [| simpl; auto].
  destruct (String.eqb (type t) "timeout").
  - destruct (call_trace (FromTimer (expiry t)) k (callback t)
                (set_timers s (Map_delete (_timers s) k))) as [T N].
    split; [exact N |]. right. exists t. split; [reflexivity | exact T].
  - destruct (String.eqb (type t) "interval"); [| simpl; auto].
    destruct (call_trace (FromTimer (expiry t)) k (callback t)
                (set_timers s
                   (Map_set (_timers s) k
                      (mkTimer (type t) (callback t)
                         (_now s + or_zero (interval t)) (interval t))))) as [T N].
    split; [exact N |]. right. exists t. split; [reflexivity | exact T].
Qed.

Lemma runTimerHandle_fires k t s :
  Map_get (_timers s) k = Some t ->
  is_timeout_or_interval t ->
  _trace (snd (_runTimerHandle idToRef refToId body k s))
  = _trace s ++ [event_of (FromTimer (expiry t)) k (callback t) (_now s)].
Proof.
  intros Hg Ht. rewrite runTimerHandle_unfold, Hg.
  destruct Ht as [Ht | Ht]; rewrite Ht; cbn [String.eqb Ascii.eqb Bool.eqb].
  - exact (proj1 (call_trace (FromTimer (expiry t)) k (callback t)
                    (set_timers s (Map_delete (_timers s) k)))).
  - exact (proj1 (call_trace (FromTimer (expiry t)) k (callback t)
                    (set_timers s
                       (Map_set (_timers s) k
                          (mkTimer "interval" (callback t)
                             (_now s + or_zero (interval t)) (interval t)))))).
Qed.

Lemma forEach_timers_trace (l : list (TimerID * Timer)) :
  forall s,
    let r := forEach l (fun e => _runTimerHandle idToRef refToId body (fst e)) s in
    exists evs,
      _trace (snd r) = _trace s ++ evs /\
      Forall (fun e => is_timer_event e = true) evs /\
      subseq (map ev_uuid evs) (map fst l) /\
      _now (snd r) = _now s.
Proof.
  induction l as [| x l IH]; intros s; cbv zeta; cbn [forEach].
  - exists []. rewrite app_nil_r. simpl. conj_split; auto. constructor.
  - unfold bind. destruct (runTimerHandle_trace (fst x) s) as [N Hev].
    cbv zeta in N, Hev.
    assert (Hfirst : exists ev1,
               _trace (snd (_runTimerHandle idToRef refToId body (fst x) s))
               = _trace s ++ ev1 /\
               Forall (fun e => is_timer_event e = true) ev1 /\
               subseq (map ev_uuid ev1) [fst x]).
    { destruct Hev as [E | (t & _ & E)].
      - exists []. rewrite app_nil_r. conj_split; auto. constructor.
      - eexists. split; [exact E |]. split.
        + constructor; [| constructor]. unfold is_timer_event.
          rewrite event_of_source. reflexivity.
        + cbn [map]. rewrite event_of_uuid. apply subseq_refl. }
    destruct Hfirst as (ev1 & T1 & F1 & S1).
    destruct (_runTimerHandle idToRef refToId body (fst x) s) as [[e | []] s1];
      simpl in N, T1.
    + exists ev1. simpl. conj_split; auto.
      rewrite <- (app_nil_r (map ev_uuid ev1)).
      apply (subseq_app S1 (subseq_nil (map fst l))).
    + destruct (IH s1) as (evs & T2 & F2 & S2 & N2). cbv zeta in *.
      exists (ev1 ++ evs). conj_split.
      * rewrite T2, T1, <- app_assoc. reflexivity.
      * apply Forall_app. auto.
      * rewrite map_app. cbn [map]. apply (subseq_app S1 S2).
      * congruence.
Qed.

Lemma runOnlyPendingTimers_unfold s :
  runOnlyPendingTimers idToRef refToId body s
  = match forEach (_immediates s) (_runImmediate idToRef refToId body)
            (_checkFakeTimers s) with
    | (inl e, s1) => (inl e, s1)
    | (inr _, s1) =>
        forEach (sort_entries (_timers s))
          (fun e => _runTimerHandle idToRef refToId body (fst e)) s1
    end.
Proof.
  destruct (checkFakeTimers_fields s) as (_ & Ci & _).
  unfold runOnlyPendingTimers, bind, gets, modify. rewrite Ci. reflexivity.
Qed.

(** Whatever the callbacks do, [runOnlyPendingTimers] invokes immediates
    first and timers after them, and the timers it fires are a subsequence
    of the snapshot in its stable order of ascending expiry. *)
Lemma runOnlyPendingTimers_any s :
  let r := runOnlyPendingTimers idToRef refToId body s in
  exists ievs tevs,
    _trace (snd r) = _trace s ++ ievs ++ tevs /\
    Forall (fun e => ev_source e = FromImmediate) ievs /\
    Forall (fun e => is_timer_event e = true) tevs /\
    subseq (map ev_uuid tevs) (map fst (sort_entries (_timers s))) /\
    _now (snd r) = _now s.
Proof.
  cbv zeta. rewrite runOnlyPendingTimers_unfold.
  destruct (checkFakeTimers_fields s) as (_ & _ & _ & Ctr & Cn & _).
  destruct (forEach_immediates_trace (_immediates s) (_checkFakeTimers s))
    as (ievs & T1 & F1 & N1 & _).
  cbv zeta in T1, N1. rewrite Ctr in T1. rewrite Cn in N1.
  destruct (forEach (_immediates s) (_runImmediate idToRef refToId body)
              (_checkFakeTimers s)) as [[e | []] s1]; simpl in T1, N1.
  - exists ievs, []. rewrite app_nil_r. simpl. conj_split; auto. constructor.
  - destruct (forEach_timers_trace (sort_entries (_timers s)) s1)
      as (tevs & T2 & F2 & S2 & N2). cbv zeta in *.
    exists ievs, tevs. conj_split; auto.
    + rewrite T2, T1, <- app_assoc. reflexivity.
    + congruence.
Qed.

Lemma quiet_since_refl s : quiet_since (_trace s) s.
Proof. exists []. rewrite app_nil_r. auto. Qed.

Lemma quiet_since_ext tr0 s s' :
  _trace s' = _trace s -> quiet_since tr0 s -> quiet_since tr0 s'.
Proof. unfold quiet_since. intros ->. auto. Qed.

Lemma quiet_exec tr0 cmds : preserves (quiet_since tr0) (exec idToRef refToId cmds).
Proof.
  intros s H. eapply quiet_since_ext; [| exact H]. apply exec_trace.
Qed.

Lemma quiet_call tr0 src id f :
  (forall x, src <> FromTimer x) ->
  preserves (quiet_since tr0) (call idToRef refToId body src id f).
Proof.
  intros Hsrc s (evs & T & F).
  destruct (call_trace src id f s) as [T1 _].
  exists (evs ++ [event_of src id f (_now s)]). split.
  - rewrite T1, T, <- app_assoc. reflexivity.
  - apply Forall_app. split; [exact F |]. constructor; [| constructor].
    unfold is_timer_event. rewrite event_of_source.
    destruct src; auto. exfalso. eapply Hsrc. reflexivity.
Qed.

Lemma quiet_check tr0 s : quiet_since tr0 s -> quiet_since tr0 (_checkFakeTimers s).
Proof. apply quiet_since_ext. apply checkFakeTimers_fields. Qed.

Lemma quiet_ticks_iteration tr0 :
  preserves (quiet_since tr0) (ticks_iteration idToRef refToId body).
Proof.
  intros s H. unfold ticks_iteration, bind at 1, shift_ticks.
  destruct (_ticks s) as [| tick rest]; [exact H |].
  assert (H1 : quiet_since tr0 (set_ticks s rest))
    by (eapply quiet_since_ext; [| exact H]; reflexivity).
  revert H1. generalize (set_ticks s rest). clear s H. intros s H.
  by_preserves s H.
  apply preserves_bind; [apply preserves_gets |]. intros cancelled.
  apply preserves_bind; [| intros; apply preserves_ret].
  destruct (negb _); [| apply preserves_ret].
  apply preserves_bind.
  - apply preserves_modify. intros s1 H1.
    eapply quiet_since_ext; [| exact H1]. reflexivity.
  - intros _. apply quiet_call. intros x. discriminate.
Qed.

Lemma quiet_runAllTicks tr0 :
  preserves (quiet_since tr0) (runAllTicks idToRef refToId body).
Proof.
  unfold runAllTicks. apply preserves_bind.
  - apply preserves_modify, quiet_check.
  - intros _. apply preserves_bounded_loop, quiet_ticks_iteration.
Qed.

Lemma quiet_immediates_iteration tr0 :
  preserves (quiet_since tr0) (immediates_iteration idToRef refToId body).
Proof.
  intros s H. unfold immediates_iteration, bind at 1, shift_immediates.
  destruct (_immediates s) as [| imm rest]; [exact H |].
  assert (H1 : quiet_since tr0 (set_immediates s rest))
    by (eapply quiet_since_ext; [| exact H]; reflexivity).
  revert H1. generalize (set_immediates s rest). clear s H. intros s H.
  by_preserves s H.
  apply preserves_bind; [| intros; apply preserves_ret].
  unfold _runImmediate. apply preserves_try_finally.
  - apply quiet_call. intros x. discriminate.
  - intros s1 H1. eapply quiet_since_ext; [| exact H1]. reflexivity.
Qed.

Lemma quiet_runAllImmediates tr0 :
  preserves (quiet_since tr0) (runAllImmediates idToRef refToId body).
Proof.
  unfold runAllImmediates. apply preserves_bind.
  - apply preserves_modify, quiet_check.
  - intros _. apply preserves_bounded_loop, quiet_immediates_iteration.
Qed.

(** One iteration of the loop of [runAllTimers] fires the timer that the
    search answers and no other, whatever the callbacks do. *)
Lemma timers_iteration_fires_next s h t :
  _getNextTimerHandle s = Some h ->
  Map_get (_timers s) h = Some t ->
  is_timeout_or_interval t ->
  exists evs,
    _trace (snd (timers_iteration idToRef refToId body s))
    = _trace s ++ event_of (FromTimer (expiry t)) h (callback t) (_now s) :: evs /\
    Forall (fun e => is_timer_event e = false) evs.
Proof.
  intros Hn Hg Ht.
  pose proof (runTimerHandle_fires h s Hg Ht) as T1.
  unfold timers_iteration, bind at 1, gets at 1. rewrite Hn. unfold bind at 1.
  destruct (_runTimerHandle idToRef refToId body h s) as [[e | []] s1];
    simpl in T1.
  - exists []. simpl. auto.
  - pose proof (quiet_since_refl s1) as Q.
    assert (Q' : quiet_since (_trace s1)
                   (snd ((immediates <- gets _immediates ;;
                          (if negb (Nat.eqb (List.length immediates) 0)
                           then runAllImmediates idToRef refToId body
                           else ret tt) ;;
                          ticks <- gets _ticks ;;
                          (if negb (Nat.eqb (List.length ticks) 0)
                           then runAllTicks idToRef refToId body
                           else ret tt) ;;
                          ret Continue) s1))).
    { by_preserves s1 Q.
      apply preserves_bind; [apply preserves_gets |]. intros immediates.
      apply preserves_bind.
      { destruct (negb _); [apply quiet_runAllImmediates | apply preserves_ret]. }
      intros _. apply preserves_bind; [apply preserves_gets |]. intros ticks.
      apply preserves_bind.
      { destruct (negb _); [apply quiet_runAllTicks | apply preserves_ret]. }
      intros _. apply preserves_ret. }
    destruct Q' as (evs & T & F). exists evs. split; [| exact F].
    rewrite T, T1, <- app_assoc. reflexivity.
Qed.

End AnyCallbacks.

(** ** Immediates left by [runOnlyPendingTimers] *)

Section Drained.

Variable TimerRef : Type.
Variable idToRef : Z -> TimerRef.
Variable refToId : TimerRef -> option Z.
Variable body : nat -> list (Cmd TimerRef).
Variable c : Z.

Lemma queued_since_ext l s s' :
  _uuidCounter s <= _uuidCounter s' -> _immediates s' = _immediates s ->
  queued_since c l s -> queued_since c l s'.
Proof. unfold queued_since. intros Hc ->. intros [B F]. split; [lia | exact F]. Qed.

Lemma queued_since_exec_cmd l cmd :
  preserves (queued_since c l) (exec_cmd idToRef refToId cmd).
Proof.
  intros s H.
  destruct cmd; cbn [exec_cmd modify throw snd];
    unfold _fakeRequestAnimationFrame, _fakeSetTimeout, _fakeSetInterval,
      _fakeSetImmediate, _fakeNextTick, _fakeClearTimer, _fakeClearImmediate.
  - destruct (_disposed s); [exact H |].
    eapply queued_since_ext; [| | exact H]; cbn [snd]; state_simpl;
      [lia | reflexivity].
  - destruct (_disposed s); [exact H |].
    eapply queued_since_ext; [| | exact H]; cbn [snd]; state_simpl;
      [lia | reflexivity].
  - destruct (_disposed s); [exact H |].
    destruct H as [B F]. unfold queued_since. cbn [snd]. state_simpl.
    split; [lia |]. apply Forall_app. split; [exact F |].
    constructor; [| constructor]. left. cbn [uuid]. exact B.
  - destruct (_disposed s); [exact H |].
    eapply queued_since_ext; [| | exact H]; state_simpl; [lia | reflexivity].
  - destruct (_disposed s); [exact H |].
    eapply queued_since_ext; [| | exact H]; cbn [snd]; state_simpl;
      [lia | reflexivity].
  - destruct (refToId timerRef) as [k |]; [| exact H].
    destruct (k =? 0); exact H.
  - destruct H as [B F]. unfold queued_since. state_simpl.
    split; [exact B |]. apply Forall_forall. intros t Ht.
    apply filter_In in Ht. rewrite Forall_forall in F. apply F, Ht.
  - exact H.
Qed.

Lemma queued_since_exec l cmds :
  preserves (queued_since c l) (exec idToRef refToId cmds).
Proof.
  induction cmds as [| cmd cmds IH]; cbn [exec].
  - apply preserves_ret.
  - apply preserves_bind; [apply queued_since_exec_cmd | intros _; exact IH].
Qed.

Lemma queued_since_call l src id f :
  preserves (queued_since c l) (call idToRef refToId body src id f).
Proof. intros s H. unfold call. apply queued_since_exec. exact H. Qed.

(** The [finally] of [_runImmediate] takes the immediate off the queue,
    also when its callback throws. *)
Lemma runImmediate_drains imm l s :
  queued_since c (imm :: l) s ->
  queued_since c l (snd (_runImmediate idToRef refToId body imm s)).
Proof.
  intros H. unfold _runImmediate, try_finally.
  pose proof (@queued_since_call (imm :: l) FromImmediate (uuid imm)
                (tick_callback imm) s H) as H1.
  destruct (call idToRef refToId body FromImmediate (uuid imm)
              (tick_callback imm) s) as [r s1].
  cbn [snd] in *. destruct H1 as [B F].
  unfold queued_since, _fakeClearImmediate. state_simpl.
  split; [exact B |]. apply Forall_forall. intros t Ht.
  apply filter_In in Ht. destruct Ht as [Hin Hne].
  rewrite Forall_forall in F. destruct (F t Hin) as [G | G]; [left; exact G |].
  cbn [map In] in G. destruct G as [E | G]; [| right; exact G].
  exfalso. rewrite E, Z.eqb_refl in Hne. discriminate.
Qed.

Lemma forEach_immediates_drains l :
  forall s,
    queued_since c l s ->
    fst (forEach l (_runImmediate idToRef refToId body) s) = inr tt ->
    queued_since c [] (snd (forEach l (_runImmediate idToRef refToId body) s)).
Proof.
  induction l as [| imm l IH]; intros s H R; cbn [forEach] in *.
  - exact H.
  - unfold bind in *. pose proof (runImmediate_drains H) as H1.
    destruct (_runImmediate idToRef refToId body imm s) as [[e | []] s1];
      cbn [fst snd] in *; [discriminate | apply IH; assumption].
Qed.

Lemma queued_since_runTimerHandle l k :
  preserves (queued_since c l) (_runTimerHandle idToRef refToId body k).
Proof.
  intros s H. rewrite runTimerHandle_unfold.
  destruct (Map_get (_timers s) k) as [t |]; [| exact H].
  destruct (String.eqb (type t) "timeout").
  - apply queued_since_call. exact H.
  - destruct (String.eqb (type t) "interval"); [| exact H].
    apply queued_since_call. exact H.
Qed.

Lemma runOnlyPendingTimers_drains s :
  c <= _uuidCounter s ->
  fst (runOnlyPendingTimers idToRef refToId body s) = inr tt ->
  queued_since c [] (snd (runOnlyPendingTimers idToRef refToId body s)).
Proof.
  intros B R. rewrite runOnlyPendingTimers_unfold in *.
  assert (H0 : queued_since c (_immediates s) (_checkFakeTimers s)).
  { destruct (checkFakeTimers_fields s) as (_ & Ci & _ & _ & _ & Cu & _).
    unfold queued_since. rewrite Ci, Cu. split; [exact B |].
    apply Forall_forall. intros t Ht. right. apply in_map, Ht. }
  pose proof (forEach_immediates_drains H0) as D.
  destruct (forEach (_immediates s) (_runImmediate idToRef refToId body)
              (_checkFakeTimers s)) as [[e | []] s1]; [discriminate |].
  cbn [fst snd] in D. specialize (D eq_refl).
  by_preserves s1 D.
  apply preserves_forEach. intros e _. apply queued_since_runTimerHandle.
Qed.

End Drained.



(** ** Invariants of the drains

    An invariant that survives the primitive state changes made by the
    drains, and the bodies of the callbacks, survives the drains. *)

Section FiringInvariant.

Variable TimerRef : Type.
Variable idToRef : Z -> TimerRef.
Variable refToId : TimerRef -> option Z.
Variable body : nat -> list (Cmd TimerRef).
Variable I : FakeTimers -> Prop.

Hypothesis I_body : forall n, preserves I (exec idToRef refToId (body n)).
Hypothesis I_check : forall s, I s -> I (_checkFakeTimers s).
Hypothesis I_quiet_event :
  forall ev s,
    is_timer_event ev = false -> I s -> I (set_trace s (_trace s ++ [ev])).
Hypothesis I_tick :
  forall s t rest,
    _ticks s = t :: rest -> I s ->
    I (set_ticks s rest) /\
    I (set_cancelledTicks (set_ticks s rest) (uuid t :: _cancelledTicks s)).
Hypothesis I_shift_immediate :
  forall s t rest, _immediates s = t :: rest -> I s -> I (set_immediates s rest).
Hypothesis I_clear_immediate : forall id s, I s -> I (_fakeClearImmediate id s).
Hypothesis I_fire :
  forall k, preserves I (_runTimerHandle idToRef refToId body k).

Lemma firing_call_tick id f : preserves I (call idToRef refToId body FromTick id f).
Proof.
  intros s H. unfold call. apply I_body, I_quiet_event; [| exact H].
  unfold is_timer_event. rewrite event_of_source. reflexivity.
Qed.

Lemma firing_call_immediate id f :
  preserves I (call idToRef refToId body FromImmediate id f).
Proof.
  intros s H. unfold call. apply I_body, I_quiet_event; [| exact H].
  unfold is_timer_event. rewrite event_of_source. reflexivity.
Qed.

Lemma firing_ticks_iteration : preserves I (ticks_iteration idToRef refToId body).
Proof.
  intros s H. unfold ticks_iteration, bind at 1, shift_ticks.
  destruct (_ticks s) as [| tick rest] eqn:E; [exact H |].
  destruct (I_tick E H) as [H1 H2].
  unfold bind at 1, gets at 1.
  change (_cancelledTicks (set_ticks s rest)) with (_cancelledTicks s).
  destruct (negb (hasOwnProperty (_cancelledTicks s) (uuid tick))).
  - unfold bind at 1. unfold bind at 1, modify at 1.
    change (set_cancelledTicks (set_ticks s rest)
              (uuid tick :: _cancelledTicks (set_ticks s rest)))
      with (set_cancelledTicks (set_ticks s rest) (uuid tick :: _cancelledTicks s)).
    pose proof (firing_call_tick (uuid tick) (tick_callback tick) H2) as H3.
    destruct (call idToRef refToId body FromTick (uuid tick) (tick_callback tick)
                (set_cancelledTicks (set_ticks s rest) (uuid tick :: _cancelledTicks s)))
      as [[e | []] s3]; exact H3.
  - exact H1.
Qed.

Lemma firing_runAllTicks : preserves I (runAllTicks idToRef refToId body).
Proof.
  unfold runAllTicks. apply preserves_bind.
  - apply preserves_modify, I_check.
  - intros _. apply preserves_bounded_loop, firing_ticks_iteration.
Qed.

Lemma firing_runImmediate imm :
  preserves I (_runImmediate idToRef refToId body imm).
Proof.
  unfold _runImmediate. apply preserves_try_finally.
  - apply firing_call_immediate.
  - apply I_clear_immediate.
Qed.

Lemma firing_immediates_iteration :
  preserves I (immediates_iteration idToRef refToId body).
Proof.
  intros s H. unfold immediates_iteration, bind at 1, shift_immediates.
  destruct (_immediates s) as [| imm rest] eqn:E; [exact H |].
  pose proof (I_shift_immediate E H) as H1.
  by_preserves (set_immediates s rest) H1.
  apply preserves_bind; [apply firing_runImmediate | intros; apply preserves_ret].
Qed.

Lemma firing_runAllImmediates :
  preserves I (runAllImmediates idToRef refToId body).
Proof.
  unfold runAllImmediates. apply preserves_bind.
  - apply preserves_modify, I_check.
  - intros _. apply preserves_bounded_loop, firing_immediates_iteration.
Qed.

Lemma firing_timers_iteration :
  preserves I (timers_iteration idToRef refToId body).
Proof.
  unfold timers_iteration.
  apply preserves_bind; [apply preserves_gets |]. intros [h |];
    [| apply preserves_ret].
  apply preserves_bind; [apply I_fire |]. intros _.
  apply preserves_bind; [apply preserves_gets |]. intros immediates.
  apply preserves_bind.
  { destruct (negb _); [apply firing_runAllImmediates | apply preserves_ret]. }
  intros _. apply preserves_bind; [apply preserves_gets |]. intros ticks.
  apply preserves_bind.
  { destruct (negb _); [apply firing_runAllTicks | apply preserves_ret]. }
  intros _. apply preserves_ret.
Qed.

Lemma firing_runAllTimers : preserves I (runAllTimers idToRef refToId body).
Proof.
  unfold runAllTimers.
  apply preserves_bind; [apply preserves_modify, I_check |]. intros _.
  apply preserves_bind; [apply firing_runAllTicks |]. intros _.
  apply preserves_bind; [apply firing_runAllImmediates |]. intros _.
  apply preserves_bounded_loop, firing_timers_iteration.
Qed.

Lemma firing_runOnlyPendingTimers :
  preserves I (runOnlyPendingTimers idToRef refToId body).
Proof.
  unfold runOnlyPendingTimers.
  apply preserves_bind; [apply preserves_gets |]. intros timerEntries.
  apply preserves_bind; [apply preserves_modify, I_check |]. intros _.
  apply preserves_bind; [apply preserves_gets |]. intros immediates.
  apply preserves_bind.
  - apply preserves_forEach. intros imm _. apply firing_runImmediate.
  - intros _. apply preserves_forEach. intros e _. apply I_fire.
Qed.

(** The drains that move the clock keep an invariant that does not read
    it. *)
Hypothesis I_now : forall v s, I s -> I (set_now s v).

Lemma firing_advance_loop fuel :
  forall i msToRun, preserves I (advance_loop idToRef refToId body fuel i msToRun).
Proof.
  induction fuel as [| fuel IH]; intros i msToRun; cbn [advance_loop].
  - apply preserves_ret.
  - apply preserves_bind; [apply preserves_gets |]. intros [h |];
      [| apply preserves_ret].
    apply preserves_bind; [apply preserves_gets |]. intros [timerValue |];
      [| apply preserves_ret].
    apply preserves_bind; [apply preserves_gets |]. intros now.
    destruct (now + msToRun <? expiry timerValue).
    + apply preserves_bind; [| intros; apply preserves_ret].
      apply preserves_modify. intros s H. apply I_now, H.
    + apply preserves_bind.
      { apply preserves_modify. intros s H. apply I_now, H. }
      intros _. apply preserves_bind; [apply I_fire |].
      intros _. apply IH.
Qed.

Lemma firing_advanceTimersByTime msToRun :
  preserves I (advanceTimersByTime idToRef refToId body msToRun).
Proof.
  unfold advanceTimersByTime.
  apply preserves_bind; [apply preserves_modify, I_check |]. intros _.
  apply preserves_bind; [apply preserves_gets |]. intros maxLoops.
  apply preserves_bind; [apply firing_advance_loop |]. intros i.
  destruct (i =? maxLoops); [apply preserves_throw | apply preserves_ret].
Qed.

Lemma firing_advanceTimersToNextTimer steps :
  preserves I (advanceTimersToNextTimer idToRef refToId body steps).
Proof.
  unfold advanceTimersToNextTimer.
  induction (Z.to_nat steps) as [| n IH]; cbn [advance_steps].
  - apply preserves_ret.
  - apply preserves_bind; [apply preserves_gets |]. intros [next |];
      [| apply preserves_ret].
    apply preserves_bind; [apply preserves_gets |]. intros now.
    apply preserves_bind; [apply firing_advanceTimersByTime |].
    intros _. exact IH.
Qed.

End FiringInvariant.

(** An invariant that does not read the trace only has to survive the two
    changes that firing a timer makes to the timer map. *)

Section DrainInvariant.

Variable TimerRef : Type.
Variable idToRef : Z -> TimerRef.
Variable refToId : TimerRef -> option Z.
Variable body : nat -> list (Cmd TimerRef).
Variable I : FakeTimers -> Prop.

Hypothesis I_body : forall n, preserves I (exec idToRef refToId (body n)).
Hypothesis I_check : forall s, I s -> I (_checkFakeTimers s).
Hypothesis I_event : forall ev s, I s -> I (set_trace s (_trace s ++ [ev])).
Hypothesis I_tick :
  forall s t rest,
    _ticks s = t :: rest -> I s ->
    I (set_ticks s rest) /\
    I (set_cancelledTicks (set_ticks s rest) (uuid t :: _cancelledTicks s)).
Hypothesis I_shift_immediate :
  forall s t rest, _immediates s = t :: rest -> I s -> I (set_immediates s rest).
Hypothesis I_clear_immediate : forall id s, I s -> I (_fakeClearImmediate id s).
Hypothesis I_delete :
  forall k s, I s -> I (set_timers s (Map_delete (_timers s) k)).
Hypothesis I_reschedule :
  forall k t s,
    Map_get (_timers s) k = Some t -> I s ->
    I (set_timers s
         (Map_set (_timers s) k
            (mkTimer (type t) (callback t)
               (_now s + or_zero (interval t)) (interval t)))).

Lemma inv_call src id f : preserves I (call idToRef refToId body src id f).
Proof. intros s H. unfold call. apply I_body, I_event, H. Qed.

Lemma inv_runTimerHandle k : preserves I (_runTimerHandle idToRef refToId body k).
Proof.
  intros s H. rewrite runTimerHandle_unfold.
  destruct (Map_get (_timers s) k) as [t |] eqn:Hg; [| exact H].
  destruct (String.eqb (type t) "timeout").
  - apply inv_call, I_delete, H.
  - destruct (String.eqb (type t) "interval"); [| exact H].
    apply inv_call, I_reschedule; assumption.
Qed.

Lemma inv_quiet_event ev s :
  is_timer_event ev = false -> I s -> I (set_trace s (_trace s ++ [ev])).
Proof. intros _. apply I_event. Qed.

Lemma inv_runAllTicks : preserves I (runAllTicks idToRef refToId body).
Proof. apply firing_runAllTicks; auto using inv_quiet_event. Qed.

Lemma inv_runImmediate imm : preserves I (_runImmediate idToRef refToId body imm).
Proof. apply firing_runImmediate; auto using inv_quiet_event. Qed.

Lemma inv_runAllImmediates : preserves I (runAllImmediates idToRef refToId body).
Proof. apply firing_runAllImmediates; auto using inv_quiet_event. Qed.

Lemma inv_runAllTimers : preserves I (runAllTimers idToRef refToId body).
Proof.
  apply firing_runAllTimers; auto using inv_quiet_event, inv_runTimerHandle.
Qed.

Lemma inv_runOnlyPendingTimers :
  preserves I (runOnlyPendingTimers idToRef refToId body).
Proof.
  apply firing_runOnlyPendingTimers;
    auto using inv_quiet_event, inv_runTimerHandle.
Qed.

(** The drains that move the clock keep an invariant that does not read
    it. *)
Hypothesis I_now : forall v s, I s -> I (set_now s v).

Lemma inv_advanceTimersByTime msToRun :
  preserves I (advanceTimersByTime idToRef refToId body msToRun).
Proof.
  apply firing_advanceTimersByTime;
    auto using inv_quiet_event, inv_runTimerHandle.
Qed.

Lemma inv_advanceTimersToNextTimer steps :
  preserves I (advanceTimersToNextTimer idToRef refToId body steps).
Proof.
  apply firing_advanceTimersToNextTimer;
    auto using inv_quiet_event, inv_runTimerHandle.
Qed.

End DrainInvariant.

(** ** Order of firing in [runAllTimers] *)

Lemma Map_get_absent m k : ~ In k (map fst m) -> Map_get m k = None.
Proof.
  induction m as [| [k1 v1] m IH]; simpl; intros Hn; [reflexivity |].
  destruct (Z.eqb_spec k1 k); [exfalso; auto | auto].
Qed.

Lemma Map_delete_split before h t after :
  NoDup (map fst (before ++ (h, t) :: after)) ->
  Map_delete (before ++ (h, t) :: after) h = before ++ after.
Proof.
  intros ND. rewrite map_app in ND. cbn [map fst] in ND.
  pose proof (NoDup_remove_2 _ _ _ ND) as Hn.
  assert (Eb : Map_delete before h = before).
  { apply Map_delete_absent, Map_get_absent.
    intros Hin. apply Hn, in_or_app. auto. }
  assert (Ea : Map_delete after h = after).
  { apply Map_delete_absent, Map_get_absent.
    intros Hin. apply Hn, in_or_app. auto. }
  unfold Map_delete in *. rewrite filter_app. cbn [filter fst].
  rewrite Z.eqb_refl. cbn [negb]. f_equal; [exact Eb | exact Ea].
Qed.

Lemma Forall_sort_entries (P : TimerID * Timer -> Prop) l :
  Forall P l -> Forall P (sort_entries l).
Proof.
  intros H. eapply Permutation_Forall; [| exact H].
  symmetry. apply sort_entries_perm.
Qed.

Lemma insert_entry_front e l :
  Forall (fun x => expiry (snd e) <= expiry (snd x)) l -> insert_entry e l = e :: l.
Proof.
  destruct l as [| x l]; [reflexivity |]. intros H. inversion H; subst.
  cbn [insert_entry].
  destruct (Z.leb_spec (expiry (snd e)) (expiry (snd x))); [reflexivity | lia].
Qed.

Lemma sort_entries_earliest before h t after :
  Forall (fun e => expiry t < expiry (snd e)) before ->
  Forall (fun e => expiry t <= expiry (snd e)) after ->
  sort_entries (before ++ (h, t) :: after) = (h, t) :: sort_entries (before ++ after).
Proof.
  intros Fb Fa. induction before as [| x before IH]; cbn [app sort_entries].
  - apply insert_entry_front. apply Forall_sort_entries. exact Fa.
  - inversion Fb; subst. rewrite IH by assumption. cbn [insert_entry snd].
    destruct (Z.leb_spec (expiry (snd x)) (expiry t)); [lia | reflexivity].
Qed.

Lemma earliest_in_NoDup_get m h t :
  NoDup (map fst m) -> earliest_in m h t -> Map_get m h = Some t.
Proof.
  intros ND (b & a & -> & _). apply In_Map_get; [exact ND | apply in_elt].
Qed.

Section Batch.

Variable TimerRef : Type.
Variable idToRef : Z -> TimerRef.
Variable refToId : TimerRef -> option Z.
Variable body : nat -> list (Cmd TimerRef).
Hypothesis inert_bodies : forall n, body n = [].

Lemma call_inert src id f s :
  call idToRef refToId body src id f s
  = (inr tt, set_trace s (_trace s ++ [event_of src id f (_now s)])).
Proof. unfold call. rewrite inert_bodies. reflexivity. Qed.

Lemma runAllTicks_nothing s :
  _ticks s = [] -> 0 < _maxLoops s ->
  runAllTicks idToRef refToId body s = (inr tt, _checkFakeTimers s).
Proof.
  intros Ht Hm. destruct (checkFakeTimers_fields s) as (_ & _ & Ct & _ & _ & _ & Cm).
  unfold runAllTicks, bounded_loop, bind, modify, gets. rewrite Cm.
  destruct (Z.to_nat (_maxLoops s)) as [| fuel] eqn:E; [lia |].
  cbn [for_loop]. unfold bind, ticks_iteration, bind, shift_ticks. rewrite Ct, Ht.
  cbn [ret]. destruct (Z.eqb_spec 0 (_maxLoops s)); [lia | reflexivity].
Qed.

Lemma runAllImmediates_nothing s :
  _immediates s = [] -> 0 < _maxLoops s ->
  runAllImmediates idToRef refToId body s = (inr tt, _checkFakeTimers s).
Proof.
  intros Ht Hm. destruct (checkFakeTimers_fields s) as (_ & Ci & _ & _ & _ & _ & Cm).
  unfold runAllImmediates, bounded_loop, bind, modify, gets. rewrite Cm.
  destruct (Z.to_nat (_maxLoops s)) as [| fuel] eqn:E; [lia |].
  cbn [for_loop]. unfold bind, immediates_iteration, bind, shift_immediates.
  rewrite Ci, Ht.
  cbn [ret]. destruct (Z.eqb_spec 0 (_maxLoops s)); [lia | reflexivity].
Qed.

Lemma timers_iteration_inert s h t :
  only_near_timeouts s ->
  earliest_in (_timers s) h t ->
  timers_iteration idToRef refToId body s
  = (inr Continue,
     set_trace (set_timers s (Map_delete (_timers s) h))
       (_trace s ++ [event_of (FromTimer (expiry t)) h (callback t) (_now s)])).
Proof.
  intros (Ht & Hi & ND & Hf) He.
  assert (Hty : type t = "timeout").
  { destruct He as (b & a & Hm & _). rewrite Forall_forall in Hf.
    apply (Hf (h, t)). rewrite Hm. apply in_elt. }
  unfold timers_iteration, bind at 1, gets at 1.
  rewrite (getNextTimerHandle_earliest _ He).
  unfold bind at 1, _runTimerHandle, bind at 1, gets at 1.
  rewrite (earliest_in_NoDup_get ND He), Hty. cbn [String.eqb Ascii.eqb Bool.eqb].
  unfold bind at 1, modify at 1. rewrite call_inert.
  unfold bind, gets. state_simpl. rewrite Hi.
  cbn [List.length Nat.eqb negb ret]. state_simpl. rewrite Ht. reflexivity.
Qed.

Lemma timers_loop_inert :
  forall n s fuel i,
    List.length (_timers s) = n ->
    (n < fuel)%nat ->
    only_near_timeouts s ->
    exists s',
      for_loop fuel i (timers_iteration idToRef refToId body) s
        = (inr (i + Z.of_nat n), s') /\
      _trace s' = _trace s ++ timer_events (_now s) (sort_entries (_timers s)) /\
      _timers s' = [] /\
      _now s' = _now s.
Proof.
  induction n as [| n IH]; intros s fuel i Hlen Hfuel Hs.
  - destruct fuel as [| fuel]; [lia |].
    destruct (_timers s) as [| e m] eqn:Em; [| discriminate].
    exists s. cbn [for_loop]. unfold bind, timers_iteration, bind, gets.
    unfold _getNextTimerHandle. rewrite Em. cbn [fold_left fst ret].
    rewrite Z.add_0_r. unfold timer_events. cbn [sort_entries map].
    rewrite app_nil_r. auto.
  - destruct fuel as [| fuel]; [lia |].
    destruct (_getNextTimerHandle s) as [h |] eqn:En.
    + destruct (getNextTimerHandle_some _ En) as (t & He).
      pose proof (timers_iteration_inert Hs He) as Eit.
      destruct Hs as (Ht & Hi & ND & Hf).
      destruct He as (b & a & Hm & Hy & Fb & Fa).
      set (s1 := set_trace (set_timers s (Map_delete (_timers s) h))
                   (_trace s ++ [event_of (FromTimer (expiry t)) h (callback t) (_now s)]))
        in *.
      assert (Hd : _timers s1 = b ++ a).
      { subst s1. state_simpl. rewrite Hm. apply Map_delete_split.
        rewrite <- Hm. exact ND. }
      assert (Hs1 : only_near_timeouts s1).
      { unfold only_near_timeouts. rewrite Hd. subst s1. state_simpl.
        rewrite Hm in ND, Hf. conj_split; auto.
        - rewrite map_app in *. cbn [map] in ND.
          eapply NoDup_remove_1. exact ND.
        - apply Forall_app in Hf. destruct Hf as [Hf1 Hf2].
          inversion Hf2; subst. apply Forall_app. auto. }
      assert (Hl1 : List.length (_timers s1) = n).
      { rewrite Hd. rewrite Hm in Hlen. rewrite length_app in *.
        cbn [List.length] in Hlen. lia. }
      destruct (IH s1 fuel (i + 1) Hl1 ltac:(lia) Hs1) as (s' & E & T & M & N).
      exists s'. cbn [for_loop]. unfold bind at 1. rewrite Eit, E.
      conj_split.
      * do 2 f_equal. lia.
      * rewrite T, Hd. subst s1. state_simpl. rewrite Hm.
        rewrite sort_entries_earliest by assumption.
        unfold timer_events. cbn [map fst snd]. rewrite <- app_assoc. reflexivity.
      * exact M.
      * rewrite N. reflexivity.
    + exfalso. apply getNextTimerHandle_none in En.
      destruct Hs as (_ & _ & _ & Hf).
      destruct (_timers s) as [| e m]; [discriminate |].
      inversion En; inversion Hf; subst. lia.
Qed.

Lemma check_only_near_timeouts s :
  only_near_timeouts s -> only_near_timeouts (_checkFakeTimers s).
Proof.
  intros Hx. destruct (checkFakeTimers_fields s) as (A & B & C & _).
  unfold only_near_timeouts. rewrite A, B, C. exact Hx.
Qed.

Lemma runAllTimers_inert s :
  only_near_timeouts s ->
  Z.of_nat (List.length (_timers s)) < _maxLoops s ->
  let r := runAllTimers idToRef refToId body s in
  fst r = inr tt /\
  _trace (snd r) = _trace s ++ timer_events (_now s) (sort_entries (_timers s)) /\
  _timers (snd r) = [] /\
  _now (snd r) = _now s.
Proof.
  intros Hs Hlen r. subst r.
  pose proof (check_only_near_timeouts Hs) as H1.
  pose proof (check_only_near_timeouts H1) as H2.
  pose proof (check_only_near_timeouts H2) as H3.
  destruct (checkFakeTimers_fields s) as (A1 & _ & _ & B1 & C1 & _ & D1).
  destruct (checkFakeTimers_fields (_checkFakeTimers s))
    as (A2 & _ & _ & B2 & C2 & _ & D2).
  destruct (checkFakeTimers_fields (_checkFakeTimers (_checkFakeTimers s)))
    as (A3 & _ & _ & B3 & C3 & _ & D3).
  set (s1 := _checkFakeTimers s) in *.
  set (s2 := _checkFakeTimers s1) in *.
  set (s3 := _checkFakeTimers s2) in *.
  assert (E1 : runAllTicks idToRef refToId body s1 = (inr tt, s2)).
  { apply runAllTicks_nothing; [apply H1 | lia]. }
  assert (E2 : runAllImmediates idToRef refToId body s2 = (inr tt, s3)).
  { apply runAllImmediates_nothing; [apply H2 | lia]. }
  destruct (@timers_loop_inert (List.length (_timers s)) s3
              (Z.to_nat (_maxLoops s)) 0) as (s' & E & T & M & N);
    [congruence | lia | exact H3 |].
  assert (E3 : bounded_loop " timers" (timers_iteration idToRef refToId body) s3
               = (inr tt, s')).
  { unfold bounded_loop, bind, gets. rewrite D3, D2, D1, E. cbn [Z.add].
    destruct (Z.eqb_spec (Z.of_nat (List.length (_timers s))) (_maxLoops s));
      [lia | reflexivity]. }
  assert (Er : runAllTimers idToRef refToId body s = (inr tt, s')).
  { unfold runAllTimers, bind at 1, modify at 1. fold s1.
    unfold bind at 1. rewrite E1. unfold bind at 1. rewrite E2. exact E3. }
  rewrite Er. cbn [fst snd]. rewrite T, M, N.
  conj_split; congruence.
Qed.

End Batch.

(** ** Ascending order when no callback registers a timer *)

Lemma subseq_trans {A} (l1 l2 l3 : list A) :
  subseq l1 l2 -> subseq l2 l3 -> subseq l1 l3.
Proof.
  intros H12 H23. revert l1 H12.
  induction H23 as [l | y l2 l3 _ IH | y l2 l3 _ IH]; intros l1 H12.
  - inversion H12; subst. constructor.
  - apply subseq_skip, IH, H12.
  - inversion H12; subst.
    + constructor.
    + apply subseq_skip, IH. assumption.
    + apply subseq_cons, IH. assumption.
Qed.

Lemma subseq_filter {A} (p : A -> bool) (l : list A) : subseq (filter p l) l.
Proof.
  induction l as [| x l IH]; cbn [filter]; [constructor |].
  destruct (p x); [apply subseq_cons | apply subseq_skip]; exact IH.
Qed.

Lemma subseq_app_l {A} (a b l : list A) : subseq (a ++ b) l -> subseq a l.
Proof.
  intros H. eapply subseq_trans; [| exact H].
  rewrite <- (app_nil_r a) at 1. apply subseq_app; [apply subseq_refl | constructor].
Qed.

Lemma subseq_sorted (l1 l2 : list (TimerID * Timer)) :
  subseq l1 l2 -> StronglySorted by_expiry l2 -> StronglySorted by_expiry l1.
Proof.
  induction 1 as [l | y l1 l2 _ IH | y l1 l2 Hs IH]; intros S.
  - constructor.
  - inversion S; subst. auto.
  - inversion S as [| ? ? Sl Fy]; subst. constructor; [auto |].
    apply Forall_forall. intros x Hx. rewrite Forall_forall in Fy.
    apply Fy. eapply subseq_In; eauto.
Qed.

Lemma insert_entry_filter_out (p : TimerID * Timer -> bool) e l :
  p e = false -> filter p (insert_entry e l) = filter p l.
Proof.
  intros He. induction l as [| x l IH]; cbn [insert_entry filter].
  - rewrite He. reflexivity.
  - destruct (expiry (snd e) <=? expiry (snd x)); cbn [filter].
    + rewrite He. reflexivity.
    + rewrite IH. reflexivity.
Qed.

Lemma insert_entry_filter_in (p : TimerID * Timer -> bool) e l :
  p e = true -> StronglySorted by_expiry l ->
  filter p (insert_entry e l) = insert_entry e (filter p l).
Proof.
  intros He. induction l as [| x l IH]; intros S; cbn [insert_entry filter].
  - rewrite He. reflexivity.
  - inversion S as [| ? ? Sl Fx]; subst.
    destruct (Z.leb_spec (expiry (snd e)) (expiry (snd x))) as [Hle | Hgt].
    + cbn [filter]. rewrite He. symmetry. apply insert_entry_front.
      apply Forall_forall. intros y Hy.
      assert (Hin : In y (x :: l)).
      { apply (proj1 (filter_In p y (x :: l))). exact Hy. }
      destruct Hin as [<- | Hin]; [exact Hle |].
      rewrite Forall_forall in Fx. specialize (Fx y Hin).
      unfold by_expiry in Fx. lia.
    + cbn [filter]. rewrite (IH Sl). destruct (p x); [| reflexivity].
      cbn [insert_entry].
      destruct (Z.leb_spec (expiry (snd e)) (expiry (snd x))); [lia | reflexivity].
Qed.

(** Sorting commutes with removing entries: the sort is stable. *)
Lemma sort_entries_filter (p : TimerID * Timer -> bool) l :
  sort_entries (filter p l) = filter p (sort_entries l).
Proof.
  induction l as [| e l IH]; [reflexivity |]. cbn [filter sort_entries].
  destruct (p e) eqn:He.
  - cbn [sort_entries]. rewrite IH. symmetry.
    apply insert_entry_filter_in; [exact He | apply sort_entries_sorted].
  - rewrite IH. symmetry. apply insert_entry_filter_out. exact He.
Qed.

Lemma NoDup_keys_delete (m : list (TimerID * Timer)) k :
  NoDup (map fst m) -> NoDup (map fst (Map_delete m k)).
Proof.
  unfold Map_delete, TimerID in *.
  induction m as [| x m IH]; cbn [map filter]; intros ND; [constructor |].
  inversion ND as [| ? ? Hn ND']; subst.
  destruct (Z.eqb_spec (fst x) k); cbn [negb map]; [auto |].
  constructor; [| auto]. intros Hin. apply Hn.
  apply in_map_iff in Hin. destruct Hin as (y & E & Hy).
  apply filter_In in Hy. rewrite <- E. apply in_map, Hy.
Qed.

Section Ordered.

Variable TimerRef : Type.
Variable idToRef : Z -> TimerRef.
Variable refToId : TimerRef -> option Z.
Variable body : nat -> list (Cmd TimerRef).
Variable m0 : list (TimerID * Timer).
Variable tr0 : list Event.
Variable now : Z.
Hypothesis bodies_register_no_timer : forall n, Forall registers_no_timer (body n).

Local Abbreviation O := (fired_in_order m0 tr0 now).

Lemma ordered_delete k s : O s -> O (set_timers s (Map_delete (_timers s) k)).
Proof.
  intros (N & ND & Ft & evs & fired & T & E & Sub).
  unfold fired_in_order. state_simpl.
  split; [exact N |]. split; [apply NoDup_keys_delete, ND |].
  split; [apply Forall_Map_delete, Ft |].
  exists evs, fired. split; [exact T |]. split; [exact E |].
  eapply subseq_trans; [| exact Sub].
  apply subseq_app; [apply subseq_refl |].
  unfold Map_delete. rewrite sort_entries_filter. apply subseq_filter.
Qed.

Lemma ordered_quiet_event ev s :
  is_timer_event ev = false -> O s -> O (set_trace s (_trace s ++ [ev])).
Proof.
  intros Hev (N & ND & Ft & evs & fired & T & E & Sub).
  unfold fired_in_order. state_simpl.
  split; [exact N |]. split; [exact ND |]. split; [exact Ft |].
  exists (evs ++ [ev]), fired. rewrite T, app_assoc, filter_app.
  cbn [filter]. rewrite Hev, app_nil_r. auto.
Qed.

Lemma ordered_exec_cmd cmd :
  registers_no_timer cmd -> preserves O (exec_cmd idToRef refToId cmd).
Proof.
  intros Hc s H.
  destruct cmd; try contradiction; cbn [exec_cmd modify throw snd];
    unfold _fakeSetImmediate, _fakeNextTick, _fakeClearTimer, _fakeClearImmediate.
  - destruct (_disposed s); exact H.
  - destruct (_disposed s); exact H.
  - destruct (refToId timerRef) as [k |]; [| exact H].
    destruct (k =? 0); [exact H |]. apply ordered_delete, H.
  - exact H.
  - exact H.
Qed.

Lemma ordered_exec cmds :
  Forall registers_no_timer cmds -> preserves O (exec idToRef refToId cmds).
Proof.
  induction 1 as [| cmd cmds Hc Hcs IH]; cbn [exec].
  - apply preserves_ret.
  - apply preserves_bind; [apply ordered_exec_cmd, Hc | intros _; exact IH].
Qed.

Lemma ordered_check s : O s -> O (_checkFakeTimers s).
Proof. unfold _checkFakeTimers. destruct (same_fn _ _); intros H; exact H. Qed.

Lemma ordered_runAllTicks : preserves O (runAllTicks idToRef refToId body).
Proof.
  apply firing_runAllTicks.
  - intros n. apply ordered_exec, bodies_register_no_timer.
  - apply ordered_check.
  - apply ordered_quiet_event.
  - intros s t rest _ H. split; exact H.
Qed.

Lemma ordered_runAllImmediates :
  preserves O (runAllImmediates idToRef refToId body).
Proof.
  apply firing_runAllImmediates.
  - intros n. apply ordered_exec, bodies_register_no_timer.
  - apply ordered_check.
  - apply ordered_quiet_event.
  - intros s t rest _ H. exact H.
  - intros id s H. exact H.
Qed.

(** Firing the timer that the search answers appends it to the timers
    fired: it is the first of the stored timers in the sorted order. *)
Lemma ordered_fire_next s h :
  _getNextTimerHandle s = Some h ->
  O s -> O (snd (_runTimerHandle idToRef refToId body h s)).
Proof.
  intros Hn H. pose proof H as (N & ND & Ft & evs & fired & T & E & Sub).
  destruct (getNextTimerHandle_some _ Hn) as (t & He).
  pose proof (earliest_in_NoDup_get ND He) as Hg.
  destruct He as (b & a & Hm & _ & Fb & Fa).
  assert (Hty : type t = "timeout").
  { rewrite Forall_forall in Ft. apply (Ft (h, t)). rewrite Hm. apply in_elt. }
  rewrite runTimerHandle_unfold, Hg, Hty. cbn [String.eqb Ascii.eqb Bool.eqb].
  unfold call. apply ordered_exec; [apply bodies_register_no_timer |].
  unfold fired_in_order. state_simpl.
  split; [exact N |]. split; [apply NoDup_keys_delete, ND |].
  split; [apply Forall_Map_delete, Ft |].
  exists (evs ++ [event_of (FromTimer (expiry t)) h (callback t) (_now s)]),
         (fired ++ [(h, t)]).
  split; [rewrite T, app_assoc; reflexivity |]. split.
  - rewrite filter_app. cbn [filter]. unfold is_timer_event at 2.
    rewrite event_of_source. rewrite E, N. unfold timer_events.
    rewrite map_app. reflexivity.
  - rewrite Hm in Sub. rewrite sort_entries_earliest in Sub by assumption.
    rewrite Hm, Map_delete_split by (rewrite <- Hm; exact ND).
    rewrite <- app_assoc. exact Sub.
Qed.

Lemma ordered_timers_iteration :
  preserves O (timers_iteration idToRef refToId body).
Proof.
  intros s H. unfold timers_iteration, bind at 1, gets at 1.
  destruct (_getNextTimerHandle s) as [h |] eqn:Hn; [| exact H].
  pose proof (ordered_fire_next Hn H) as H1. unfold bind at 1.
  destruct (_runTimerHandle idToRef refToId body h s) as [[e | []] s1];
    cbn [snd] in H1; [exact H1 |].
  by_preserves s1 H1.
  apply preserves_bind; [apply preserves_gets |]. intros immediates.
  apply preserves_bind.
  { destruct (negb _); [apply ordered_runAllImmediates | apply preserves_ret]. }
  intros _. apply preserves_bind; [apply preserves_gets |]. intros ticks.
  apply preserves_bind.
  { destruct (negb _); [apply ordered_runAllTicks | apply preserves_ret]. }
  intros _. apply preserves_ret.
Qed.

Lemma ordered_runAllTimers : preserves O (runAllTimers idToRef refToId body).
Proof.
  unfold runAllTimers.
  apply preserves_bind; [apply preserves_modify, ordered_check |]. intros _.
  apply preserves_bind; [apply ordered_runAllTicks |]. intros _.
  apply preserves_bind; [apply ordered_runAllImmediates |]. intros _.
  apply preserves_bounded_loop, ordered_timers_iteration.
Qed.

End Ordered.

(** When only timeouts are stored and no callback registers a timer, the
    timers that [runAllTimers] fires form a subsequence of the stored
    timers in their stable order of ascending expiry. *)
Lemma runAllTimers_ascending
    (TimerRef : Type) (idToRef : Z -> TimerRef) (refToId : TimerRef -> option Z)
    (body : nat -> list (Cmd TimerRef)) (s : FakeTimers) :
  (forall n, Forall registers_no_timer (body n)) ->
  NoDup (map fst (_timers s)) ->
  Forall (fun e => type (snd e) = "timeout") (_timers s) ->
  let r := runAllTimers idToRef refToId body s in
  exists evs fired,
    _trace (snd r) = _trace s ++ evs /\
    filter is_timer_event evs = timer_events (_now s) fired /\
    subseq fired (sort_entries (_timers s)) /\
    StronglySorted by_expiry fired /\
    _now (snd r) = _now s.
Proof.
  intros Hb ND Ft r.
  assert (H : fired_in_order (_timers s) (_trace s) (_now s) s).
  { unfold fired_in_order. conj_split; auto.
    exists [], []. rewrite app_nil_r. cbn [filter timer_events map app].
    conj_split; auto. apply subseq_refl. }
  pose proof (@ordered_runAllTimers _ idToRef refToId body (_timers s) (_trace s)
                (_now s) Hb s H) as (N & _ & _ & evs & fired & T & E & Sub).
  fold r in N, T, Sub. exists evs, fired.
  apply subseq_app_l in Sub.
  conj_split; auto.
  eapply subseq_sorted; [exact Sub | apply sort_entries_sorted].
Qed.

(** C1, counterexample: a timeout of 100 whose callback registers a
    timeout of 10.  [runAllTimers] does not move the clock, so the second
    timer is stored with expiry 10 and fires after the timer of expiry
    100: the expiries fired are not ascending. *)
Lemma runAllTimers_fires_later_expiry_first :
  fired_expiries
    (_trace (snd (runAllTimers id_idToRef id_refToId late_timeout timeout_100_late)))
  = [100; 10] /\
  ~ Sorted Z.le [100; 10].
Proof.
  split; [vm_compute; reflexivity |].
  intros H. inversion H as [| ? ? _ Hd]; subst.
  inversion Hd as [| ? ? Hle]; subst. lia.
Qed.

(** C1, as the code has it: timeouts of 100, 200 and 50 registered at
    virtual-now 0 are invoked by [runAllTimers] in the order 50, 100, 200
    with virtual-now still 0; the next-timer search answers exactly the
    stored timer of least expiry below one year, the earliest inserted among
    equal expiries, and an iteration of the loop of [runAllTimers] fires
    that timer and no other, whatever calls to the fakes the callbacks
    make.  When only timeouts are stored and no callback registers a timer
    or calls a method of the scheduler itself (the callbacks may clear
    timers, register ticks and immediates, or throw), the timers that
    [runAllTimers] fires form a subsequence of the stored timers in their
    stable order of ascending expiry; when moreover
    the callbacks make no call to the scheduler or its fakes and do not
    throw, and fewer than [maxLoops] timeouts, all less than a year away,
    are pending with no tick or immediate, [runAllTimers] fires all of them
    and leaves the clock alone. *)
Theorem timers_fire_in_expiry_order :
  (let r := runAllTimers id_idToRef id_refToId inert timeouts_100_200_50 in
   fst r = inr tt /\
   invocations (snd r) = [(50%nat, 0); (100%nat, 0); (200%nat, 0)] /\
   fired_expiries (_trace (snd r)) = [50; 100; 200] /\
   _now (snd r) = 0) /\
  (forall s h,
     _getNextTimerHandle s = Some h <-> exists t, earliest_in (_timers s) h t) /\
  (forall (TimerRef : Type) (idToRef : Z -> TimerRef)
          (refToId : TimerRef -> option Z) (body : nat -> list (Cmd TimerRef))
          (s : FakeTimers) (h : TimerID),
     NoDup (map fst (_timers s)) ->
     _getNextTimerHandle s = Some h ->
     exists t,
       earliest_in (_timers s) h t /\
       (is_timeout_or_interval t ->
        exists evs,
          _trace (snd (timers_iteration idToRef refToId body s))
          = _trace s
              ++ event_of (FromTimer (expiry t)) h (callback t) (_now s) :: evs /\
          Forall (fun e => is_timer_event e = false) evs)) /\
  (forall (TimerRef : Type) (idToRef : Z -> TimerRef)
          (refToId : TimerRef -> option Z) (body : nat -> list (Cmd TimerRef))
          (s : FakeTimers),
     (forall n, Forall registers_no_timer (body n)) ->
     NoDup (map fst (_timers s)) ->
     Forall (fun e => type (snd e) = "timeout") (_timers s) ->
     let r := runAllTimers idToRef refToId body s in
     (exists evs fired,
        _trace (snd r) = _trace s ++ evs /\
        filter is_timer_event evs = timer_events (_now s) fired /\
        subseq fired (sort_entries (_timers s)) /\
        StronglySorted by_expiry fired /\
        _now (snd r) = _now s) /\
     (forall x, filter (fun e => expiry (snd e) =? x) (sort_entries (_timers s))
                = filter (fun e => expiry (snd e) =? x) (_timers s))) /\
  (forall (TimerRef : Type) (idToRef : Z -> TimerRef)
          (refToId : TimerRef -> option Z) (body : nat -> list (Cmd TimerRef))
          (s : FakeTimers),
     (forall n, body n = []) ->
     only_near_timeouts s ->
     Z.of_nat (List.length (_timers s)) < _maxLoops s ->
     let r := runAllTimers idToRef refToId body s in
     let fired := sort_entries (_timers s) in
     fst r = inr tt /\
     _trace (snd r) = _trace s ++ timer_events (_now s) fired /\
     StronglySorted by_expiry fired /\
     (forall x, filter (fun e => expiry (snd e) =? x) fired
                = filter (fun e => expiry (snd e) =? x) (_timers s)) /\
     _timers (snd r) = [] /\
     _now (snd r) = _now s).
Proof.
  conj_split.
  - vm_compute. auto.
  - intros s h. split.
    + apply getNextTimerHandle_some.
    + intros [t Ht]. eapply getNextTimerHandle_earliest; eauto.
  - intros TimerRef idToRef refToId body s h ND Hn.
    destruct (getNextTimerHandle_some _ Hn) as (t & He).
    exists t. split; [exact He |]. intros Ht.
    apply timers_iteration_fires_next; auto.
    apply earliest_in_NoDup_get; assumption.
  - intros TimerRef idToRef refToId body s Hb ND Ft. split.
    + apply runAllTimers_ascending; assumption.
    + intros x. apply sort_entries_stable.
  - intros TimerRef idToRef refToId body s Hb Hs Hlen r fired.
    destruct (@runAllTimers_inert _ idToRef refToId body Hb s Hs Hlen)
      as (E & T & M & N).
    subst r fired. conj_split; auto.
    + apply sort_entries_sorted.
    + intros x. apply sort_entries_stable.
Qed.

Lemma timers_fire_in_expiry_order_witness :
  _trace (snd (runAllTimers id_idToRef id_refToId inert timeouts_100_200_50))
  = _trace timeouts_100_200_50
      ++ timer_events (_now timeouts_100_200_50)
           (sort_entries (_timers timeouts_100_200_50)).
Proof.
  refine (proj1 (proj2 (proj2 (proj2 (proj2 (proj2 timers_fire_in_expiry_order)))
                          Z id_idToRef id_refToId inert timeouts_100_200_50 _ _ _))).
  - reflexivity.
  - unfold only_near_timeouts.
    change (_timers timeouts_100_200_50)
      with [(1, mkTimer "timeout" (UserFn 100) 100 None);
            (2, mkTimer "timeout" (UserFn 200) 200 None);
            (3, mkTimer "timeout" (UserFn 50) 50 None)].
    conj_split; [reflexivity | reflexivity | |].
    + repeat constructor; simpl; intuition discriminate.
    + repeat constructor.
  - reflexivity.
Defined.

(** * Further properties of the scheduler *)

(** ** More facts about the timer map *)

Lemma Map_set_fresh m k v : ~ In k (map fst m) -> Map_set m k v = m ++ [(k, v)].
Proof.
  induction m as [| [k1 v1] m IH]; simpl; intros Hn; [reflexivity |].
  destruct (Z.eqb_spec k1 k); [exfalso; auto |]. f_equal. auto.
Qed.

Lemma Map_set_present_keys m k v t :
  Map_get m k = Some t -> map fst (Map_set m k v) = map fst m.
Proof.
  induction m as [| [k1 v1] m IH]; simpl; [discriminate |].
  destruct (Z.eqb_spec k1 k); simpl; [reflexivity |].
  intros H. f_equal. auto.
Qed.

Lemma Map_set_present_length m k v t :
  Map_get m k = Some t -> List.length (Map_set m k v) = List.length m.
Proof.
  intros H. rewrite <- (length_map fst), (@Map_set_present_keys m k v t H).
  apply length_map.
Qed.

Lemma keys_fresh (m : list (TimerID * Timer)) c :
  Forall (fun e => fst e < c) m -> ~ In c (map fst m).
Proof.
  intros F Hin. apply in_map_iff in Hin. destruct Hin as (e & E & Hin).
  rewrite Forall_forall in F. specialize (F e Hin). cbv beta in F.
  unfold TimerID in *. lia.
Qed.

Lemma NoDup_map_filter {A B} (f : A -> B) (p : A -> bool) l :
  NoDup (map f l) -> NoDup (map f (filter p l)).
Proof.
  induction l as [| x l IH]; simpl; intros ND; [constructor |].
  inversion ND as [| ? ? Hn ND']; subst.
  destruct (p x); simpl; [| auto]. constructor; [| auto].
  intros Hin. apply Hn. apply in_map_iff in Hin. destruct Hin as (y & E & Hy).
  apply filter_In in Hy. rewrite <- E. apply in_map. apply Hy.
Qed.

Lemma NoDup_snoc {A} (l : list A) x : NoDup l -> ~ In x l -> NoDup (l ++ [x]).
Proof.
  intros ND Hn. apply NoDup_app; [exact ND | repeat constructor; auto |].
  intros y Hy [E | []]. subst. auto.
Qed.

Lemma Map_delete_set_fresh m k v :
  ~ In k (map fst m) -> Map_delete (Map_set m k v) k = m.
Proof.
  intros Hn. rewrite (@Map_set_fresh m k v Hn).
  unfold Map_delete. rewrite filter_app. cbn [filter fst].
  rewrite Z.eqb_refl. cbn [negb]. rewrite app_nil_r.
  apply (Map_delete_absent m k). apply Map_get_absent. exact Hn.
Qed.

(** ** Installing and removing the fakes *)

Lemma Fn_eqb_refl f : Fn_eqb f f = true.
Proof.
  destruct f; simpl; rewrite ?Nat.eqb_refl, ?String.eqb_refl; reflexivity.
Qed.

Lemma same_fn_refl a : same_fn a a = true.
Proof. destruct a; simpl; [apply Fn_eqb_refl | reflexivity]. Qed.

(** X1: [useRealTimers] undoes [useFakeTimers]: the globals end as
    [useRealTimers] alone would leave them, the table of originals is never
    touched, and on a freshly constructed scheduler the host's globals are
    back exactly, whichever primitives the host defines. *)
Theorem useRealTimers_undoes_useFakeTimers
    (g : TimerAPI) (maxLoops : option Z) (s : FakeTimers) :
  _global (useRealTimers (useFakeTimers s)) = _global (useRealTimers s) /\
  _timerAPIs (useFakeTimers s) = _timerAPIs s /\
  _global (useRealTimers (useFakeTimers (constructor g maxLoops))) = g.
Proof.
  conj_split.
  - unfold useRealTimers, useFakeTimers, _createMocks, install. state_simpl.
    destruct (_global s) as [a b c d e f h i j].
    destruct a, b, f, h; reflexivity.
  - reflexivity.
  - unfold useRealTimers, useFakeTimers, _createMocks, install, constructor, reset.
    state_simpl. destruct g as [a b c d e f h i j].
    destruct a, b, f, h; reflexivity.
Qed.

(** X2: once [useFakeTimers] has run, [getTimerCount] changes nothing (no
    warning); on a scheduler whose fakes were never created it warns
    exactly when the host defines [setTimeout]. *)
Theorem getTimerCount_warns_unless_installed (s : FakeTimers) :
  snd (getTimerCount (useFakeTimers s)) = useFakeTimers s /\
  (_fakeTimerAPIs s = None ->
   _warnings (snd (getTimerCount s))
   = if is_function (setTimeout (_global s)) then S (_warnings s) else _warnings s).
Proof.
  split.
  - unfold getTimerCount, bind, modify, gets, ret. cbn [snd].
    unfold _checkFakeTimers, useFakeTimers, _createMocks, install. state_simpl.
    rewrite same_fn_refl. reflexivity.
  - intros Hf. unfold getTimerCount, bind, modify, gets, ret. cbn [snd].
    unfold _checkFakeTimers. rewrite Hf.
    destruct (setTimeout (_global s)); reflexivity.
Qed.

Lemma getTimerCount_warns_unless_installed_witness :
  _warnings (snd (getTimerCount (constructor host None))) = 1%nat.
Proof.
  exact (proj2 (getTimerCount_warns_unless_installed (constructor host None)) eq_refl).
Defined.

(** ** Registering and clearing *)

Lemma set_uuidCounter_timers s c :
  set_timers (set_uuidCounter s c) (_timers s) = set_uuidCounter s c.
Proof. destruct s; reflexivity. Qed.

Lemma set_uuidCounter_immediates s c :
  set_immediates (set_uuidCounter s c) (_immediates s) = set_uuidCounter s c.
Proof. destruct s; reflexivity. Qed.

Section Registering.

Variable TimerRef : Type.
Variable idToRef : Z -> TimerRef.
Variable refToId : TimerRef -> option Z.

(** X3: when the bridge translates the fresh handle back to its id,
    clearing the handle that [setTimeout] or [setInterval] has just returned
    removes the timer again: the state is as before, except that the id is
    used up. *)
Theorem clear_after_set (cb : Callback) (s : FakeTimers) :
  _disposed s = false ->
  keys_below s ->
  0 < _uuidCounter s ->
  refToId (idToRef (_uuidCounter s)) = Some (_uuidCounter s) ->
  (forall delay,
     fst (_fakeSetTimeout idToRef cb delay s) = Some (idToRef (_uuidCounter s)) /\
     _fakeClearTimer refToId (idToRef (_uuidCounter s))
       (snd (_fakeSetTimeout idToRef cb delay s))
     = set_uuidCounter s (_uuidCounter s + 1)) /\
  (forall intervalDelay,
     fst (_fakeSetInterval idToRef cb intervalDelay s)
     = Some (idToRef (_uuidCounter s)) /\
     _fakeClearTimer refToId (idToRef (_uuidCounter s))
       (snd (_fakeSetInterval idToRef cb intervalDelay s))
     = set_uuidCounter s (_uuidCounter s + 1)).
Proof.
  intros D KB Hpos Hb.
  assert (Hz : (_uuidCounter s =? 0) = false) by (apply Z.eqb_neq; lia).
  pose proof (keys_fresh KB) as Hfresh.
  split; intros d;
    unfold _fakeSetTimeout, _fakeSetInterval, _fakeClearTimer;
    rewrite D; cbn [fst snd]; (split; [reflexivity |]);
    rewrite Hb, Hz; state_simpl;
    rewrite Map_delete_set_fresh by exact Hfresh;
    apply set_uuidCounter_timers.
Qed.

End Registering.

Lemma clear_after_set_witness :
  _fakeClearTimer id_refToId 1
    (snd (_fakeSetTimeout id_idToRef (UserFn 0) (ms 100) (installed None)))
  = set_uuidCounter (installed None) 2.
Proof.
  refine (proj2 (proj1 (@clear_after_set Z id_idToRef id_refToId (UserFn 0)
                          (installed None) eq_refl _ _ eq_refl) (ms 100))).
  - constructor.
  - reflexivity.
Defined.

(** X4: [clearImmediate] of the id that [setImmediate] has just returned
    removes the immediate again, leaving the state as before except for the
    used-up id. *)
Theorem clearImmediate_after_setImmediate (cb : Callback) (s : FakeTimers) :
  _disposed s = false ->
  Forall (fun t => uuid t < _uuidCounter s) (_immediates s) ->
  fst (_fakeSetImmediate cb s) = Some (_uuidCounter s) /\
  _fakeClearImmediate (_uuidCounter s) (snd (_fakeSetImmediate cb s))
  = set_uuidCounter s (_uuidCounter s + 1).
Proof.
  intros D F. unfold _fakeSetImmediate, _fakeClearImmediate. rewrite D.
  cbn [fst snd]. split; [reflexivity |]. state_simpl.
  rewrite filter_app. cbn [filter uuid]. rewrite Z.eqb_refl. cbn [negb].
  rewrite app_nil_r.
  assert (E : filter (fun immediate => negb (uuid immediate =? _uuidCounter s))
                (_immediates s) = _immediates s).
  { clear D. induction (_immediates s) as [| t l IH]; [reflexivity |].
    inversion F; subst. cbn [filter].
    destruct (Z.eqb_spec (uuid t) (_uuidCounter s)); [lia |].
    cbn [negb]. f_equal. auto. }
  rewrite E. destruct s; reflexivity.
Qed.

Lemma clearImmediate_after_setImmediate_witness :
  _fakeClearImmediate 1 (snd (_fakeSetImmediate (UserFn 0) (installed None)))
  = set_uuidCounter (installed None) 2.
Proof.
  refine (proj2 (@clearImmediate_after_setImmediate (UserFn 0) (installed None)
                   eq_refl _)).
  constructor.
Defined.

Section Counting.

Variable TimerRef : Type.
Variable idToRef : Z -> TimerRef.

(** X5: on a scheduler that is not disposed, each registration through
    [setTimeout], [setInterval], [setImmediate] or [nextTick] raises
    [getTimerCount] by exactly one. *)
Theorem registration_counts_once (cb : Callback) (s : FakeTimers) :
  _disposed s = false ->
  keys_below s ->
  exists n,
    fst (getTimerCount s) = inr n /\
    (forall delay,
       fst (getTimerCount (snd (_fakeSetTimeout idToRef cb delay s))) = inr (n + 1)) /\
    (forall intervalDelay,
       fst (getTimerCount (snd (_fakeSetInterval idToRef cb intervalDelay s)))
       = inr (n + 1)) /\
    fst (getTimerCount (snd (_fakeSetImmediate cb s))) = inr (n + 1) /\
    fst (getTimerCount (_fakeNextTick cb s)) = inr (n + 1).
Proof.
  intros D KB. pose proof (keys_fresh KB) as Hfresh.
  eexists. split; [apply getTimerCount_value |].
  conj_split; intros; rewrite getTimerCount_value; f_equal;
    unfold _fakeSetTimeout, _fakeSetInterval, _fakeSetImmediate, _fakeNextTick;
    rewrite D; cbn [snd]; state_simpl; unfold Map_size;
    rewrite ?Map_set_fresh by exact Hfresh; rewrite ?length_app;
    cbn [List.length]; unfold TimerID; lia.
Qed.

End Counting.

Lemma registration_counts_once_witness :
  exists n,
    fst (getTimerCount pending_mix) = inr n /\
    fst (getTimerCount (_fakeNextTick (UserFn 0) pending_mix)) = inr (n + 1).
Proof.
  destruct (@registration_counts_once Z id_idToRef (UserFn 0) pending_mix eq_refl)
    as (n & E & _ & _ & _ & T).
  - unfold keys_below.
    change (_timers pending_mix)
      with [(1, mkTimer "timeout" (UserFn 0) 100 None);
            (2, mkTimer "interval" (UserFn 2) 30 (Some 30))].
    repeat constructor.
  - exists n. split; assumption.
Defined.

(** ** Wrap-around of the delay *)

Lemma truncate_integer n : truncate (n # 1) = n.
Proof. unfold truncate. simpl. apply Z.quot_1_r. Qed.

Lemma wrap32_periodic n k : wrap32 (n + k * 2 ^ 32) = wrap32 n.
Proof. unfold wrap32. rewrite Z.mod_add by lia. reflexivity. Qed.

(** X6: the delay of [setTimeout] wraps around at 32 bits: integer delays
    that differ by a multiple of 2^32 are the same delay, and a delay from
    2^31 up to 2^32 - 1 is stored as the negative number [delay - 2^32], so
    the timer's expiry lies before virtual-now. *)
Theorem setTimeout_delay_wraps
    (TimerRef : Type) (idToRef : Z -> TimerRef) (cb : Callback) (s : FakeTimers) :
  (forall n k,
     _fakeSetTimeout idToRef cb (ms (n + k * 2 ^ 32)) s
     = _fakeSetTimeout idToRef cb (ms n) s) /\
  (forall n,
     _disposed s = false ->
     2 ^ 31 <= n < 2 ^ 32 ->
     Map_get (_timers (snd (_fakeSetTimeout idToRef cb (ms n) s))) (_uuidCounter s)
     = Some (mkTimer "timeout" cb (_now s + (n - 2 ^ 32)) None) /\
     _now s + (n - 2 ^ 32) < _now s).
Proof.
  split.
  - intros n k. unfold _fakeSetTimeout. rewrite !bitor_zero. unfold ms.
    cbn [Number ToInt32]. rewrite !truncate_integer, wrap32_periodic. reflexivity.
  - intros n D Hn. split; [| lia].
    unfold _fakeSetTimeout. rewrite D, bitor_zero. cbn [snd]. state_simpl.
    rewrite Map_get_set_same. unfold ms. cbn [Number ToInt32].
    rewrite truncate_integer.
    replace (wrap32 n) with (n - 2 ^ 32); [reflexivity |].
    unfold wrap32. cbv zeta. rewrite Z.mod_small by lia.
    destruct (Z.leb_spec (2 ^ 31) n); lia.
Qed.

Lemma setTimeout_delay_wraps_witness :
  Map_get
    (_timers (snd (_fakeSetTimeout id_idToRef (UserFn 0) (ms 2147483648)
                     (installed None)))) 1
  = Some (mkTimer "timeout" (UserFn 0) (0 + (2147483648 - 2 ^ 32)) None).
Proof.
  refine (proj1 (proj2 (@setTimeout_delay_wraps Z id_idToRef (UserFn 0)
                          (installed None)) 2147483648 eq_refl _)).
  lia.
Defined.

(** ** Animation frames *)

(** X7: [requestAnimationFrame] registers a timeout sixteen milliseconds
    ahead (1000/60 truncated), and when such a timer fires, the callback is
    handed the virtual clock of that moment. *)
Theorem requestAnimationFrame_is_timeout_16
    (TimerRef : Type) (idToRef : Z -> TimerRef) (refToId : TimerRef -> option Z)
    (body : nat -> list (Cmd TimerRef)) (cb : nat) :
  (forall s,
     _disposed s = false ->
     _fakeRequestAnimationFrame idToRef cb s
     = (Some (idToRef (_uuidCounter s)),
        set_timers (set_uuidCounter s (_uuidCounter s + 1))
          (Map_set (_timers s) (_uuidCounter s)
             (mkTimer "timeout" (FrameFn cb) (_now s + 16) None)))) /\
  (forall s k e,
     Map_get (_timers s) k = Some (mkTimer "timeout" (FrameFn cb) e None) ->
     _trace (snd (_runTimerHandle idToRef refToId body k s))
     = _trace s ++ [mkEvent (FromTimer e) k cb (Some (_now s)) (_now s)]).
Proof.
  split.
  - intros s D. unfold _fakeRequestAnimationFrame, _fakeSetTimeout. rewrite D.
    reflexivity.
  - intros s k e Hg.
    rewrite (@runTimerHandle_fires _ idToRef refToId body k _ s Hg);
      [reflexivity | left; reflexivity].
Qed.

Lemma requestAnimationFrame_is_timeout_16_witness :
  expiries (snd (_fakeRequestAnimationFrame id_idToRef 0 (installed None))) = [16].
Proof.
  rewrite (proj1 (@requestAnimationFrame_is_timeout_16 Z id_idToRef id_refToId
                    inert 0) (installed None) eq_refl).
  reflexivity.
Defined.

(** ** Stepping to the next timer *)

Lemma min_fold_spec (l : list (TimerID * Timer)) :
  forall m,
    exists m',
      fold_left
        (fun (minExpiry : option Z) (e : TimerID * Timer) =>
           match minExpiry with
           | None => Some (expiry (snd e))
           | Some m => if expiry (snd e) <? m then Some (expiry (snd e)) else Some m
           end) l (Some m) = Some m' /\
      m' <= m /\
      Forall (fun e => m' <= expiry (snd e)) l /\
      (m' = m \/ exists e, In e l /\ expiry (snd e) = m').
Proof.
  induction l as [| x l IH]; intros m; cbn [fold_left].
  - exists m. conj_split; auto; lia.
  - destruct (Z.ltb_spec (expiry (snd x)) m) as [Hlt | Hge].
    + destruct (IH (expiry (snd x))) as (m' & E & Hle & F & Hw).
      exists m'. split; [exact E |]. split; [lia |]. split.
      * constructor; [lia | exact F].
      * right. destruct Hw as [-> | (e & He & Ee)].
        -- exists x. split; [left |]; reflexivity.
        -- exists e. split; [right |]; assumption.
    + destruct (IH m) as (m' & E & Hle & F & Hw).
      exists m'. split; [exact E |]. split; [lia |]. split.
      * constructor; [lia | exact F].
      * destruct Hw as [-> | (e & He & Ee)]; [left; reflexivity |].
        right. exists e. split; [right |]; assumption.
Qed.

(** X8: the expiry that [advanceTimersToNextTimer] steps to is the least
    expiry of all stored timers, with no one-year bound; there is none
    exactly when the map is empty. *)
Theorem nextExpiry_is_minimum (s : FakeTimers) :
  (nextExpiry s = None <-> _timers s = []) /\
  (forall m,
     nextExpiry s = Some m ->
     (exists e, In e (_timers s) /\ expiry (snd e) = m) /\
     Forall (fun e => m <= expiry (snd e)) (_timers s)).
Proof.
  unfold nextExpiry. destruct (_timers s) as [| x l]; cbn [fold_left].
  - split; [split; reflexivity | discriminate].
  - destruct (min_fold_spec l (expiry (snd x))) as (m' & E & Hle & F & Hw).
    rewrite E. split; [split; discriminate |].
    intros m [= <-]. split.
    + destruct Hw as [-> | (e & He & Ee)].
      * exists x. split; [left |]; reflexivity.
      * exists e. split; [right |]; assumption.
    + constructor; assumption.
Qed.

Lemma nextExpiry_is_minimum_witness :
  Forall (fun e => 50 <= expiry (snd e)) (_timers timeouts_100_200_50).
Proof.
  exact (proj2 (proj2 (nextExpiry_is_minimum timeouts_100_200_50) 50 eq_refl)).
Defined.

Lemma getNextTimerHandle_all_far s :
  Forall (fun e => MS_IN_A_YEAR <= expiry (snd e)) (_timers s) ->
  _getNextTimerHandle s = None.
Proof.
  intros F. destruct (_getNextTimerHandle s) as [h |] eqn:E; [| reflexivity].
  apply getNextTimerHandle_some in E. destruct E as (t & b & a & Hm & Hy & _).
  rewrite Hm in F. apply Forall_app in F. destruct F as [_ F].
  inversion F; subst. simpl in *. lia.
Qed.

Section Idle.

Variable TimerRef : Type.
Variable idToRef : Z -> TimerRef.
Variable refToId : TimerRef -> option Z.
Variable body : nat -> list (Cmd TimerRef).

Lemma advanceTimersByTime_idle msToRun s :
  Forall (fun e => MS_IN_A_YEAR <= expiry (snd e)) (_timers s) ->
  0 < _maxLoops s ->
  advanceTimersByTime idToRef refToId body msToRun s = (inr tt, _checkFakeTimers s).
Proof.
  intros F Hm.
  destruct (checkFakeTimers_fields s) as (Ct & _ & _ & _ & _ & _ & Cm).
  assert (N : _getNextTimerHandle (_checkFakeTimers s) = None).
  { apply getNextTimerHandle_all_far. rewrite Ct. exact F. }
  unfold advanceTimersByTime, bind, modify, gets. rewrite Cm.
  destruct (Z.to_nat (_maxLoops s)) as [| fuel] eqn:E; [lia |].
  cbn [advance_loop]. unfold bind, gets. rewrite N. cbn [ret].
  destruct (Z.eqb_spec 0 (_maxLoops s)); [lia | reflexivity].
Qed.

(** X9: when no stored timer is less than a year away (in particular when
    none is stored), [advanceTimersByTime] and [advanceTimersToNextTimer]
    return normally without moving the clock, whatever the amount or the
    number of steps, and fire nothing. *)
Theorem advancing_idle_keeps_clock (s : FakeTimers) :
  Forall (fun e => MS_IN_A_YEAR <= expiry (snd e)) (_timers s) ->
  0 < _maxLoops s ->
  (forall msToRun,
     advanceTimersByTime idToRef refToId body msToRun s
     = (inr tt, _checkFakeTimers s)) /\
  (forall steps,
     let r := advanceTimersToNextTimer idToRef refToId body steps s in
     fst r = inr tt /\
     _now (snd r) = _now s /\
     _timers (snd r) = _timers s /\
     _trace (snd r) = _trace s).
Proof.
  intros F Hm. split.
  - intros msToRun. apply advanceTimersByTime_idle; assumption.
  - intros steps. cbv zeta. unfold advanceTimersToNextTimer.
    generalize (Z.to_nat steps). intros n. revert s F Hm.
    induction n as [| n IH]; intros s F Hm.
    + cbn. auto.
    + destruct (nextExpiry s) as [next |] eqn:En.
      * assert (E : advance_steps idToRef refToId body (S n) s
                    = advance_steps idToRef refToId body n (_checkFakeTimers s)).
        { cbn [advance_steps]. unfold bind at 1, gets at 1. rewrite En.
          unfold bind at 1, gets at 1. unfold bind at 1.
          rewrite advanceTimersByTime_idle by assumption. reflexivity. }
        rewrite E.
        destruct (checkFakeTimers_fields s) as (Ct & _ & _ & Ctr & Cn & _ & Cm).
        destruct (IH (_checkFakeTimers s)) as (R & N & T & Tr).
        -- rewrite Ct. exact F.
        -- rewrite Cm. exact Hm.
        -- conj_split; congruence.
      * cbn [advance_steps]. unfold bind, gets. rewrite En. cbn. auto.
Qed.

(** X10: [advanceTimersToNextTimer] with fewer than one step, or with an
    empty timer map, leaves the state exactly as it is: it does not even
    check that the fakes are installed. *)
Theorem advanceTimersToNextTimer_nothing_to_do (steps : Z) (s : FakeTimers) :
  steps < 1 \/ _timers s = [] ->
  advanceTimersToNextTimer idToRef refToId body steps s = (inr tt, s).
Proof.
  unfold advanceTimersToNextTimer. intros [Hs | Ht].
  - replace (Z.to_nat steps) with 0%nat by lia. reflexivity.
  - destruct (Z.to_nat steps) as [| n]; [reflexivity |].
    cbn [advance_steps]. unfold bind, gets, nextExpiry. rewrite Ht. reflexivity.
Qed.

End Idle.

Lemma advancing_idle_keeps_clock_witness :
  advanceTimersByTime id_idToRef id_refToId inert 1000 (installed None)
  = (inr tt, _checkFakeTimers (installed None)).
Proof.
  refine (proj1 (@advancing_idle_keeps_clock Z id_idToRef id_refToId inert
                   (installed None) _ _) 1000).
  - constructor.
  - reflexivity.
Defined.

Lemma advanceTimersToNextTimer_nothing_to_do_witness :
  advanceTimersToNextTimer id_idToRef id_refToId inert 0 timeouts_100_200_50
  = (inr tt, timeouts_100_200_50).
Proof.
  apply (@advanceTimersToNextTimer_nothing_to_do Z id_idToRef id_refToId inert
           0 timeouts_100_200_50).
  left. reflexivity.
Defined.

(** ** What the drains never do *)

Section Never.

Variable TimerRef : Type.
Variable idToRef : Z -> TimerRef.
Variable refToId : TimerRef -> option Z.
Variable body : nat -> list (Cmd TimerRef).

(** X11: as long as the callbacks only call the fake primitives
    ([setTimeout], [setInterval], [setImmediate], [nextTick],
    [requestAnimationFrame] and the clearing functions) or throw, and so
    call none of the scheduler's own methods, [runAllTicks],
    [runAllImmediates], [runAllTimers] and [runOnlyPendingTimers] do not
    move the clock, whether or not the drain ends in an exception. *)
Theorem full_drains_keep_clock (s : FakeTimers) :
  _now (snd (runAllTicks idToRef refToId body s)) = _now s /\
  _now (snd (runAllImmediates idToRef refToId body s)) = _now s /\
  _now (snd (runAllTimers idToRef refToId body s)) = _now s /\
  _now (snd (runOnlyPendingTimers idToRef refToId body s)) = _now s.
Proof.
  set (I := fun x : FakeTimers => _now x = _now s).
  assert (I_body : forall n, preserves I (exec idToRef refToId (body n))).
  { intros n x Hx. unfold I in *. rewrite <- Hx. apply exec_trace. }
  assert (I_check : forall x, I x -> I (_checkFakeTimers x)).
  { intros x Hx. unfold I in *. rewrite <- Hx. apply checkFakeTimers_fields. }
  assert (I_event : forall ev x, I x -> I (set_trace x (_trace x ++ [ev])))
    by (intros ev x Hx; exact Hx).
  assert (I_tick : forall x t rest, _ticks x = t :: rest -> I x ->
            I (set_ticks x rest) /\
            I (set_cancelledTicks (set_ticks x rest) (uuid t :: _cancelledTicks x)))
    by (intros x t rest _ Hx; split; exact Hx).
  assert (I_shift : forall x t rest, _immediates x = t :: rest -> I x ->
            I (set_immediates x rest))
    by (intros x t rest _ Hx; exact Hx).
  assert (I_clear : forall id x, I x -> I (_fakeClearImmediate id x))
    by (intros id x Hx; exact Hx).
  assert (I_delete : forall k x, I x -> I (set_timers x (Map_delete (_timers x) k)))
    by (intros k x Hx; exact Hx).
  assert (I_resched : forall k t x, Map_get (_timers x) k = Some t -> I x ->
            I (set_timers x
                 (Map_set (_timers x) k
                    (mkTimer (type t) (callback t)
                       (_now x + or_zero (interval t)) (interval t)))))
    by (intros k t x _ Hx; exact Hx).
  conj_split.
  - apply (@inv_runAllTicks _ idToRef refToId body I); auto. reflexivity.
  - apply (@inv_runAllImmediates _ idToRef refToId body I); auto. reflexivity.
  - apply (@inv_runAllTimers _ idToRef refToId body I); auto. reflexivity.
  - apply (@inv_runOnlyPendingTimers _ idToRef refToId body I); auto. reflexivity.
Qed.

Lemma container_sizes_le_trans a b c :
  container_sizes_le a b -> container_sizes_le b c -> container_sizes_le a c.
Proof. unfold container_sizes_le. intros (A1 & A2 & A3) (B1 & B2 & B3). lia. Qed.

(** X12: a disposed scheduler stays disposed through every drain, and no
    drain makes a container grow, whatever the callbacks try to
    register. *)
Theorem disposed_drains_never_grow (s : FakeTimers) :
  _disposed s = true ->
  let quiet := fun s' => _disposed s' = true /\ container_sizes_le s' s in
  quiet (snd (runAllTicks idToRef refToId body s)) /\
  quiet (snd (runAllImmediates idToRef refToId body s)) /\
  quiet (snd (runAllTimers idToRef refToId body s)) /\
  quiet (snd (runOnlyPendingTimers idToRef refToId body s)) /\
  (forall msToRun, quiet (snd (advanceTimersByTime idToRef refToId body msToRun s))) /\
  (forall steps, quiet (snd (advanceTimersToNextTimer idToRef refToId body steps s))).
Proof.
  intros D quiet.
  assert (I_body : forall n, preserves quiet (exec idToRef refToId (body n))).
  { intros n x [Dx Lx]. destruct (exec_disposed idToRef refToId (body n) x Dx)
      as [D1 L1].
    split; [exact D1 | eapply container_sizes_le_trans; eauto]. }
  assert (I_ext : forall x y, quiet x -> _disposed y = _disposed x ->
            (List.length (_timers y) <= List.length (_timers x))%nat ->
            (List.length (_immediates y) <= List.length (_immediates x))%nat ->
            (List.length (_ticks y) <= List.length (_ticks x))%nat ->
            quiet y).
  { intros x y [Dx (L1 & L2 & L3)] E A B C. split; [congruence |].
    unfold container_sizes_le. lia. }
  assert (I_check : forall x, quiet x -> quiet (_checkFakeTimers x)).
  { intros x Hx. apply (I_ext x); auto;
      unfold _checkFakeTimers; destruct (same_fn _ _); auto. }
  assert (I_event : forall ev x, quiet x -> quiet (set_trace x (_trace x ++ [ev])))
    by (intros ev x Hx; apply (I_ext x); auto).
  assert (I_tick : forall x t rest, _ticks x = t :: rest -> quiet x ->
            quiet (set_ticks x rest) /\
            quiet (set_cancelledTicks (set_ticks x rest) (uuid t :: _cancelledTicks x))).
  { intros x t rest E Hx.
    split; apply (I_ext x); auto; state_simpl; rewrite E; simpl; lia. }
  assert (I_shift : forall x t rest, _immediates x = t :: rest -> quiet x ->
            quiet (set_immediates x rest)).
  { intros x t rest E Hx. apply (I_ext x); auto. state_simpl. rewrite E. simpl. lia. }
  assert (I_clear : forall id x, quiet x -> quiet (_fakeClearImmediate id x)).
  { intros id x Hx. apply (I_ext x); auto.
    unfold _fakeClearImmediate. state_simpl. apply filter_length_le. }
  assert (I_delete : forall k x, quiet x ->
            quiet (set_timers x (Map_delete (_timers x) k))).
  { intros k x Hx. apply (I_ext x); auto. state_simpl. apply Map_delete_length. }
  assert (I_resched : forall k t x, Map_get (_timers x) k = Some t -> quiet x ->
            quiet (set_timers x
                 (Map_set (_timers x) k
                    (mkTimer (type t) (callback t)
                       (_now x + or_zero (interval t)) (interval t))))).
  { intros k t x Hg Hx. apply (I_ext x); auto. state_simpl.
    rewrite (@Map_set_present_length (_timers x) k _ t Hg). lia. }
  assert (I_now : forall v x, quiet x -> quiet (set_now x v))
    by (intros v x Hx; apply (I_ext x); auto).
  assert (Q0 : quiet s) by (split; [exact D | unfold container_sizes_le; lia]).
  conj_split.
  - apply (@inv_runAllTicks _ idToRef refToId body quiet); auto.
  - apply (@inv_runAllImmediates _ idToRef refToId body quiet); auto.
  - apply (@inv_runAllTimers _ idToRef refToId body quiet); auto.
  - apply (@inv_runOnlyPendingTimers _ idToRef refToId body quiet); auto.
  - intros msToRun.
    apply (@inv_advanceTimersByTime _ idToRef refToId body quiet); auto.
  - intros steps.
    apply (@inv_advanceTimersToNextTimer _ idToRef refToId body quiet); auto.
Qed.

End Never.

Lemma disposed_drains_never_grow_witness :
  _disposed (snd (runAllTimers id_idToRef id_refToId respawn
                    (dispose one_tick_max5))) = true.
Proof.
  exact (proj1 (proj1 (proj2 (proj2
           (@disposed_drains_never_grow Z id_idToRef id_refToId respawn
              (dispose one_tick_max5) eq_refl))))).
Defined.

(** ** Ids are minted once *)

Lemma Forall_lt_succ {A} (f : A -> Z) c l :
  Forall (fun x => f x < c) l -> Forall (fun x => f x < c + 1) l.
Proof. intros F. eapply Forall_impl; [| exact F]. simpl. intros; lia. Qed.

Lemma uuids_fresh (l : list Tick) c :
  Forall (fun t => uuid t < c) l -> ~ In c (map uuid l).
Proof.
  intros F Hin. apply in_map_iff in Hin. destruct Hin as (e & E & Hin).
  rewrite Forall_forall in F. specialize (F e Hin). cbv beta in F.
  unfold TimerID in *. lia.
Qed.

Lemma Forall_filter {A} (P : A -> Prop) (p : A -> bool) l :
  Forall P l -> Forall P (filter p l).
Proof.
  intros F. apply Forall_forall. intros x Hx. apply filter_In in Hx.
  rewrite Forall_forall in F. apply F, Hx.
Qed.

Ltac minted :=
  first
    [ lia
    | assumption
    | apply (@Forall_lt_succ Tick uuid); assumption
    | apply (@Forall_lt_succ (TimerID * Timer) fst); assumption
    | apply (@Forall_lt_succ Z (fun k => k)); assumption
    | apply Forall_app; split;
      [ first [ apply (@Forall_lt_succ Tick uuid); assumption
              | apply (@Forall_lt_succ (TimerID * Timer) fst); assumption ]
      | repeat constructor; simpl; lia ]
    | rewrite map_app; apply NoDup_snoc; assumption ].

Lemma well_formed_check s : well_formed s -> well_formed (_checkFakeTimers s).
Proof.
  unfold _checkFakeTimers. destruct (same_fn _ _); [auto |].
  unfold well_formed, keys_below. state_simpl. auto.
Qed.

Lemma well_formed_insert v s :
  well_formed s ->
  well_formed (set_timers (set_uuidCounter s (_uuidCounter s + 1))
                 (Map_set (_timers s) (_uuidCounter s) v)).
Proof.
  intros (P & KB & ND & Fi & Ni & Ft & Nt & Fc).
  pose proof (keys_fresh KB) as Hfresh.
  unfold well_formed, keys_below in *. state_simpl.
  rewrite Map_set_fresh by exact Hfresh.
  conj_split; minted.
Qed.

Lemma well_formed_exec_cmd
    (TimerRef : Type) (idToRef : Z -> TimerRef) (refToId : TimerRef -> option Z)
    (c : Cmd TimerRef) :
  preserves well_formed (exec_cmd idToRef refToId c).
Proof.
  intros s W. destruct c; cbn [exec_cmd modify throw snd];
    unfold _fakeRequestAnimationFrame, _fakeSetTimeout, _fakeSetInterval,
      _fakeSetImmediate, _fakeNextTick, _fakeClearTimer, _fakeClearImmediate.
  - destruct (_disposed s); [exact W |]. cbn [snd]. state_simpl.
    apply well_formed_insert, W.
  - destruct (_disposed s); [exact W |]. cbn [snd]. state_simpl.
    apply well_formed_insert, W.
  - destruct (_disposed s); [exact W |].
    destruct W as (P & KB & ND & Fi & Ni & Ft & Nt & Fc).
    pose proof (uuids_fresh Fi) as Hfresh.
    unfold well_formed, keys_below in *. state_simpl. cbn [snd]. state_simpl.
    conj_split; minted.
  - destruct (_disposed s); [exact W |].
    destruct W as (P & KB & ND & Fi & Ni & Ft & Nt & Fc).
    pose proof (uuids_fresh Ft) as Hfresh.
    unfold well_formed, keys_below in *. state_simpl.
    conj_split; minted.
  - destruct (_disposed s); [exact W |]. cbn [snd]. state_simpl.
    apply well_formed_insert, W.
  - destruct (refToId timerRef) as [id |]; [| exact W].
    destruct (id =? 0); [exact W |].
    destruct W as (P & KB & ND & Fi & Ni & Ft & Nt & Fc).
    unfold well_formed, keys_below in *. state_simpl.
    conj_split; auto.
    + apply Forall_Map_delete. exact KB.
    + apply NoDup_map_filter. exact ND.
  - destruct W as (P & KB & ND & Fi & Ni & Ft & Nt & Fc).
    unfold well_formed, keys_below in *. state_simpl.
    conj_split; auto using Forall_filter, NoDup_map_filter.
  - exact W.
Qed.

Lemma well_formed_exec
    (TimerRef : Type) (idToRef : Z -> TimerRef) (refToId : TimerRef -> option Z)
    (cmds : list (Cmd TimerRef)) :
  preserves well_formed (exec idToRef refToId cmds).
Proof.
  induction cmds as [| c cmds IH]; cbn [exec].
  - apply preserves_ret.
  - apply preserves_bind; [apply well_formed_exec_cmd | intros _; exact IH].
Qed.

(** X13: a freshly constructed scheduler holds only ids minted by its
    counter, each at most once per container, and the counter is positive;
    every fake primitive and every lifecycle or installer operation keeps
    it so.  In particular [reset] does not rewind the counter, so an id is
    never handed out twice. *)
Theorem ids_minted_once
    (TimerRef : Type) (idToRef : Z -> TimerRef) (refToId : TimerRef -> option Z) :
  (forall g maxLoops, well_formed (constructor g maxLoops)) /\
  (forall s,
     well_formed s ->
     (forall c : Cmd TimerRef, well_formed (snd (exec_cmd idToRef refToId c s))) /\
     well_formed (reset s) /\
     _uuidCounter (reset s) = _uuidCounter s /\
     well_formed (clearAllTimers s) /\
     well_formed (dispose s) /\
     well_formed (useFakeTimers s) /\
     well_formed (useRealTimers s)).
Proof.
  split.
  - intros g m. unfold well_formed, keys_below. cbn.
    conj_split; try constructor.
  - intros s W. split; [intros c; apply well_formed_exec_cmd, W |].
    destruct W as (P & KB & ND & Fi & Ni & Ft & Nt & Fc).
    unfold well_formed, keys_below, reset, clearAllTimers, dispose, useFakeTimers,
      useRealTimers, _createMocks in *. state_simpl.
    conj_split; auto; constructor.
Qed.

Lemma ids_minted_once_witness :
  well_formed (snd (exec_cmd id_idToRef id_refToId (SetImmediate Z 0)
                      (constructor host None))).
Proof.
  refine (proj1 (proj2 (@ids_minted_once Z id_idToRef id_refToId)
                   (constructor host None) _) (SetImmediate Z 0)).
  apply (proj1 (@ids_minted_once Z id_idToRef id_refToId) host None).
Defined.

Section WellFormedDrains.

Variable TimerRef : Type.
Variable idToRef : Z -> TimerRef.
Variable refToId : TimerRef -> option Z.
Variable body : nat -> list (Cmd TimerRef).

(** X14: every drain keeps the ids minted once, whatever the callbacks do
    and however the drain ends: stored timer ids stay distinct and below
    the counter, and so do the ids of the queued ticks and immediates. *)
Theorem drains_keep_ids_minted_once (s : FakeTimers) :
  well_formed s ->
  well_formed (snd (runAllTicks idToRef refToId body s)) /\
  well_formed (snd (runAllImmediates idToRef refToId body s)) /\
  well_formed (snd (runAllTimers idToRef refToId body s)) /\
  well_formed (snd (runOnlyPendingTimers idToRef refToId body s)) /\
  (forall msToRun,
     well_formed (snd (advanceTimersByTime idToRef refToId body msToRun s))) /\
  (forall steps,
     well_formed (snd (advanceTimersToNextTimer idToRef refToId body steps s))).
Proof.
  intros W.
  assert (I_body : forall n, preserves well_formed (exec idToRef refToId (body n)))
    by (intros n; apply well_formed_exec).
  assert (I_event : forall ev x, well_formed x ->
            well_formed (set_trace x (_trace x ++ [ev])))
    by (intros ev x Hx; exact Hx).
  assert (I_tick : forall x t rest, _ticks x = t :: rest -> well_formed x ->
            well_formed (set_ticks x rest) /\
            well_formed (set_cancelledTicks (set_ticks x rest)
                           (uuid t :: _cancelledTicks x))).
  { intros x t rest E (P & KB & ND & Fi & Ni & Ft & Nt & Fc).
    rewrite E in Ft, Nt. inversion Ft; subst. cbn [map] in Nt.
    inversion Nt; subst.
    unfold well_formed, keys_below in *. state_simpl.
    split; conj_split; auto. }
  assert (I_shift : forall x t rest, _immediates x = t :: rest -> well_formed x ->
            well_formed (set_immediates x rest)).
  { intros x t rest E (P & KB & ND & Fi & Ni & Ft & Nt & Fc).
    rewrite E in Fi, Ni. inversion Fi; subst. cbn [map] in Ni.
    inversion Ni; subst.
    unfold well_formed, keys_below in *. state_simpl. conj_split; auto. }
  assert (I_clear : forall id x, well_formed x ->
            well_formed (_fakeClearImmediate id x)).
  { intros id x (P & KB & ND & Fi & Ni & Ft & Nt & Fc).
    unfold well_formed, keys_below, _fakeClearImmediate in *. state_simpl.
    conj_split; auto using Forall_filter, NoDup_map_filter. }
  assert (I_delete : forall k x, well_formed x ->
            well_formed (set_timers x (Map_delete (_timers x) k))).
  { intros k x (P & KB & ND & Fi & Ni & Ft & Nt & Fc).
    unfold well_formed, keys_below in *. state_simpl.
    conj_split; auto.
    - apply Forall_Map_delete. exact KB.
    - apply NoDup_map_filter. exact ND. }
  assert (I_resched : forall k t x, Map_get (_timers x) k = Some t ->
            well_formed x ->
            well_formed (set_timers x
                 (Map_set (_timers x) k
                    (mkTimer (type t) (callback t)
                       (_now x + or_zero (interval t)) (interval t))))).
  { intros k t x Hg (P & KB & ND & Fi & Ni & Ft & Nt & Fc).
    unfold well_formed, keys_below in *. state_simpl.
    conj_split; auto.
    - apply Forall_Map_set; [exact KB |]. simpl.
      apply Map_get_In in Hg. rewrite Forall_forall in KB. apply (KB (k, t) Hg).
    - rewrite (@Map_set_present_keys (_timers x) k _ t Hg). exact ND. }
  assert (I_now : forall v x, well_formed x -> well_formed (set_now x v))
    by (intros v x Hx; exact Hx).
  conj_split.
  - apply (@inv_runAllTicks _ idToRef refToId body well_formed);
      auto using well_formed_check.
  - apply (@inv_runAllImmediates _ idToRef refToId body well_formed);
      auto using well_formed_check.
  - apply (@inv_runAllTimers _ idToRef refToId body well_formed);
      auto using well_formed_check.
  - apply (@inv_runOnlyPendingTimers _ idToRef refToId body well_formed);
      auto using well_formed_check.
  - intros msToRun.
    apply (@inv_advanceTimersByTime _ idToRef refToId body well_formed);
      auto using well_formed_check.
  - intros steps.
    apply (@inv_advanceTimersToNextTimer _ idToRef refToId body well_formed);
      auto using well_formed_check.
Qed.

End WellFormedDrains.

Lemma drains_keep_ids_minted_once_witness :
  well_formed (snd (runAllTimers id_idToRef id_refToId late_timeout
                      (constructor host None))).
Proof.
  refine (proj1 (proj2 (proj2 (@drains_keep_ids_minted_once Z id_idToRef
                                 id_refToId late_timeout (constructor host None) _)))).
  apply (proj1 (@ids_minted_once Z id_idToRef id_refToId) host None).
Defined.

(** ** The clock under [advanceTimersByTime] *)

Lemma bitor_frame_delay : bitor (Number (JsNum (JsFinite (1000 # 60)))) (JsFinite 0) = 16.
Proof. reflexivity. Qed.

Lemma none_overdue_ext v s s' :
  _now s' = _now s -> _timers s' = _timers s ->
  none_overdue v s -> none_overdue v s'.
Proof. unfold none_overdue. intros -> ->. auto. Qed.

Lemma none_overdue_insert v s c t :
  none_overdue v s ->
  v <= expiry t -> 0 <= or_zero (interval t) ->
  none_overdue v
    (set_timers (set_uuidCounter s (_uuidCounter s + 1)) (Map_set (_timers s) c t)).
Proof.
  intros [N F] He Hi. unfold none_overdue. state_simpl. split; [exact N |].
  apply Forall_Map_set; [exact F |]. simpl. auto.
Qed.

Section Forward.

Variable TimerRef : Type.
Variable idToRef : Z -> TimerRef.
Variable refToId : TimerRef -> option Z.
Variable body : nat -> list (Cmd TimerRef).
Hypothesis forward_bodies : forall n, Forall forward (body n).

Lemma none_overdue_exec_cmd v c :
  forward c -> preserves (none_overdue v) (exec_cmd idToRef refToId c).
Proof.
  intros Hc s H. pose proof H as [N F].
  destruct c; cbn [exec_cmd modify throw snd];
    unfold _fakeRequestAnimationFrame, _fakeSetTimeout, _fakeSetInterval,
      _fakeSetImmediate, _fakeNextTick, _fakeClearTimer, _fakeClearImmediate.
  - destruct (_disposed s); [exact H |]. cbn [snd]. state_simpl.
    apply none_overdue_insert; [exact H | simpl in *; lia | simpl; lia].
  - destruct (_disposed s); [exact H |]. cbn [snd]. state_simpl.
    apply none_overdue_insert; [exact H | |];
      destruct intervalDelay as [d |]; simpl in *;
      try destruct (Z.eqb_spec d 0); lia.
  - destruct (_disposed s); [exact H |].
    eapply none_overdue_ext; [| | exact H]; reflexivity.
  - destruct (_disposed s); [exact H |].
    eapply none_overdue_ext; [| | exact H]; reflexivity.
  - destruct (_disposed s); [exact H |]. cbn [snd]. state_simpl.
    apply none_overdue_insert; [exact H | | simpl; lia].
    cbn [expiry]. rewrite bitor_frame_delay. lia.
  - destruct (refToId timerRef) as [id |]; [| exact H].
    destruct (id =? 0); [exact H |].
    unfold none_overdue. state_simpl. split; [exact N |].
    apply Forall_Map_delete. exact F.
  - eapply none_overdue_ext; [| | exact H]; reflexivity.
  - exact H.
Qed.

Lemma none_overdue_exec v cmds :
  Forall forward cmds -> preserves (none_overdue v) (exec idToRef refToId cmds).
Proof.
  induction 1 as [| c cmds Hc Hcs IH]; cbn [exec].
  - apply preserves_ret.
  - apply preserves_bind; [apply none_overdue_exec_cmd, Hc | intros _; exact IH].
Qed.

Lemma none_overdue_runTimerHandle v k :
  preserves (none_overdue v) (_runTimerHandle idToRef refToId body k).
Proof.
  apply (@inv_runTimerHandle _ idToRef refToId body (none_overdue v)).
  - intros n. apply none_overdue_exec, forward_bodies.
  - intros ev s H. exact H.
  - intros h s [N F]. unfold none_overdue. state_simpl. split; [exact N |].
    apply Forall_Map_delete. exact F.
  - intros h t s Hg [N F]. unfold none_overdue. state_simpl. split; [exact N |].
    apply Forall_Map_set; [exact F |]. simpl.
    apply Map_get_In in Hg. rewrite Forall_forall in F.
    destruct (F (h, t) Hg) as [_ Hi]. simpl in Hi. lia.
Qed.

Lemma well_formed_runTimerHandle k :
  preserves well_formed (_runTimerHandle idToRef refToId body k).
Proof.
  intros s W. rewrite runTimerHandle_unfold.
  destruct (Map_get (_timers s) k) as [t |] eqn:Hg; [| exact W].
  assert (Hc : forall src x, well_formed x ->
            well_formed (snd (call idToRef refToId body src k (callback t) x))).
  { intros src x Hx. unfold call. apply well_formed_exec. exact Hx. }
  destruct W as (P & KB & ND & Fi & Ni & Ft & Nt & Fc).
  destruct (String.eqb (type t) "timeout").
  - apply Hc. unfold well_formed, keys_below in *. state_simpl.
    conj_split; auto.
    + apply Forall_Map_delete. exact KB.
    + apply NoDup_map_filter. exact ND.
  - destruct (String.eqb (type t) "interval").
    + apply Hc. unfold well_formed, keys_below in *. state_simpl.
      conj_split; auto.
      * apply Forall_Map_set; [exact KB |]. simpl.
        apply Map_get_In in Hg. rewrite Forall_forall in KB. apply (KB (k, t) Hg).
      * rewrite (@Map_set_present_keys (_timers s) k _ t Hg). exact ND.
    + unfold well_formed, keys_below. conj_split; auto.
Qed.

Lemma advance_loop_unfold fuel i msToRun s :
  advance_loop idToRef refToId body (S fuel) i msToRun s =
  match _getNextTimerHandle s with
  | None => (inr i, s)
  | Some h =>
      match Map_get (_timers s) h with
      | None => (inr i, s)
      | Some t =>
          if _now s + msToRun <? expiry t
          then (inr i, set_now s (_now s + msToRun))
          else
            match _runTimerHandle idToRef refToId body h (set_now s (expiry t)) with
            | (inl e, s2) => (inl e, s2)
            | (inr _, s2) =>
                advance_loop idToRef refToId body fuel (i + 1)
                  (msToRun - (expiry t - _now s)) s2
            end
      end
  end.
Proof.
  cbn [advance_loop]. unfold bind, gets, modify, ret.
  destruct (_getNextTimerHandle s) as [h |]; [| reflexivity].
  destruct (Map_get (_timers s) h) as [t |]; [| reflexivity].
  destruct (_now s + msToRun <? expiry t); [reflexivity |].
  destruct (_runTimerHandle idToRef refToId body h (set_now s (expiry t)))
    as [[e | []] s2]; reflexivity.
Qed.

Lemma advance_loop_forward fuel :
  forall i msToRun v s,
    0 <= msToRun ->
    well_formed s ->
    none_overdue v s ->
    exists v',
      v <= v' <= v + msToRun /\
      well_formed (snd (advance_loop idToRef refToId body fuel i msToRun s)) /\
      none_overdue v' (snd (advance_loop idToRef refToId body fuel i msToRun s)).
Proof.
  induction fuel as [| fuel IH]; intros i msToRun v s Hms W H.
  - exists v. cbn [advance_loop ret snd]. conj_split; auto; lia.
  - rewrite advance_loop_unfold.
    destruct (_getNextTimerHandle s) as [h |] eqn:En;
      [| exists v; cbn [snd]; conj_split; auto; lia].
    destruct (getNextTimerHandle_some _ En) as (t & He).
    assert (ND : NoDup (map fst (_timers s))) by apply W.
    pose proof (earliest_in_NoDup_get ND He) as Hg.
    assert (Hmin : Forall (fun e => expiry t <= expiry (snd e)) (_timers s)).
    { destruct He as (b & a & Hm & _ & Fb & Fa). rewrite Hm.
      apply Forall_app. split.
      - eapply Forall_impl; [| exact Fb]. simpl. intros; lia.
      - constructor; [simpl; lia | exact Fa]. }
    destruct H as [N F].
    assert (Hvt : v <= expiry t).
    { apply Map_get_In in Hg. rewrite Forall_forall in F.
      apply (F (h, t) Hg). }
    rewrite Hg, N.
    destruct (Z.ltb_spec (v + msToRun) (expiry t)) as [Hlt | Hge].
    + exists (v + msToRun). cbn [snd].
      conj_split; [lia | lia | exact W |].
      unfold none_overdue. state_simpl. split; [lia |].
      rewrite Forall_forall in *. intros e Hin.
      specialize (F e Hin). specialize (Hmin e Hin). simpl in *. lia.
    + set (s1 := set_now s (expiry t)).
      assert (W1 : well_formed s1) by exact W.
      assert (H1 : none_overdue (expiry t) s1).
      { unfold none_overdue, s1. state_simpl. split; [reflexivity |].
        rewrite Forall_forall in *. intros e Hin.
        specialize (F e Hin). specialize (Hmin e Hin). simpl in *. lia. }
      pose proof (well_formed_runTimerHandle h W1) as W2.
      pose proof (none_overdue_runTimerHandle h H1) as H2.
      destruct (_runTimerHandle idToRef refToId body h s1) as [[e | []] s2];
        cbn [snd] in W2, H2.
      * exists (expiry t). cbn [snd]. conj_split; auto; lia.
      * destruct (IH (i + 1) (msToRun - (expiry t - v)) (expiry t) s2
                    ltac:(lia) W2 H2) as (v' & Hv' & W3 & H3).
        exists v'. conj_split; auto; lia.
Qed.

(** X15: when no stored timer is overdue, no stored interval is negative,
    and the callbacks register neither a timeout with a negative coerced
    delay nor a negative interval, [advanceTimersByTime(ms)] with [ms >= 0]
    never sets the clock back and never moves it beyond [now + ms]; no
    timer is overdue afterwards either. *)
Theorem advanceTimersByTime_clock_bounds (msToRun : Z) (s : FakeTimers) :
  0 <= msToRun ->
  well_formed s ->
  none_overdue (_now s) s ->
  let s' := snd (advanceTimersByTime idToRef refToId body msToRun s) in
  _now s <= _now s' <= _now s + msToRun /\
  well_formed s' /\
  none_overdue (_now s') s'.
Proof.
  intros Hms W H. cbv zeta.
  destruct (checkFakeTimers_fields s) as (Ct & _ & _ & _ & Cn & _ & _).
  assert (W0 : well_formed (_checkFakeTimers s)) by (apply well_formed_check, W).
  assert (H0 : none_overdue (_now s) (_checkFakeTimers s)).
  { eapply none_overdue_ext; [exact Cn | exact Ct | exact H]. }
  destruct (advance_loop_forward (Z.to_nat (_maxLoops (_checkFakeTimers s))) 0
              Hms W0 H0) as (v' & Hv & W1 & H1).
  assert (E : snd (advanceTimersByTime idToRef refToId body msToRun s)
              = snd (advance_loop idToRef refToId body
                       (Z.to_nat (_maxLoops (_checkFakeTimers s))) 0 msToRun
                       (_checkFakeTimers s))).
  { unfold advanceTimersByTime, bind, modify, gets.
    destruct (advance_loop idToRef refToId body
                (Z.to_nat (_maxLoops (_checkFakeTimers s))) 0 msToRun
                (_checkFakeTimers s)) as [[e | i] s1]; [reflexivity |].
    cbn [snd]. destruct (i =? _maxLoops (_checkFakeTimers s)); reflexivity. }
  rewrite E. pose proof H1 as [N1 _]. rewrite N1.
  conj_split; auto; lia.
Qed.

End Forward.

Lemma advanceTimersByTime_clock_bounds_witness :
  _now interval_30
  <= _now (snd (advanceTimersByTime id_idToRef id_refToId late_timeout 100 interval_30))
  <= _now interval_30 + 100.
Proof.
  refine (proj1 (@advanceTimersByTime_clock_bounds Z id_idToRef id_refToId
                   late_timeout _ 100 interval_30 _ _ _)).
  - intros [| n]; simpl; repeat constructor. discriminate.
  - lia.
  - unfold well_formed, keys_below.
    change (_timers interval_30)
      with [(1, mkTimer "interval" (UserFn 7) 30 (Some 30))].
    cbn. conj_split; repeat constructor; simpl; intuition.
  - unfold none_overdue.
    change (_timers interval_30)
      with [(1, mkTimer "interval" (UserFn 7) 30 (Some 30))].
    cbn. split; [reflexivity |]. repeat constructor; simpl; discriminate.
Defined.

(** ** Cleared timers *)

Lemma Map_get_none_keys m k : Map_get m k = None -> ~ In k (map fst m).
Proof.
  induction m as [| [k1 v1] m IH]; simpl; intros H; [tauto |].
  destruct (Z.eqb_spec k1 k); [discriminate |]. intros [E | E]; [auto |].
  apply IH; assumption.
Qed.

Lemma count_fired_none h evs :
  Forall (fun e => is_timer_event e = false) evs -> count_fired h evs = 0%nat.
Proof.
  unfold count_fired. induction 1 as [| e evs He _ IH]; [reflexivity |].
  cbn [filter]. rewrite He. exact IH.
Qed.

Lemma count_fired_others h evs :
  ~ In h (map ev_uuid evs) -> count_fired h evs = 0%nat.
Proof.
  unfold count_fired. induction evs as [| e evs IH]; [reflexivity |].
  cbn [map In filter]. intros Hn.
  destruct (Z.eqb_spec (ev_uuid e) h) as [E | E]; [exfalso; auto |].
  rewrite andb_false_r. apply IH. intros Hin. apply Hn. right. exact Hin.
Qed.

Section Cleared.

Variable TimerRef : Type.
Variable idToRef : Z -> TimerRef.
Variable refToId : TimerRef -> option Z.
Variable body : nat -> list (Cmd TimerRef).
Variable h : TimerID.

Lemma absent_insert c t s :
  absent h s -> c = _uuidCounter s ->
  absent h (set_timers (set_uuidCounter s (_uuidCounter s + 1))
              (Map_set (_timers s) c t)).
Proof.
  intros [B G] ->. unfold absent. state_simpl. split; [lia |].
  rewrite Map_get_set_other by lia. exact G.
Qed.

Lemma absent_delete k s :
  absent h s -> absent h (set_timers s (Map_delete (_timers s) k)).
Proof.
  intros [B G]. unfold absent. state_simpl. split; [exact B |].
  destruct (Z.eq_dec k h) as [-> | Hne].
  - apply Map_get_delete_same.
  - rewrite Map_get_delete_other by exact Hne. exact G.
Qed.

Lemma absent_ext s s' :
  _uuidCounter s <= _uuidCounter s' -> _timers s' = _timers s ->
  absent h s -> absent h s'.
Proof. unfold absent. intros Hc ->. intros [B G]. split; [lia | exact G]. Qed.

Lemma absent_exec_cmd c : preserves (absent h) (exec_cmd idToRef refToId c).
Proof.
  intros s H.
  destruct c; cbn [exec_cmd modify throw snd];
    unfold _fakeRequestAnimationFrame, _fakeSetTimeout, _fakeSetInterval,
      _fakeSetImmediate, _fakeNextTick, _fakeClearTimer, _fakeClearImmediate.
  - destruct (_disposed s); [exact H |]. cbn [snd]. state_simpl.
    apply absent_insert; [exact H | reflexivity].
  - destruct (_disposed s); [exact H |]. cbn [snd]. state_simpl.
    apply absent_insert; [exact H | reflexivity].
  - destruct (_disposed s); [exact H |].
    eapply absent_ext; [| | exact H]; cbn [snd]; state_simpl; [lia | reflexivity].
  - destruct (_disposed s); [exact H |].
    eapply absent_ext; [| | exact H]; cbn [snd]; state_simpl; [lia | reflexivity].
  - destruct (_disposed s); [exact H |]. cbn [snd]. state_simpl.
    apply absent_insert; [exact H | reflexivity].
  - destruct (refToId timerRef) as [id |]; [| exact H].
    destruct (id =? 0); [exact H |]. apply absent_delete, H.
  - eapply absent_ext; [| | exact H]; state_simpl; [lia | reflexivity].
  - exact H.
Qed.

Lemma absent_exec cmds : preserves (absent h) (exec idToRef refToId cmds).
Proof.
  induction cmds as [| c cmds IH]; cbn [exec].
  - apply preserves_ret.
  - apply preserves_bind; [apply absent_exec_cmd | intros _; exact IH].
Qed.

Lemma absent_dormant t0 s :
  absent h s -> dormant h t0 (count_fired h (_trace s)) s.
Proof.
  intros [B G]. unfold dormant. conj_split; [exact B | | reflexivity].
  apply Forall_forall. intros e Hin E. exfalso.
  apply (Map_get_none_keys _ _ G). rewrite <- E. apply in_map, Hin.
Qed.

(** A timer id that is no longer stored never fires again: each drain
    leaves its number of firings unchanged and the id unused. *)
Lemma absent_after_drain (s : FakeTimers) :
  absent h s ->
  forall s',
    s' = snd (runAllTicks idToRef refToId body s) \/
    s' = snd (runAllImmediates idToRef refToId body s) \/
    s' = snd (runAllTimers idToRef refToId body s) \/
    s' = snd (runOnlyPendingTimers idToRef refToId body s) \/
    (exists msToRun,
       s' = snd (advanceTimersByTime idToRef refToId body msToRun s)) \/
    (exists steps,
       s' = snd (advanceTimersToNextTimer idToRef refToId body steps s)) ->
    count_fired h (_trace s') = count_fired h (_trace s) /\ absent h s'.
Proof.
  intros A s' Hs'.
  assert (I_body : forall n, preserves (absent h) (exec idToRef refToId (body n)))
    by (intros n; apply absent_exec).
  assert (I_check : forall x, absent h x -> absent h (_checkFakeTimers x)).
  { intros x Hx.
    destruct (checkFakeTimers_fields x) as (Ct & _ & _ & _ & _ & Cu & _).
    eapply absent_ext; [| exact Ct | exact Hx]. rewrite Cu. lia. }
  assert (I_event : forall ev x, absent h x ->
            absent h (set_trace x (_trace x ++ [ev])))
    by (intros ev x Hx; exact Hx).
  assert (I_tick : forall x t rest, _ticks x = t :: rest -> absent h x ->
            absent h (set_ticks x rest) /\
            absent h (set_cancelledTicks (set_ticks x rest)
                        (uuid t :: _cancelledTicks x)))
    by (intros x t rest _ Hx; split; exact Hx).
  assert (I_shift : forall x t rest, _immediates x = t :: rest -> absent h x ->
            absent h (set_immediates x rest))
    by (intros x t rest _ Hx; exact Hx).
  assert (I_clear : forall id x, absent h x -> absent h (_fakeClearImmediate id x))
    by (intros id x Hx; exact Hx).
  assert (I_delete : forall k x, absent h x ->
            absent h (set_timers x (Map_delete (_timers x) k)))
    by (intros k x Hx; apply absent_delete, Hx).
  assert (I_resched : forall k t x, Map_get (_timers x) k = Some t ->
            absent h x ->
            absent h (set_timers x
                 (Map_set (_timers x) k
                    (mkTimer (type t) (callback t)
                       (_now x + or_zero (interval t)) (interval t))))).
  { intros k t x Hg [B G]. unfold absent. state_simpl. split; [exact B |].
    rewrite Map_get_set_other; [exact G |]. intros ->. congruence. }
  assert (I_now : forall v x, absent h x -> absent h (set_now x v))
    by (intros v x Hx; exact Hx).
  set (t0 := mkTimer "timeout" (UserFn 0) MS_IN_A_YEAR None).
  assert (far : MS_IN_A_YEAR <= expiry t0) by (cbn; lia).
  pose proof (absent_dormant t0 A) as D.
  destruct Hs' as [-> | [-> | [-> | [-> | [[msToRun ->] | [steps ->]]]]]].
  - split.
    + apply (@dormant_runAllTicks _ idToRef refToId body h t0 _ s D).
    + apply (@inv_runAllTicks _ idToRef refToId body (absent h)); auto.
  - split.
    + apply (@dormant_runAllImmediates _ idToRef refToId body h t0 _ s D).
    + apply (@inv_runAllImmediates _ idToRef refToId body (absent h)); auto.
  - split.
    + apply (@dormant_runAllTimers _ idToRef refToId body h t0 _ far s D).
    + apply (@inv_runAllTimers _ idToRef refToId body (absent h)); auto.
  - split.
    + destruct (runOnlyPendingTimers_any idToRef refToId body s)
        as (ievs & tevs & T & Fi & _ & Sub & _).
      rewrite T, !count_fired_concat.
      rewrite (@count_fired_none h ievs).
      * rewrite (@count_fired_others h tevs); [lia |].
        intros Hin. apply (@subseq_In _ _ _ h Sub) in Hin.
        destruct A as [_ G]. apply (Map_get_none_keys _ _ G).
        eapply Permutation_in; [| exact Hin].
        apply Permutation_map, sort_entries_perm.
      * eapply Forall_impl; [| exact Fi].
        intros e He. unfold is_timer_event. rewrite He. reflexivity.
    + apply (@inv_runOnlyPendingTimers _ idToRef refToId body (absent h)); auto.
  - split.
    + apply (@dormant_advanceTimersByTime _ idToRef refToId body h t0 _ far
               msToRun s D).
    + apply (@inv_advanceTimersByTime _ idToRef refToId body (absent h)); auto.
  - split.
    + apply (@dormant_advance_steps _ idToRef refToId body h t0 _ far
               (Z.to_nat steps) s D).
    + apply (@inv_advanceTimersToNextTimer _ idToRef refToId body (absent h));
        auto.
Qed.

(** X16: once [clearTimeout] or [clearInterval] has been called on the
    reference of a minted id, the timer never fires: whatever the callbacks
    do, each drain run afterwards leaves its number of firings unchanged
    and the id unused; the other stored timers are not touched by the
    clearing. *)
Theorem cleared_timer_never_fires (timerRef : TimerRef) (s : FakeTimers) :
  refToId timerRef = Some h ->
  h <> 0 ->
  h < _uuidCounter s ->
  let s1 := _fakeClearTimer refToId timerRef s in
  (forall k, k <> h -> Map_get (_timers s1) k = Map_get (_timers s) k) /\
  forall s',
    s' = snd (runAllTicks idToRef refToId body s1) \/
    s' = snd (runAllImmediates idToRef refToId body s1) \/
    s' = snd (runAllTimers idToRef refToId body s1) \/
    s' = snd (runOnlyPendingTimers idToRef refToId body s1) \/
    (exists msToRun,
       s' = snd (advanceTimersByTime idToRef refToId body msToRun s1)) \/
    (exists steps,
       s' = snd (advanceTimersToNextTimer idToRef refToId body steps s1)) ->
    count_fired h (_trace s') = count_fired h (_trace s) /\ absent h s'.
Proof.
  intros Hr Hz B. cbv zeta.
  assert (E : _fakeClearTimer refToId timerRef s
              = set_timers s (Map_delete (_timers s) h)).
  { unfold _fakeClearTimer. rewrite Hr.
    destruct (Z.eqb_spec h 0) as [E | _]; [contradiction | reflexivity]. }
  rewrite E. split.
  - intros k Hk. state_simpl. apply Map_get_delete_other. auto.
  - intros s' Hs'.
    assert (A : absent h (set_timers s (Map_delete (_timers s) h))).
    { unfold absent. state_simpl. split; [exact B | apply Map_get_delete_same]. }
    exact (absent_after_drain A Hs').
Qed.

End Cleared.

Lemma cleared_timer_never_fires_witness :
  count_fired 1
    (_trace (snd (runAllTimers id_idToRef id_refToId inert
                    (_fakeClearTimer id_refToId 1 timeout_100_late))))
  = count_fired 1 (_trace timeout_100_late).
Proof.
  refine (proj1 (proj2 (@cleared_timer_never_fires Z id_idToRef id_refToId inert
                          1 1 timeout_100_late _ _ _) _ _)).
  - reflexivity.
  - lia.
  - reflexivity.
  - right. right. left. reflexivity.
Defined.

(** ** A timeout fires once *)

Section Once.

Variable TimerRef : Type.
Variable idToRef : Z -> TimerRef.
Variable refToId : TimerRef -> option Z.
Variable body : nat -> list (Cmd TimerRef).
Variable h : TimerID.
Variable t0 : Timer.
Variable n0 : nat.
Hypothesis is_timeout : type t0 = "timeout".

Local Abbreviation J := (fired_at_most_once h t0 n0).

Lemma once_ext s s' :
  _uuidCounter s <= _uuidCounter s' -> _timers s' = _timers s ->
  _trace s' = _trace s -> J s -> J s'.
Proof.
  unfold fired_at_most_once. intros Hc -> ->. intros [B G]. split; [lia | exact G].
Qed.

Lemma once_insert c t s :
  J s -> c = _uuidCounter s ->
  J (set_timers (set_uuidCounter s (_uuidCounter s + 1)) (Map_set (_timers s) c t)).
Proof.
  intros [B G] ->. unfold fired_at_most_once. state_simpl. split; [lia |].
  rewrite Map_get_set_other by lia. exact G.
Qed.

Lemma once_delete k s : J s -> J (set_timers s (Map_delete (_timers s) k)).
Proof.
  intros [B G]. unfold fired_at_most_once. state_simpl. split; [exact B |].
  destruct (Z.eq_dec k h) as [-> | Hne].
  - right. rewrite Map_get_delete_same. split; [reflexivity |].
    destruct G as [[_ G] | [_ G]]; lia.
  - rewrite Map_get_delete_other by exact Hne. exact G.
Qed.

Lemma once_exec_cmd c : preserves J (exec_cmd idToRef refToId c).
Proof.
  intros s H.
  destruct c; cbn [exec_cmd modify throw snd];
    unfold _fakeRequestAnimationFrame, _fakeSetTimeout, _fakeSetInterval,
      _fakeSetImmediate, _fakeNextTick, _fakeClearTimer, _fakeClearImmediate.
  - destruct (_disposed s); [exact H |]. cbn [snd]. state_simpl.
    apply once_insert; [exact H | reflexivity].
  - destruct (_disposed s); [exact H |]. cbn [snd]. state_simpl.
    apply once_insert; [exact H | reflexivity].
  - destruct (_disposed s); [exact H |].
    eapply once_ext; [| | | exact H]; cbn [snd]; state_simpl;
      [lia | reflexivity | reflexivity].
  - destruct (_disposed s); [exact H |].
    eapply once_ext; [| | | exact H]; cbn [snd]; state_simpl;
      [lia | reflexivity | reflexivity].
  - destruct (_disposed s); [exact H |]. cbn [snd]. state_simpl.
    apply once_insert; [exact H | reflexivity].
  - destruct (refToId timerRef) as [id |]; [| exact H].
    destruct (id =? 0); [exact H |]. apply once_delete, H.
  - eapply once_ext; [| | | exact H]; state_simpl;
      [lia | reflexivity | reflexivity].
  - exact H.
Qed.

Lemma once_exec cmds : preserves J (exec idToRef refToId cmds).
Proof.
  induction cmds as [| c cmds IH]; cbn [exec].
  - apply preserves_ret.
  - apply preserves_bind; [apply once_exec_cmd | intros _; exact IH].
Qed.

Lemma once_other_event ev s :
  is_timer_event ev && (ev_uuid ev =? h) = false ->
  J s -> J (set_trace s (_trace s ++ [ev])).
Proof.
  intros Hev [B G]. unfold fired_at_most_once. state_simpl.
  rewrite count_fired_app, Hev, Nat.add_0_r. split; assumption.
Qed.

Lemma once_fire k : preserves J (_runTimerHandle idToRef refToId body k).
Proof.
  intros s H. rewrite runTimerHandle_unfold.
  destruct (Map_get (_timers s) k) as [t |] eqn:Hg; [| exact H].
  destruct (Z.eq_dec k h) as [-> | Hne].
  - destruct H as [B [[G C] | [G _]]]; [| congruence].
    assert (t = t0) by congruence. subst t.
    rewrite is_timeout. cbn [String.eqb Ascii.eqb Bool.eqb].
    unfold call. apply once_exec.
    unfold fired_at_most_once. state_simpl. split; [exact B |]. right.
    rewrite Map_get_delete_same, count_fired_app.
    unfold is_timer_event. rewrite event_of_source, event_of_uuid, Z.eqb_refl.
    cbn [andb]. split; [reflexivity | lia].
  - assert (Hev : forall now,
              is_timer_event (event_of (FromTimer (expiry t)) k (callback t) now)
              && (ev_uuid (event_of (FromTimer (expiry t)) k (callback t) now) =? h)
              = false).
    { intros now. rewrite event_of_uuid.
      destruct (Z.eqb_spec k h); [contradiction | apply andb_false_r]. }
    destruct (String.eqb (type t) "timeout").
    + unfold call. apply once_exec, once_other_event; [apply Hev |].
      apply once_delete, H.
    + destruct (String.eqb (type t) "interval"); [| exact H].
      unfold call. apply once_exec, once_other_event; [apply Hev |].
      destruct H as [B G]. unfold fired_at_most_once. state_simpl.
      split; [exact B |]. rewrite Map_get_set_other by exact Hne. exact G.
Qed.

(** X17: a stored timeout fires at most once. Whatever the callbacks do,
    after any drain the timeout is either still stored unchanged and has
    not fired, or it is gone and has fired once or, having been cleared,
    not at all. *)
Theorem timeout_fires_at_most_once (s : FakeTimers) :
  Map_get (_timers s) h = Some t0 ->
  h < _uuidCounter s ->
  n0 = count_fired h (_trace s) ->
  forall s',
    s' = snd (runAllTicks idToRef refToId body s) \/
    s' = snd (runAllImmediates idToRef refToId body s) \/
    s' = snd (runAllTimers idToRef refToId body s) \/
    s' = snd (runOnlyPendingTimers idToRef refToId body s) \/
    (exists msToRun,
       s' = snd (advanceTimersByTime idToRef refToId body msToRun s)) \/
    (exists steps,
       s' = snd (advanceTimersToNextTimer idToRef refToId body steps s)) ->
    fired_at_most_once h t0 n0 s'.
Proof.
  intros Hg B Hn s' Hs'.
  assert (H : J s).
  { split; [exact B |]. left. split; [exact Hg | symmetry; exact Hn]. }
  assert (I_body : forall n, preserves J (exec idToRef refToId (body n)))
    by (intros n; apply once_exec).
  assert (I_check : forall x, J x -> J (_checkFakeTimers x)).
  { intros x Hx.
    destruct (checkFakeTimers_fields x) as (Ct & _ & _ & Ctr & _ & Cu & _).
    eapply once_ext; [| exact Ct | exact Ctr | exact Hx]. rewrite Cu. lia. }
  assert (I_quiet : forall ev x, is_timer_event ev = false -> J x ->
            J (set_trace x (_trace x ++ [ev]))).
  { intros ev x Hev Hx. apply once_other_event; [| exact Hx].
    rewrite Hev. reflexivity. }
  assert (I_tick : forall x t rest, _ticks x = t :: rest -> J x ->
            J (set_ticks x rest) /\
            J (set_cancelledTicks (set_ticks x rest)
                 (uuid t :: _cancelledTicks x)))
    by (intros x t rest _ Hx; split; exact Hx).
  assert (I_shift : forall x t rest, _immediates x = t :: rest -> J x ->
            J (set_immediates x rest))
    by (intros x t rest _ Hx; exact Hx).
  assert (I_clear : forall id x, J x -> J (_fakeClearImmediate id x))
    by (intros id x Hx; exact Hx).
  assert (I_now : forall v x, J x -> J (set_now x v))
    by (intros v x Hx; exact Hx).
  pose proof once_fire as I_fire.
  destruct Hs' as [-> | [-> | [-> | [-> | [[msToRun ->] | [steps ->]]]]]].
  - apply (@firing_runAllTicks _ idToRef refToId body J); auto.
  - apply (@firing_runAllImmediates _ idToRef refToId body J); auto.
  - apply (@firing_runAllTimers _ idToRef refToId body J); auto.
  - apply (@firing_runOnlyPendingTimers _ idToRef refToId body J); auto.
  - apply (@firing_advanceTimersByTime _ idToRef refToId body J); auto.
  - apply (@firing_advanceTimersToNextTimer _ idToRef refToId body J); auto.
Qed.

End Once.

Lemma timeout_fires_at_most_once_witness :
  fired_at_most_once 1 (mkTimer "timeout" (UserFn 0) 100 None) 0
    (snd (runAllTimers id_idToRef id_refToId late_timeout timeout_100_late)).
Proof.
  refine (@timeout_fires_at_most_once Z id_idToRef id_refToId late_timeout
            1 (mkTimer "timeout" (UserFn 0) 100 None) 0 _ timeout_100_late
            _ _ _ _ _).
  - reflexivity.
  - reflexivity.
  - reflexivity.
  - reflexivity.
  - right. right. left. reflexivity.
Defined.

(** ** [runAllImmediates] on a queue that the callbacks leave alone *)

Lemma filter_other_uuids id (l : list Tick) :
  ~ In id (map uuid l) ->
  filter (fun immediate => negb (uuid immediate =? id)) l = l.
Proof.
  induction l as [| t l IH]; cbn [map In filter]; intros Hn; [reflexivity |].
  destruct (Z.eqb_spec (uuid t) id) as [E | E]; [exfalso; auto |].
  cbn [negb]. f_equal. apply IH. intros Hin. apply Hn. right. exact Hin.
Qed.

Section ImmediateQueue.

Variable TimerRef : Type.
Variable idToRef : Z -> TimerRef.
Variable refToId : TimerRef -> option Z.
Variable body : nat -> list (Cmd TimerRef).
Hypothesis bodies_leave_immediates : forall n, Forall leaves_immediates (body n).

Lemma exec_cmd_leaves_immediates c s :
  leaves_immediates c ->
  fst (exec_cmd idToRef refToId c s) = inr tt /\
  _immediates (snd (exec_cmd idToRef refToId c s)) = _immediates s.
Proof.
  intros Hc. destruct c; try contradiction; cbn [exec_cmd modify fst snd];
    (split; [reflexivity |]);
    unfold _fakeRequestAnimationFrame, _fakeSetTimeout, _fakeSetInterval,
      _fakeNextTick, _fakeClearTimer;
    try (destruct (_disposed s); reflexivity).
  destruct (refToId timerRef) as [id |]; [| reflexivity].
  destruct (id =? 0); reflexivity.
Qed.

Lemma exec_leaves_immediates cmds :
  Forall leaves_immediates cmds ->
  forall s,
    fst (exec idToRef refToId cmds s) = inr tt /\
    _immediates (snd (exec idToRef refToId cmds s)) = _immediates s.
Proof.
  induction 1 as [| c cmds Hc Hcs IH]; intros s; cbn [exec]; [auto |].
  unfold bind. destruct (@exec_cmd_leaves_immediates c s Hc) as [E1 X1].
  destruct (exec_cmd idToRef refToId c s) as [r s1]. cbn [fst snd] in E1, X1.
  subst r. destruct (IH s1) as [E2 X2]. split; [exact E2 | congruence].
Qed.

Lemma runImmediate_alone imm s :
  ~ In (uuid imm) (map uuid (_immediates s)) ->
  let r := _runImmediate idToRef refToId body imm s in
  fst r = inr tt /\
  _immediates (snd r) = _immediates s /\
  _trace (snd r)
  = _trace s ++ [event_of FromImmediate (uuid imm) (tick_callback imm) (_now s)] /\
  _now (snd r) = _now s.
Proof.
  intros Hn. cbv zeta.
  destruct (runImmediate_trace idToRef refToId body imm s) as [T N].
  split; [| split; [| split; [exact T | exact N]]];
    unfold _runImmediate, try_finally, call;
    destruct (exec_leaves_immediates
                (bodies_leave_immediates
                   (ev_name (event_of FromImmediate (uuid imm) (tick_callback imm)
                               (_now s))))
                (set_trace s
                   (_trace s
                    ++ [event_of FromImmediate (uuid imm) (tick_callback imm)
                          (_now s)]))) as [E X];
    destruct (exec idToRef refToId _ _) as [r s1]; cbn [fst snd] in *.
  - exact E.
  - unfold _fakeClearImmediate. state_simpl. rewrite X. state_simpl.
    apply filter_other_uuids, Hn.
Qed.

Lemma immediates_loop_unfold fuel i s :
  for_loop (S fuel) i (immediates_iteration idToRef refToId body) s
  = match _immediates s with
    | [] => (inr i, s)
    | imm :: rest =>
        match _runImmediate idToRef refToId body imm (set_immediates s rest) with
        | (inl e, s1) => (inl e, s1)
        | (inr _, s1) =>
            for_loop fuel (i + 1) (immediates_iteration idToRef refToId body) s1
        end
    end.
Proof.
  cbn [for_loop]. unfold bind at 1, immediates_iteration at 1, bind at 1,
    shift_immediates.
  destruct (_immediates s) as [| imm rest]; [reflexivity |].
  unfold bind at 1.
  destruct (_runImmediate idToRef refToId body imm (set_immediates s rest))
    as [[e | []] s1]; reflexivity.
Qed.

Lemma immediates_loop_runs fuel :
  forall s i,
    NoDup (map uuid (_immediates s)) ->
    let r := for_loop fuel i (immediates_iteration idToRef refToId body) s in
    fst r = inr (i + Z.of_nat (Nat.min fuel (List.length (_immediates s)))) /\
    _immediates (snd r) = skipn fuel (_immediates s) /\
    _trace (snd r)
    = _trace s ++ immediate_events (_now s) (firstn fuel (_immediates s)) /\
    _now (snd r) = _now s.
Proof.
  induction fuel as [| fuel IH]; intros s i ND; cbv zeta.
  - cbn [for_loop ret fst snd Nat.min firstn skipn immediate_events map].
    rewrite app_nil_r, Z.add_0_r. auto.
  - rewrite immediates_loop_unfold.
    destruct (_immediates s) as [| imm rest] eqn:E.
    + cbn [fst snd List.length firstn skipn immediate_events map].
      rewrite Nat.min_0_r, app_nil_r, Z.add_0_r. auto.
    + cbn [map] in ND. inversion ND as [| ? ? Hn ND']; subst.
      destruct (@runImmediate_alone imm (set_immediates s rest) Hn)
        as (R & Ri & Rt & Rn).
      cbv zeta in R, Ri, Rt, Rn. state_simpl.
      destruct (_runImmediate idToRef refToId body imm (set_immediates s rest))
        as [r s1]. cbn [fst snd] in R, Ri, Rt, Rn. subst r.
      rewrite <- Ri in ND'.
      destruct (IH s1 (i + 1) ND') as (L & Li & Lt & Ln). cbv zeta in L, Li, Lt, Ln.
      rewrite Ri in L, Li, Lt. rewrite Rn in Lt.
      cbn [List.length Nat.min firstn skipn immediate_events map].
      conj_split.
      * rewrite L. f_equal. lia.
      * exact Li.
      * rewrite Lt, Rt, <- app_assoc. reflexivity.
      * congruence.
Qed.

(** X18: when the queued immediates have distinct ids and the callbacks
    neither register nor clear immediates nor throw, [runAllImmediates]
    runs the first [maxLoops] of them in the order of registration and
    leaves the others queued. It returns normally when fewer than
    [maxLoops] were queued, and throws when [maxLoops] or more were, also
    when exactly [maxLoops] were queued and none is left. *)
Theorem runAllImmediates_runs_queue (s : FakeTimers) :
  NoDup (map uuid (_immediates s)) ->
  0 <= _maxLoops s ->
  let k := Z.to_nat (_maxLoops s) in
  let r := runAllImmediates idToRef refToId body s in
  _immediates (snd r) = skipn k (_immediates s) /\
  _trace (snd r)
  = _trace s ++ immediate_events (_now s) (firstn k (_immediates s)) /\
  _now (snd r) = _now s /\
  (Z.of_nat (List.length (_immediates s)) < _maxLoops s -> fst r = inr tt) /\
  (_maxLoops s <= Z.of_nat (List.length (_immediates s)) ->
   fst r = inl (RanTooMany (_maxLoops s) " immediates")).
Proof.
  intros ND Hm. cbv zeta.
  destruct (checkFakeTimers_fields s) as (_ & Ci & _ & Ct & Cn & _ & Cm).
  rewrite <- Ci in ND.
  destruct (immediates_loop_runs (Z.to_nat (_maxLoops s)) (_checkFakeTimers s) 0 ND)
    as (L & Li & Lt & Ln). cbv zeta in L, Li, Lt, Ln.
  rewrite Ci in L, Li, Lt. rewrite Ct, Cn in Lt. rewrite Cn in Ln.
  unfold runAllImmediates, bounded_loop, bind, modify, gets. rewrite Cm.
  destruct (for_loop (Z.to_nat (_maxLoops s)) 0
              (immediates_iteration idToRef refToId body) (_checkFakeTimers s))
    as [r s1]. cbn [fst snd] in L, Li, Lt, Ln. subst r.
  cbn [Z.add].
  destruct (Z.eqb_spec
              (Z.of_nat (Nat.min (Z.to_nat (_maxLoops s))
                           (List.length (_immediates s))))
              (_maxLoops s)) as [E | E];
    cbn [throw ret fst snd]; conj_split; auto; intros H;
    first [lia | exfalso; apply E; lia].
Qed.

End ImmediateQueue.

Lemma runAllImmediates_runs_queue_witness :
  _trace (snd (runAllImmediates id_idToRef id_refToId inert pending_mix))
  = _trace pending_mix
    ++ immediate_events (_now pending_mix)
         (firstn (Z.to_nat (_maxLoops pending_mix)) (_immediates pending_mix)).
Proof.
  refine (proj1 (proj2 (@runAllImmediates_runs_queue Z id_idToRef id_refToId
                          inert _ pending_mix _ _))).
  - intros n. constructor.
  - change (_immediates pending_mix) with [mkTick 3 (UserFn 3)].
    repeat constructor. simpl. tauto.
  - discriminate.
Defined.

(** ** [runAllTicks] on a queue that the callbacks leave alone *)

Lemma hasOwnProperty_cons cancelled k id :
  hasOwnProperty (k :: cancelled) id = (id =? k) || hasOwnProperty cancelled id.
Proof. reflexivity. Qed.

Lemma hasOwnProperty_fresh cancelled c :
  Forall (fun k => k < c) cancelled -> hasOwnProperty cancelled c = false.
Proof.
  unfold hasOwnProperty. induction 1 as [| k l Hk _ IH]; [reflexivity |].
  cbn [existsb]. rewrite IH. destruct (Z.eqb_spec c k); [lia | reflexivity].
Qed.

Lemma not_cancelled_other cancelled k l :
  ~ In k (map uuid l) -> not_cancelled (k :: cancelled) l = not_cancelled cancelled l.
Proof.
  unfold not_cancelled. intros Hn. apply filter_ext_in. intros t Ht.
  rewrite hasOwnProperty_cons.
  destruct (Z.eqb_spec (uuid t) k) as [E | E]; [| reflexivity].
  exfalso. apply Hn. rewrite <- E. apply in_map, Ht.
Qed.

Lemma firstn_NoDup_head (t : Tick) rest n :
  NoDup (map uuid (t :: rest)) -> ~ In (uuid t) (map uuid (firstn n rest)).
Proof.
  cbn [map]. intros ND Hin. inversion ND as [| ? ? Hn _]; subst. apply Hn.
  apply in_map_iff in Hin. destruct Hin as (x & E & Hx).
  rewrite <- E. apply in_map. rewrite <- (firstn_skipn n rest).
  apply in_or_app. left. exact Hx.
Qed.

Section TickQueue.

Variable TimerRef : Type.
Variable idToRef : Z -> TimerRef.
Variable refToId : TimerRef -> option Z.
Variable body : nat -> list (Cmd TimerRef).
Hypothesis bodies_leave_ticks : forall n, Forall leaves_ticks (body n).

Lemma exec_cmd_leaves_ticks c s :
  leaves_ticks c ->
  fst (exec_cmd idToRef refToId c s) = inr tt /\
  _ticks (snd (exec_cmd idToRef refToId c s)) = _ticks s /\
  _cancelledTicks (snd (exec_cmd idToRef refToId c s)) = _cancelledTicks s.
Proof.
  intros Hc. destruct c; try contradiction; cbn [exec_cmd modify fst snd];
    (split; [reflexivity |]);
    unfold _fakeRequestAnimationFrame, _fakeSetTimeout, _fakeSetInterval,
      _fakeSetImmediate, _fakeClearTimer, _fakeClearImmediate;
    try (destruct (_disposed s); split; reflexivity).
  destruct (refToId timerRef) as [id |]; [| split; reflexivity].
  destruct (id =? 0); split; reflexivity.
Qed.

Lemma exec_leaves_ticks cmds :
  Forall leaves_ticks cmds ->
  forall s,
    fst (exec idToRef refToId cmds s) = inr tt /\
    _ticks (snd (exec idToRef refToId cmds s)) = _ticks s /\
    _cancelledTicks (snd (exec idToRef refToId cmds s)) = _cancelledTicks s.
Proof.
  induction 1 as [| c cmds Hc Hcs IH]; intros s; cbn [exec]; [auto |].
  unfold bind. destruct (@exec_cmd_leaves_ticks c s Hc) as (E1 & X1 & Y1).
  destruct (exec_cmd idToRef refToId c s) as [r s1]. cbn [fst snd] in E1, X1, Y1.
  subst r. destruct (IH s1) as (E2 & X2 & Y2).
  conj_split; [exact E2 | congruence | congruence].
Qed.

Lemma call_tick_alone id f s :
  let r := call idToRef refToId body FromTick id f s in
  fst r = inr tt /\
  _ticks (snd r) = _ticks s /\
  _cancelledTicks (snd r) = _cancelledTicks s /\
  _trace (snd r) = _trace s ++ [event_of FromTick id f (_now s)] /\
  _now (snd r) = _now s.
Proof.
  cbv zeta. destruct (call_trace idToRef refToId body FromTick id f s) as [T N].
  split; [| split; [| split; [| split; [exact T | exact N]]]];
    unfold call;
    destruct (exec_leaves_ticks
                (bodies_leave_ticks (ev_name (event_of FromTick id f (_now s))))
                (set_trace s (_trace s ++ [event_of FromTick id f (_now s)])))
      as (E & X & Y); assumption.
Qed.

Lemma ticks_loop_unfold fuel i s :
  for_loop (S fuel) i (ticks_iteration idToRef refToId body) s
  = match _ticks s with
    | [] => (inr i, s)
    | tick :: rest =>
        if negb (hasOwnProperty (_cancelledTicks s) (uuid tick)) then
          match call idToRef refToId body FromTick (uuid tick) (tick_callback tick)
                  (set_cancelledTicks (set_ticks s rest)
                     (uuid tick :: _cancelledTicks s)) with
          | (inl e, s1) => (inl e, s1)
          | (inr _, s1) =>
              for_loop fuel (i + 1) (ticks_iteration idToRef refToId body) s1
          end
        else
          for_loop fuel (i + 1) (ticks_iteration idToRef refToId body)
            (set_ticks s rest)
    end.
Proof.
  cbn [for_loop]. unfold bind at 1, ticks_iteration at 1, bind at 1, shift_ticks.
  destruct (_ticks s) as [| tick rest]; [reflexivity |].
  unfold bind at 1, gets at 1.
  change (_cancelledTicks (set_ticks s rest)) with (_cancelledTicks s).
  destruct (negb (hasOwnProperty (_cancelledTicks s) (uuid tick))).
  - unfold bind at 1. unfold bind at 1, modify at 1.
    change (set_cancelledTicks (set_ticks s rest)
              (uuid tick :: _cancelledTicks (set_ticks s rest)))
      with (set_cancelledTicks (set_ticks s rest) (uuid tick :: _cancelledTicks s)).
    destruct (call idToRef refToId body FromTick (uuid tick) (tick_callback tick)
                (set_cancelledTicks (set_ticks s rest)
                   (uuid tick :: _cancelledTicks s))) as [[e | []] s1];
      reflexivity.
  - reflexivity.
Qed.

Lemma ticks_loop_runs fuel :
  forall s i,
    NoDup (map uuid (_ticks s)) ->
    let r := for_loop fuel i (ticks_iteration idToRef refToId body) s in
    let ran := not_cancelled (_cancelledTicks s) (firstn fuel (_ticks s)) in
    fst r = inr (i + Z.of_nat (Nat.min fuel (List.length (_ticks s)))) /\
    _ticks (snd r) = skipn fuel (_ticks s) /\
    _cancelledTicks (snd r) = rev (map uuid ran) ++ _cancelledTicks s /\
    _trace (snd r) = _trace s ++ tick_events (_now s) ran /\
    _now (snd r) = _now s.
Proof.
  induction fuel as [| fuel IH]; intros s i ND; cbv zeta.
  - cbn [for_loop ret fst snd Nat.min firstn skipn not_cancelled filter
           tick_events map rev app].
    rewrite app_nil_r, Z.add_0_r. auto.
  - rewrite ticks_loop_unfold.
    destruct (_ticks s) as [| tick rest] eqn:E.
    + cbn [fst snd List.length firstn skipn not_cancelled filter tick_events
             map rev app].
      rewrite Nat.min_0_r, app_nil_r, Z.add_0_r. auto.
    + pose proof (@firstn_NoDup_head tick rest fuel ND) as Hh.
      cbn [map] in ND. inversion ND as [| ? ? Hn ND']; subst.
      cbn [List.length Nat.min firstn skipn].
      unfold not_cancelled at 1 2. cbn [filter].
      fold (not_cancelled (_cancelledTicks s) (firstn fuel rest)).
      destruct (negb (hasOwnProperty (_cancelledTicks s) (uuid tick))).
      * destruct (call_tick_alone (uuid tick) (tick_callback tick)
                    (set_cancelledTicks (set_ticks s rest)
                       (uuid tick :: _cancelledTicks s)))
          as (R & Rt & Rc & Rtr & Rn).
        cbv zeta in R, Rt, Rc, Rtr, Rn. state_simpl.
        destruct (call idToRef refToId body FromTick (uuid tick)
                    (tick_callback tick)
                    (set_cancelledTicks (set_ticks s rest)
                       (uuid tick :: _cancelledTicks s))) as [r s1].
        cbn [fst snd] in R, Rt, Rc, Rtr, Rn. subst r.
        rewrite <- Rt in ND'.
        destruct (IH s1 (i + 1) ND') as (L & Lt & Lc & Ltr & Ln).
        cbv zeta in L, Lt, Lc, Ltr, Ln.
        rewrite Rt in L, Lt, Lc, Ltr. rewrite Rc in Lc, Ltr. rewrite Rn in Ltr.
        rewrite (@not_cancelled_other (_cancelledTicks s) (uuid tick) _ Hh) in Lc, Ltr.
        cbn [map rev tick_events].
        conj_split.
        -- rewrite L. f_equal. lia.
        -- exact Lt.
        -- rewrite Lc, <- app_assoc. reflexivity.
        -- rewrite Ltr, Rtr, <- app_assoc. reflexivity.
        -- congruence.
      * assert (ND1 : NoDup (map uuid (_ticks (set_ticks s rest)))) by exact ND'.
        destruct (IH (set_ticks s rest) (i + 1) ND1) as (L & Lt & Lc & Ltr & Ln).
        cbv zeta in L, Lt, Lc, Ltr, Ln. state_simpl.
        conj_split; auto. rewrite L. f_equal. lia.
Qed.

(** X19: when the queued ticks have distinct ids and the callbacks neither
    register ticks nor throw, [runAllTicks] takes the first [maxLoops]
    ticks off the queue, runs those that are not marked cancelled in the
    order of registration and marks each one it runs.  It returns normally
    when fewer than [maxLoops] were queued and throws when [maxLoops] or more
    were, also when exactly [maxLoops] were queued and none is left. *)
Theorem runAllTicks_runs_queue (s : FakeTimers) :
  NoDup (map uuid (_ticks s)) ->
  0 <= _maxLoops s ->
  let k := Z.to_nat (_maxLoops s) in
  let ran := not_cancelled (_cancelledTicks s) (firstn k (_ticks s)) in
  let r := runAllTicks idToRef refToId body s in
  _ticks (snd r) = skipn k (_ticks s) /\
  _cancelledTicks (snd r) = rev (map uuid ran) ++ _cancelledTicks s /\
  _trace (snd r) = _trace s ++ tick_events (_now s) ran /\
  _now (snd r) = _now s /\
  (Z.of_nat (List.length (_ticks s)) < _maxLoops s -> fst r = inr tt) /\
  (_maxLoops s <= Z.of_nat (List.length (_ticks s)) ->
   fst r = inl (RanTooMany (_maxLoops s) " ticks")).
Proof.
  intros ND Hm. cbv zeta.
  destruct (checkFakeTimers_fields s) as (_ & _ & Ck & Ct & Cn & _ & Cm).
  assert (Cc : _cancelledTicks (_checkFakeTimers s) = _cancelledTicks s).
  { unfold _checkFakeTimers. destruct (same_fn _ _); reflexivity. }
  rewrite <- Ck in ND.
  destruct (ticks_loop_runs (Z.to_nat (_maxLoops s)) (_checkFakeTimers s) 0 ND)
    as (L & Lt & Lc & Ltr & Ln). cbv zeta in L, Lt, Lc, Ltr, Ln.
  rewrite Ck in L, Lt, Lc, Ltr. rewrite Cc in Lc, Ltr. rewrite Ct, Cn in Ltr.
  rewrite Cn in Ln.
  unfold runAllTicks, bounded_loop, bind, modify, gets. rewrite Cm.
  destruct (for_loop (Z.to_nat (_maxLoops s)) 0
              (ticks_iteration idToRef refToId body) (_checkFakeTimers s))
    as [r s1]. cbn [fst snd] in L, Lt, Lc, Ltr, Ln. subst r.
  cbn [Z.add].
  destruct (Z.eqb_spec
              (Z.of_nat (Nat.min (Z.to_nat (_maxLoops s))
                           (List.length (_ticks s))))
              (_maxLoops s)) as [E | E];
    cbn [throw ret fst snd]; conj_split; auto; intros H;
    first [lia | exfalso; apply E; lia].
Qed.

End TickQueue.

Lemma runAllTicks_runs_queue_witness :
  _trace (snd (runAllTicks id_idToRef id_refToId inert one_tick_max5))
  = _trace one_tick_max5
    ++ tick_events (_now one_tick_max5)
         (not_cancelled (_cancelledTicks one_tick_max5)
            (firstn (Z.to_nat (_maxLoops one_tick_max5)) (_ticks one_tick_max5))).
Proof.
  refine (proj1 (proj2 (proj2 (@runAllTicks_runs_queue Z id_idToRef id_refToId
                                 inert _ one_tick_max5 _ _)))).
  - intros n. constructor.
  - change (_ticks one_tick_max5) with [mkTick 1 (UserFn 0)].
    repeat constructor. simpl. tauto.
  - discriminate.
Defined.

(** ** Operations that keep queued ticks unmarked *)

Lemma ticks_fresh_mint s s' :
  _ticks s' = _ticks s -> _cancelledTicks s' = _cancelledTicks s ->
  _uuidCounter s <= _uuidCounter s' ->
  ticks_fresh s -> ticks_fresh s'.
Proof.
  unfold ticks_fresh. intros -> -> Hc (ND & Ft & Fc & Fu).
  conj_split; auto.
  - eapply Forall_impl; [| exact Ft]. simpl. intros; lia.
  - eapply Forall_impl; [| exact Fc]. simpl. intros; lia.
Qed.

Lemma ticks_fresh_check s : ticks_fresh s -> ticks_fresh (_checkFakeTimers s).
Proof. unfold _checkFakeTimers. destruct (same_fn _ _); intros H; exact H. Qed.

Lemma ticks_fresh_shift s t rest :
  _ticks s = t :: rest -> ticks_fresh s ->
  ticks_fresh (set_ticks s rest) /\
  ticks_fresh (set_cancelledTicks (set_ticks s rest) (uuid t :: _cancelledTicks s)).
Proof.
  intros E (ND & Ft & Fc & Fu). rewrite E in ND, Ft, Fu.
  cbn [map] in ND. inversion ND as [| ? ? Hn ND']; subst.
  inversion Ft as [| ? ? Ht Ft']; subst. inversion Fu as [| ? ? Hu Fu']; subst.
  unfold ticks_fresh. state_simpl. split; conj_split; auto.
  apply Forall_forall. intros x Hx. rewrite hasOwnProperty_cons.
  rewrite Forall_forall in Fu'. rewrite (Fu' x Hx).
  destruct (Z.eqb_spec (uuid x) (uuid t)) as [Ex | Ex]; [| reflexivity].
  exfalso. apply Hn. rewrite <- Ex. apply in_map, Hx.
Qed.

Section TicksFresh.

Variable TimerRef : Type.
Variable idToRef : Z -> TimerRef.
Variable refToId : TimerRef -> option Z.
Variable body : nat -> list (Cmd TimerRef).

Lemma ticks_fresh_exec_cmd c : preserves ticks_fresh (exec_cmd idToRef refToId c).
Proof.
  intros s H.
  destruct c; cbn [exec_cmd modify throw snd];
    unfold _fakeRequestAnimationFrame, _fakeSetTimeout, _fakeSetInterval,
      _fakeSetImmediate, _fakeNextTick, _fakeClearTimer, _fakeClearImmediate.
  - destruct (_disposed s); [exact H |].
    eapply ticks_fresh_mint; [| | | exact H]; cbn [snd]; state_simpl;
      [reflexivity | reflexivity | lia].
  - destruct (_disposed s); [exact H |].
    eapply ticks_fresh_mint; [| | | exact H]; cbn [snd]; state_simpl;
      [reflexivity | reflexivity | lia].
  - destruct (_disposed s); [exact H |].
    eapply ticks_fresh_mint; [| | | exact H]; cbn [snd]; state_simpl;
      [reflexivity | reflexivity | lia].
  - destruct (_disposed s); [exact H |].
    destruct H as (ND & Ft & Fc & Fu). unfold ticks_fresh. state_simpl.
    conj_split.
    + rewrite map_app. cbn [map uuid]. apply NoDup_snoc; [exact ND |].
      apply uuids_fresh, Ft.
    + apply Forall_app. split.
      * eapply Forall_impl; [| exact Ft]. simpl. intros; lia.
      * repeat constructor. cbn [uuid]. lia.
    + eapply Forall_impl; [| exact Fc]. simpl. intros; lia.
    + apply Forall_app. split; [exact Fu |].
      repeat constructor. cbn [uuid]. apply hasOwnProperty_fresh, Fc.
  - destruct (_disposed s); [exact H |].
    eapply ticks_fresh_mint; [| | | exact H]; cbn [snd]; state_simpl;
      [reflexivity | reflexivity | lia].
  - destruct (refToId timerRef) as [id |]; [| exact H].
    destruct (id =? 0); exact H.
  - exact H.
  - exact H.
Qed.

Lemma ticks_fresh_exec cmds : preserves ticks_fresh (exec idToRef refToId cmds).
Proof.
  induction cmds as [| c cmds IH]; cbn [exec].
  - apply preserves_ret.
  - apply preserves_bind; [apply ticks_fresh_exec_cmd | intros _; exact IH].
Qed.

(** X20: no synchronous operation of the scheduler marks a tick that is
    still queued.  In a freshly constructed scheduler the queued ticks have
    distinct ids below the counter, the marks in [_cancelledTicks] are ids
    below the counter, and no queued tick is marked; all of this is kept by
    every fake primitive, by [reset], [clearAllTimers], [dispose],
    [useFakeTimers] and [useRealTimers], and by every drain whose callbacks
    only call the fake primitives or throw: [runAllTicks] marks a tick only
    once it has taken it off the queue.  The backup closure that the source
    hands to the real [process.nextTick], which the host runs in a later
    turn and which does mark a queued tick, is not one of these operations
    and is not modelled. *)
Theorem operations_keep_queued_ticks_unmarked :
  (forall g maxLoops, ticks_fresh (constructor g maxLoops)) /\
  (forall s,
     ticks_fresh s ->
     (forall c : Cmd TimerRef, ticks_fresh (snd (exec_cmd idToRef refToId c s))) /\
     ticks_fresh (reset s) /\
     ticks_fresh (clearAllTimers s) /\
     ticks_fresh (dispose s) /\
     ticks_fresh (useFakeTimers s) /\
     ticks_fresh (useRealTimers s) /\
     ticks_fresh (snd (runAllTicks idToRef refToId body s)) /\
     ticks_fresh (snd (runAllImmediates idToRef refToId body s)) /\
     ticks_fresh (snd (runAllTimers idToRef refToId body s)) /\
     ticks_fresh (snd (runOnlyPendingTimers idToRef refToId body s)) /\
     (forall msToRun,
        ticks_fresh (snd (advanceTimersByTime idToRef refToId body msToRun s))) /\
     (forall steps,
        ticks_fresh (snd (advanceTimersToNextTimer idToRef refToId body steps s)))).
Proof.
  split.
  - intros g m. unfold ticks_fresh. cbn. conj_split; constructor.
  - intros s H.
    assert (I_body : forall n, preserves ticks_fresh (exec idToRef refToId (body n)))
      by (intros n; apply ticks_fresh_exec).
    assert (I_event : forall ev x, ticks_fresh x ->
              ticks_fresh (set_trace x (_trace x ++ [ev])))
      by (intros ev x Hx; exact Hx).
    assert (I_shift : forall x t rest, _immediates x = t :: rest -> ticks_fresh x ->
              ticks_fresh (set_immediates x rest))
      by (intros x t rest _ Hx; exact Hx).
    assert (I_clear : forall id x, ticks_fresh x ->
              ticks_fresh (_fakeClearImmediate id x))
      by (intros id x Hx; exact Hx).
    assert (I_delete : forall k x, ticks_fresh x ->
              ticks_fresh (set_timers x (Map_delete (_timers x) k)))
      by (intros k x Hx; exact Hx).
    assert (I_resched : forall k t x, Map_get (_timers x) k = Some t ->
              ticks_fresh x ->
              ticks_fresh (set_timers x
                   (Map_set (_timers x) k
                      (mkTimer (type t) (callback t)
                         (_now x + or_zero (interval t)) (interval t)))))
      by (intros k t x _ Hx; exact Hx).
    assert (I_now : forall v x, ticks_fresh x -> ticks_fresh (set_now x v))
      by (intros v x Hx; exact Hx).
    pose proof ticks_fresh_check as I_check.
    pose proof ticks_fresh_shift as I_tick.
    conj_split.
    + intros c. apply ticks_fresh_exec_cmd, H.
    + destruct H as (_ & _ & Fc & _). unfold ticks_fresh, reset. state_simpl.
      conj_split; constructor.
    + exact H.
    + exact H.
    + unfold useFakeTimers, _createMocks. state_simpl. exact H.
    + exact H.
    + apply (@inv_runAllTicks _ idToRef refToId body ticks_fresh); auto.
    + apply (@inv_runAllImmediates _ idToRef refToId body ticks_fresh); auto.
    + apply (@inv_runAllTimers _ idToRef refToId body ticks_fresh); auto.
    + apply (@inv_runOnlyPendingTimers _ idToRef refToId body ticks_fresh); auto.
    + intros msToRun.
      apply (@inv_advanceTimersByTime _ idToRef refToId body ticks_fresh); auto.
    + intros steps.
      apply (@inv_advanceTimersToNextTimer _ idToRef refToId body ticks_fresh);
        auto.
Qed.

End TicksFresh.

Lemma operations_keep_queued_ticks_unmarked_witness :
  ticks_fresh (snd (runAllTimers id_idToRef id_refToId respawn
                      (constructor host None))).
Proof.
  destruct (@operations_keep_queued_ticks_unmarked Z id_idToRef id_refToId respawn)
    as [Hc Hs].
  destruct (Hs (constructor host None) (Hc host None))
    as (_ & _ & _ & _ & _ & _ & _ & _ & W & _).
  exact W.
Defined.

(** ** [runAllTimers] with a pending interval *)

Lemma bind_avoids {A B} (m : M A) (k : A -> M B) (b : B) s :
  (forall a s', fst (k a s') <> inr b) -> fst (bind m k s) <> inr b.
Proof.
  intros H. unfold bind. destruct (m s) as [[e | a] s']; [discriminate | apply H].
Qed.

Lemma loop_never_breaks (I : FakeTimers -> Prop) (step : M LoopCtl) :
  preserves I step ->
  (forall s, I s -> fst (step s) <> inr Break) ->
  forall fuel i s,
    I s ->
    (exists e, fst (for_loop fuel i step s) = inl e) \/
    fst (for_loop fuel i step s) = inr (i + Z.of_nat fuel).
Proof.
  intros Hp Hb. induction fuel as [| fuel IH]; intros i s H; cbn [for_loop].
  - right. cbn. f_equal. lia.
  - unfold bind. specialize (Hp s H). specialize (Hb s H).
    destruct (step s) as [[e | [|]] s1]; cbn [fst snd] in *.
    + left. exists e. reflexivity.
    + contradiction.
    + destruct (IH (i + 1) s1 Hp) as [L | L]; [left; exact L |].
      right. rewrite L. f_equal. lia.
Qed.

Lemma timers_iteration_continues {TimerRef : Type} (idToRef : Z -> TimerRef)
    (refToId : TimerRef -> option Z) (body : nat -> list (Cmd TimerRef)) s :
  _getNextTimerHandle s <> None ->
  fst (timers_iteration idToRef refToId body s) <> inr Break.
Proof.
  intros Hn. unfold timers_iteration, bind at 1, gets at 1.
  destruct (_getNextTimerHandle s) as [h |]; [| contradiction].
  repeat (apply bind_avoids; intros). cbn. discriminate.
Qed.

Section PendingInterval.

Variable TimerRef : Type.
Variable idToRef : Z -> TimerRef.
Variable refToId : TimerRef -> option Z.
Variable body : nat -> list (Cmd TimerRef).
Variable h : TimerID.
Variable iv : option Z.
Variable v : Z.
Hypothesis bodies_spare : forall n, Forall (spares refToId h) (body n).
Hypothesis next_is_near : v + or_zero iv < MS_IN_A_YEAR.

Local Abbreviation K := (interval_pending h iv v).

Lemma pending_ext s s' :
  _now s' = _now s -> _maxLoops s' = _maxLoops s ->
  _uuidCounter s <= _uuidCounter s' ->
  Map_get (_timers s') h = Map_get (_timers s) h ->
  K s -> K s'.
Proof.
  unfold interval_pending. intros -> -> Hc ->. intros (N & Hm & B & G).
  conj_split; auto. lia.
Qed.

Lemma pending_insert t s :
  K s ->
  K (set_timers (set_uuidCounter s (_uuidCounter s + 1))
       (Map_set (_timers s) (_uuidCounter s) t)).
Proof.
  intros H. eapply pending_ext; [| | | | exact H]; state_simpl;
    [reflexivity | reflexivity | lia |].
  apply Map_get_set_other. destruct H as (_ & _ & B & _). lia.
Qed.

Lemma pending_exec_cmd c :
  spares refToId h c -> preserves K (exec_cmd idToRef refToId c).
Proof.
  intros Hc s H.
  destruct c; cbn [exec_cmd modify throw snd];
    unfold _fakeRequestAnimationFrame, _fakeSetTimeout, _fakeSetInterval,
      _fakeSetImmediate, _fakeNextTick, _fakeClearTimer, _fakeClearImmediate.
  - destruct (_disposed s); [exact H |]. cbn [snd]. state_simpl.
    apply pending_insert, H.
  - destruct (_disposed s); [exact H |]. cbn [snd]. state_simpl.
    apply pending_insert, H.
  - destruct (_disposed s); [exact H |].
    eapply pending_ext; [| | | | exact H]; cbn [snd]; state_simpl;
      [reflexivity | reflexivity | lia | reflexivity].
  - destruct (_disposed s); [exact H |].
    eapply pending_ext; [| | | | exact H]; cbn [snd]; state_simpl;
      [reflexivity | reflexivity | lia | reflexivity].
  - destruct (_disposed s); [exact H |]. cbn [snd]. state_simpl.
    apply pending_insert, H.
  - cbn [spares] in Hc.
    destruct (refToId timerRef) as [id |]; [| exact H].
    destruct (id =? 0); [exact H |].
    eapply pending_ext; [| | | | exact H]; state_simpl;
      [reflexivity | reflexivity | lia |].
    apply Map_get_delete_other. intros E. apply Hc. rewrite E. reflexivity.
  - exact H.
  - exact H.
Qed.

Lemma pending_exec cmds :
  Forall (spares refToId h) cmds -> preserves K (exec idToRef refToId cmds).
Proof.
  induction 1 as [| c cmds Hc Hcs IH]; cbn [exec].
  - apply preserves_ret.
  - apply preserves_bind; [apply pending_exec_cmd, Hc | intros _; exact IH].
Qed.

Lemma pending_call src id f : preserves K (call idToRef refToId body src id f).
Proof.
  intros s H. unfold call. apply pending_exec; [apply bodies_spare |]. exact H.
Qed.

Lemma pending_fire k : preserves K (_runTimerHandle idToRef refToId body k).
Proof.
  intros s H. rewrite runTimerHandle_unfold.
  destruct (Map_get (_timers s) k) as [t |] eqn:Hg; [| exact H].
  destruct (Z.eq_dec k h) as [-> | Hne].
  - pose proof H as (N & Hm & B & t' & G & Ty & Iv & Ex).
    assert (t' = t) by congruence. subst t'.
    rewrite Ty. cbn [String.eqb Ascii.eqb Bool.eqb].
    apply pending_call. unfold interval_pending. state_simpl.
    conj_split; auto.
    exists (mkTimer "interval" (callback t) (_now s + or_zero (interval t))
              (interval t)).
    rewrite Map_get_set_same. cbn [type interval expiry].
    conj_split; auto. rewrite N, Iv. exact next_is_near.
  - destruct (String.eqb (type t) "timeout").
    + apply pending_call.
      eapply pending_ext; [| | | | exact H]; state_simpl;
        [reflexivity | reflexivity | lia |].
      apply Map_get_delete_other. exact Hne.
    + destruct (String.eqb (type t) "interval"); [| exact H].
      apply pending_call.
      eapply pending_ext; [| | | | exact H]; state_simpl;
        [reflexivity | reflexivity | lia |].
      apply Map_get_set_other. exact Hne.
Qed.

Lemma pending_next s : K s -> _getNextTimerHandle s <> None.
Proof.
  intros (_ & _ & _ & t & G & _ & _ & Ex) En.
  apply getNextTimerHandle_none in En. apply Map_get_In in G.
  rewrite Forall_forall in En. specialize (En (h, t) G). simpl in En. lia.
Qed.


End PendingInterval.

